(** * Round Table: the synchronisation engine of [roundtable.js]

    A shallow embedding of the record codec, the GitHub contents client with
    its ETag cache, the optimistic write coordinator, the reaction
    aggregator, the polling loop and the speaker queue of
    [src/roundtable.js], followed by the properties proved about them.

    Conventions.
    - A JavaScript string is the list of its UTF-16 code units ([list N]).
    - A JavaScript number is kept as the exact decimal value of the literal
      it was read from ([number]); the ratings and delays the program
      handles are integers, printed and read back exactly.
    - Code that can throw returns a [result]; [try]/[catch] is written out.
    - Network calls are events of a small interaction type ([io]): a
      program is run against the list of answers the store gives. *)

From Stdlib Require Import NArith ZArith Ascii Lia Bool String.
From stdpp Require Import gmap list sorting.
Close Scope string_scope.

#[local] Set Warnings "-register-all".
#[local] Ltac Zify.zify_post_hook ::= Z.to_euclidean_division_equations.

(** ** JavaScript strings *)

Abbreviation jsstring := (list N).

(** An ASCII literal as a JavaScript string. *)
Definition str (s : String.string) : jsstring :=
  map N_of_ascii (String.list_ascii_of_string s).
Arguments str s%_string : simpl never.

Definition TAB : N := 9.
Definition LF : N := 10.
Definition CR : N := 13.
Definition SPACE : N := 32.
Definition DQUOTE : N := 34.
Definition HASH : N := 35.
Definition SQUOTE : N := 39.
Definition EQUALS : N := 61.

(** [WhiteSpace] and [LineTerminator] of ECMAScript: what [trim] strips and
    what the regular expression class [\s] matches. *)
Definition isWhiteSpace (c : N) : bool :=
  ((9 <=? c) && (c <=? 13) || (c =? 32) || (c =? 160) || (c =? 5760)
   || (8192 <=? c) && (c <=? 8202) || (c =? 8232) || (c =? 8233)
   || (c =? 8239) || (c =? 8287) || (c =? 12288) || (c =? 65279))%N.

Fixpoint trimStart (s : jsstring) : jsstring :=
  match s with
  | c :: r => if isWhiteSpace c then trimStart r else s
  | [] => []
  end.

Definition trimEnd (s : jsstring) : jsstring := rev (trimStart (rev s)).

Definition trim (s : jsstring) : jsstring := trimEnd (trimStart s).

(** [s.indexOf(c)] for a single code unit; [None] is JavaScript's [-1]. *)
Fixpoint indexOf (c : N) (s : jsstring) : option nat :=
  match s with
  | [] => None
  | d :: r => if (d =? c)%N then Some 0%nat else S <$> indexOf c r
  end.

(** [s.slice(start, end)] with JavaScript's relative indices: a negative
    index counts from the end, and both are clamped to the string. *)
Definition relIndex (len i : Z) : Z :=
  if (i <? 0)%Z then Z.max (len + i) 0 else Z.min i len.

Definition slice (s : jsstring) (start : Z) (end_ : option Z) : jsstring :=
  let len := Z.of_nat (length s) in
  let from := relIndex len start in
  let to := match end_ with Some e => relIndex len e | None => len end in
  take (Z.to_nat (Z.max (to - from) 0)) (drop (Z.to_nat from) s).

Fixpoint startsWith (p s : jsstring) : bool :=
  match p, s with
  | [], _ => true
  | c :: p', d :: s' => (c =? d)%N && startsWith p' s'
  | _ :: _, [] => false
  end.

Definition endsWith (p s : jsstring) : bool := startsWith (rev p) (rev s).

(** [s.includes(p)]: [p] occurs somewhere in [s]. *)
Fixpoint includes (p s : jsstring) : bool :=
  startsWith p s || match s with [] => false | _ :: r => includes p r end.

(** ASCII case mapping.  [toUpperCase] is modelled on the ASCII letters,
    which is where it decides the comparisons with the ASCII key names. *)
Definition upperUnit (c : N) : N :=
  if ((97 <=? c) && (c <=? 122))%N then (c - 32)%N else c.

Definition lowerUnit (c : N) : N :=
  if ((65 <=? c) && (c <=? 90))%N then (c + 32)%N else c.

Definition toUpperCase (s : jsstring) : jsstring := map upperUnit s.

Definition jsstring_eqb (a b : jsstring) : bool := bool_decide (a = b).

(** [s.split(/\r?\n/)]: a line ends at a line feed, and a carriage return
    right before that line feed belongs to the separator. *)
Definition consFirst (c : N) (ls : list jsstring) : list jsstring :=
  match ls with
  | l :: ls' => (c :: l) :: ls'
  | [] => [[c]]
  end.

Fixpoint splitLines (s : jsstring) : list jsstring :=
  match s with
  | [] => [[]]
  | c :: r =>
      if (c =? LF)%N then [] :: splitLines r
      else match r with
           | d :: r' =>
               if ((c =? CR) && (d =? LF))%N then [] :: splitLines r'
               else consFirst c (splitLines r)
           | [] => consFirst c (splitLines r)
           end
  end.

(** [lines.join(sep)]. *)
Fixpoint join (sep : jsstring) (ls : list jsstring) : jsstring :=
  match ls with
  | [] => []
  | [l] => l
  | l :: ls' => l ++ sep ++ join sep ls'
  end.

(** ** JavaScript numbers *)

(** A number read from text is kept as the exact value of its literal,
    [(-1)^neg * m * 10^e]; JavaScript then rounds that value to the nearest
    double, which changes nothing on the integers this program handles. *)
Inductive number :=
  | NaN
  | Infinity (neg : bool)
  | Finite (neg : bool) (m : N) (e : Z).

#[global] Instance number_eq_dec : EqDecision number.
Proof. solve_decision. Defined.

Definition numOfZ (z : Z) : number := Finite (z <? 0)%Z (Z.abs_N z) 0.

(** The literal rounds to zero: it is zero, or at most half the least
    positive double, [2^-1075] (ties go to the even neighbour, zero). *)
Definition roundsToZero (m : N) (e : Z) : bool :=
  (m =? 0)%N || ((e <? 0)%Z && (Z.of_N m * 2 ^ 1075 <=? 10 ^ (- e))%Z).

(** [ToBoolean] on numbers: [NaN], [+0] and [-0] are falsy. *)
Definition numberTruthy (n : number) : bool :=
  match n with
  | NaN => false
  | Infinity _ => true
  | Finite _ m e => negb (roundsToZero m e)
  end.

Definition isDigit (c : N) : bool := ((48 <=? c) && (c <=? 57))%N.

(** A run of decimal digits: the value accumulated on [acc], how many digits
    were read, and what follows them. *)
Fixpoint spanDigits (acc : N) (n : nat) (s : jsstring) : N * nat * jsstring :=
  match s with
  | c :: r =>
      if isDigit c then spanDigits (acc * 10 + (c - 48))%N (S n) r
      else (acc, n, s)
  | [] => (acc, n, [])
  end.

Definition readSign (s : jsstring) : bool * jsstring :=
  match s with
  | c :: r =>
      if (c =? 45)%N then (true, r)
      else if (c =? 43)%N then (false, r)
      else (false, s)
  | [] => (false, [])
  end.

(** [ExponentPart], which must end the literal. *)
Definition readExponent (s : jsstring) : option Z :=
  match s with
  | [] => Some 0%Z
  | c :: r =>
      if ((c =? 101) || (c =? 69))%N then
        let '(neg, r1) := readSign r in
        let '(v, n, r2) := spanDigits 0 0 r1 in
        match n, r2 with
        | S _, [] => Some (if neg then (- Z.of_N v)%Z else Z.of_N v)
        | _, _ => None
        end
      else None
  end.

(** [StrUnsignedDecimalLiteral] other than [Infinity]: mantissa and
    exponent of the literal. *)
Definition readDecimal (s : jsstring) : option (N * Z) :=
  let '(m1, n1, r1) := spanDigits 0 0 s in
  match r1 with
  | c :: r =>
      if (c =? 46)%N then
        let '(m2, n2, r2) := spanDigits m1 0 r in
        if (n1 + n2 =? 0)%nat then None
        else e ← readExponent r2; Some (m2, (e - Z.of_nat n2)%Z)
      else if (n1 =? 0)%nat then None
      else e ← readExponent r1; Some (m1, e)
  | [] => if (n1 =? 0)%nat then None else Some (m1, 0%Z)
  end.

Definition digitValue (radix c : N) : option N :=
  let v := if isDigit c then Some (c - 48)%N
           else if ((97 <=? c) && (c <=? 102))%N then Some (c - 87)%N
           else if ((65 <=? c) && (c <=? 70))%N then Some (c - 55)%N
           else None in
  d ← v; if (d <? radix)%N then Some d else None.

Fixpoint readRadix (radix acc : N) (s : jsstring) : option N :=
  match s with
  | [] => Some acc
  | c :: r => d ← digitValue radix c; readRadix radix (acc * radix + d)%N r
  end.

(** [NonDecimalIntegerLiteral]: [0x], [0o] and [0b] literals. *)
Definition readNonDecimal (s : jsstring) : option N :=
  match s with
  | z :: p :: ((_ :: _) as ds) =>
      if (z =? 48)%N then
        if ((p =? 120) || (p =? 88))%N then readRadix 16 0 ds
        else if ((p =? 111) || (p =? 79))%N then readRadix 8 0 ds
        else if ((p =? 98) || (p =? 66))%N then readRadix 2 0 ds
        else None
      else None
  | _ => None
  end.

(** [Number(s)] on a string: [StringToNumber]. *)
Definition Number (s : jsstring) : number :=
  let t := trim s in
  match t with
  | [] => Finite false 0 0
  | _ :: _ =>
      match readNonDecimal t with
      | Some v => Finite false v 0
      | None =>
          let '(neg, r) := readSign t in
          if jsstring_eqb r (str "Infinity") then Infinity neg
          else match readDecimal r with
               | Some (m, e) => Finite neg m e
               | None => NaN
               end
      end
  end.

(** Decimal digits of a natural number. *)
Fixpoint digitsFuel (fuel : nat) (n : N) (acc : jsstring) : jsstring :=
  match fuel with
  | O => acc
  | S f =>
      let acc' := (48 + n mod 10)%N :: acc in
      if (n <? 10)%N then acc' else digitsFuel f (n / 10)%N acc'
  end.

Definition decimalDigits (n : N) : jsstring :=
  digitsFuel (S (N.to_nat (N.log2 n))) n [].

(** [String(z)] for an integer below [10^21] in size, as a template literal
    prints it. *)
Definition NumberToString (z : Z) : jsstring :=
  (if (z <? 0)%Z then [45%N] else []) ++ decimalDigits (Z.abs_N z).

(** [x || null] on a number: a falsy number gives [null] ([None]). *)
Definition orNull (n : number) : option number :=
  if numberTruthy n then Some n else None.

(** ** Exceptions *)

(** A thrown [Error]: its message and, where the client sets one, the HTTP
    [status] it carries. *)
Record error := Error { message : jsstring; status : option N }.

Inductive result (A : Type) :=
  | Ok (a : A)
  | Throw (e : error).
Arguments Ok {A} a.
Arguments Throw {A} e.

#[global] Instance result_ret : MRet result := fun A a => Ok a.
#[global] Instance result_bind : MBind result := fun A B f m =>
  match m with Ok a => f a | Throw e => Throw e end.
#[global] Instance result_fmap : FMap result := fun A B f m =>
  match m with Ok a => Ok (f a) | Throw e => Throw e end.

(** [try { m } catch (e) { h e }]. *)
Definition tryCatch {A} (m : result A) (h : error -> result A) : result A :=
  match m with Ok a => Ok a | Throw e => h e end.

(** The errors the platform raises; the program never reads their text. *)
Definition uriError : error := Error (str "URI malformed") None.
Definition invalidCharacterError : error :=
  Error (str "The string to be encoded or decoded is not correctly encoded.") None.
Definition typeError : error :=
  Error (str "Cannot read properties of null") None.

(** ** UTF-8 and base64: [toBase64], [fromBase64] *)

Definition isHighSurrogate (c : N) : bool := ((0xD800 <=? c) && (c <? 0xDC00))%N.
Definition isLowSurrogate (c : N) : bool := ((0xDC00 <=? c) && (c <? 0xE000))%N.

(** [unescape(encodeURIComponent(s))]: the UTF-8 octets of [s], one code
    unit per octet; [encodeURIComponent] throws on a lone surrogate. *)
Fixpoint utf8Encode (s : jsstring) : result (list N) :=
  match s with
  | [] => Ok []
  | c :: r =>
      if (c <? 0x80)%N then cons c <$> utf8Encode r
      else if (c <? 0x800)%N then
        app [0xC0 + c / 64; 0x80 + c mod 64]%N <$> utf8Encode r
      else if isHighSurrogate c then
        match r with
        | d :: r' =>
            if isLowSurrogate d then
              let cp := (0x10000 + (c - 0xD800) * 1024 + (d - 0xDC00))%N in
              app [0xF0 + cp / 262144; 0x80 + (cp / 4096) mod 64;
                   0x80 + (cp / 64) mod 64; 0x80 + cp mod 64]%N
                <$> utf8Encode r'
            else Throw uriError
        | [] => Throw uriError
        end
      else if isLowSurrogate c then Throw uriError
      else app [0xE0 + c / 4096; 0x80 + (c / 64) mod 64; 0x80 + c mod 64]%N
             <$> utf8Encode r
  end.

Definition isCont (b : N) : bool := ((0x80 <=? b) && (b <? 0xC0))%N.

(** [decodeURIComponent(escape(b))]: the string whose UTF-8 octets are the
    code units of [b]; a sequence that is not well-formed UTF-8 throws. *)
Fixpoint utf8Decode (l : list N) : result jsstring :=
  match l with
  | [] => Ok []
  | b0 :: r =>
      if (b0 <? 0x80)%N then cons b0 <$> utf8Decode r
      else if (b0 <? 0xC2)%N then Throw uriError
      else if (b0 <? 0xE0)%N then
        match r with
        | b1 :: r1 =>
            if isCont b1 then
              cons ((b0 - 0xC0) * 64 + (b1 - 0x80))%N <$> utf8Decode r1
            else Throw uriError
        | _ => Throw uriError
        end
      else if (b0 <? 0xF0)%N then
        match r with
        | b1 :: b2 :: r2 =>
            let cp := ((b0 - 0xE0) * 4096 + (b1 - 0x80) * 64 + (b2 - 0x80))%N in
            if isCont b1 && isCont b2 && (0x800 <=? cp)%N
               && negb ((0xD800 <=? cp) && (cp <? 0xE000))%N
            then cons cp <$> utf8Decode r2
            else Throw uriError
        | _ => Throw uriError
        end
      else if (b0 <? 0xF5)%N then
        match r with
        | b1 :: b2 :: b3 :: r3 =>
            let cp := ((b0 - 0xF0) * 262144 + (b1 - 0x80) * 4096
                       + (b2 - 0x80) * 64 + (b3 - 0x80))%N in
            if isCont b1 && isCont b2 && isCont b3
               && (0x10000 <=? cp)%N && (cp <=? 0x10FFFF)%N
            then app [0xD800 + (cp - 0x10000) / 1024;
                      0xDC00 + (cp - 0x10000) mod 1024]%N <$> utf8Decode r3
            else Throw uriError
        | _ => Throw uriError
        end
      else Throw uriError
  end.

(** The base64 alphabet. *)
Definition b64char (x : N) : N :=
  if (x <? 26)%N then (65 + x)%N
  else if (x <? 52)%N then (71 + x)%N
  else if (x <? 62)%N then (x - 4)%N
  else if (x =? 62)%N then 43%N else 47%N.

Definition b64val (c : N) : option N :=
  if ((65 <=? c) && (c <=? 90))%N then Some (c - 65)%N
  else if ((97 <=? c) && (c <=? 122))%N then Some (c - 71)%N
  else if ((48 <=? c) && (c <=? 57))%N then Some (c + 4)%N
  else if (c =? 43)%N then Some 62%N
  else if (c =? 47)%N then Some 63%N
  else None.

(** Octets to 6-bit groups, the last group filled with zero bits. *)
Fixpoint sextets (l : list N) : list N :=
  match l with
  | a :: b :: c :: r =>
      [a / 4; (a mod 4) * 16 + b / 16; (b mod 16) * 4 + c / 64; c mod 64]%N
        ++ sextets r
  | [a; b] => [a / 4; (a mod 4) * 16 + b / 16; (b mod 16) * 4]%N
  | [a] => [a / 4; (a mod 4) * 16]%N
  | [] => []
  end.

Definition padding (l : list N) : jsstring :=
  repeat EQUALS ((3 - length l mod 3) mod 3).

(** [btoa(s)]: throws when a code unit is above 255. *)
Definition btoa (s : jsstring) : result jsstring :=
  if forallb (fun c => c <? 256)%N s
  then Ok (map b64char (sextets s) ++ padding s)
  else Throw invalidCharacterError.

Definition isAsciiWhitespace (c : N) : bool :=
  ((c =? 9) || (c =? 10) || (c =? 12) || (c =? 13) || (c =? 32))%N.

(** One or two trailing [=] are dropped. *)
Definition stripPadding (d : jsstring) : jsstring :=
  match rev d with
  | p :: q :: r =>
      if (p =? EQUALS)%N then
        if (q =? EQUALS)%N then rev r else rev (q :: r)
      else d
  | [p] => if (p =? EQUALS)%N then [] else d
  | [] => d
  end.

(** 6-bit groups back to octets; left-over bits are discarded. *)
Fixpoint octets (l : list N) : list N :=
  match l with
  | s0 :: s1 :: s2 :: s3 :: r =>
      [s0 * 4 + s1 / 16; (s1 mod 16) * 16 + s2 / 4; (s2 mod 4) * 64 + s3]%N
        ++ octets r
  | [s0; s1; s2] => [s0 * 4 + s1 / 16; (s1 mod 16) * 16 + s2 / 4]%N
  | [s0; s1] => [s0 * 4 + s1 / 16]%N
  | _ => []
  end.

(** [atob(s)], the forgiving base64 decoder of the HTML standard: ASCII
    whitespace is ignored, padding is optional, and a length of 1 modulo 4
    or a character outside the alphabet throws. *)
Definition atob (s : jsstring) : result jsstring :=
  let d := List.filter (fun c => negb (isAsciiWhitespace c)) s in
  let d := if (length d mod 4 =? 0)%nat then stripPadding d else d in
  if (length d mod 4 =? 1)%nat then Throw invalidCharacterError
  else match mapM b64val d with
       | Some vs => Ok (octets vs)
       | None => Throw invalidCharacterError
       end.

(** [const toBase64 = (s)=> btoa(unescape(encodeURIComponent(String(s))))] *)
Definition toBase64 (s : jsstring) : result jsstring :=
  utf8Encode s ≫= btoa.

(** [const fromBase64 = (b)=> { try { return
    decodeURIComponent(escape(atob(b))); } catch { return ""; } }] *)
Definition fromBase64 (b : jsstring) : jsstring :=
  match tryCatch (atob b ≫= utf8Decode) (fun _ => Ok []) with
  | Ok s => s
  | Throw _ => []
  end.

(** ** JSON values *)

(** What [JSON.parse] returns, and [undefined] for a property that is not
    there. *)
Inductive value :=
  | VUndefined
  | VNull
  | VBool (b : bool)
  | VNum (n : number)
  | VStr (s : jsstring)
  | VArr (l : list value)
  | VObj (m : gmap jsstring value).

(** [ToBoolean]. *)
Definition truthy (v : value) : bool :=
  match v with
  | VUndefined | VNull => false
  | VBool b => b
  | VNum n => numberTruthy n
  | VStr s => negb (bool_decide (s = []))
  | VArr _ | VObj _ => true
  end.

(** [typeof v === 'object'] for a truthy [v]. *)
Definition isObject (v : value) : bool :=
  match v with
  | VArr _ | VObj _ => true
  | _ => false
  end.

Definition indexKey (i : nat) : jsstring := NumberToString (Z.of_nat i).

(** The own enumerable string-keyed properties of [v], as [Object.entries]
    lists them: the members of an object, the elements of an array and the
    code units of a string under their indices. *)
Definition ownProps (v : value) : gmap jsstring value :=
  match v with
  | VObj m => m
  | VArr l => list_to_map (imap (fun i x => (indexKey i, x)) l)
  | VStr s => list_to_map (imap (fun i c => (indexKey i, VStr [c])) s)
  | _ => ∅
  end.

(** [v === s] for a string [s]. *)
Definition isString (s : jsstring) (v : value) : bool :=
  match v with
  | VStr t => bool_decide (t = s)
  | _ => false
  end.

(** [v[k]] on a value that is not [null] or [undefined], for a key [k] that
    is neither an array index nor the name of a built-in property
    ([by_target], [updated_at], [sha], an emoji, ...). *)
Definition prop (v : value) (k : jsstring) : value :=
  match v with
  | VObj m => default VUndefined (m !! k)
  | _ => VUndefined
  end.

(** [v[k]] in general: reading a property of [null] or [undefined] throws a
    [TypeError]. *)
Definition getProp (v : value) (k : jsstring) : result value :=
  match v with
  | VUndefined | VNull => Throw typeError
  | _ => Ok (prop v k)
  end.

(** ** The record codec *)

Module Payload.
(** The argument of [buildContentVars]; [update] may be absent. *)
Record t := Make {
  team : jsstring;
  name : jsstring;
  session : jsstring;
  feeling : Z;
  productivity : Z;
  update : option jsstring;
  timestamp : jsstring
}.
End Payload.

(** [function buildContentVars({ team, name, session, feeling, productivity,
    update, timestamp })] *)
Definition buildContentVars (p : Payload.t) : result jsstring :=
  b64 ← toBase64 (default [] (Payload.update p));
  Ok (join [LF]
        [ str "TEAM=" ++ [DQUOTE] ++ Payload.team p ++ [DQUOTE];
          str "NAME=" ++ [DQUOTE] ++ Payload.name p ++ [DQUOTE];
          str "SESSION=" ++ [DQUOTE] ++ Payload.session p ++ [DQUOTE];
          str "FEELING=" ++ NumberToString (Payload.feeling p);
          str "PRODUCTIVITY=" ++ NumberToString (Payload.productivity p);
          str "UPDATED_AT=" ++ [DQUOTE] ++ Payload.timestamp p ++ [DQUOTE];
          str "UPDATE_B64=" ++ [DQUOTE] ++ b64 ++ [DQUOTE] ]
      ++ [LF]).

(** The embedded reaction state of a record, as far as the program reads
    it: the properties [updated_at] and [by_target] of the parsed object. *)
Record Reactions := { rx_updated_at : value; by_target : value }.

Definition noReactions : Reactions :=
  {| rx_updated_at := VNull; by_target := VObj ∅ |}.

(** The object [parseContentVars] fills and returns. *)
Record StatusRecord := {
  team : jsstring;
  name : jsstring;
  session : jsstring;
  feeling : option number;
  productivity : option number;
  update : jsstring;
  updated_at : jsstring;
  reactions : option Reactions
}.

Definition emptyRecord : StatusRecord :=
  {| team := []; name := []; session := []; feeling := None;
     productivity := None; update := []; updated_at := [];
     reactions := None |}.

Definition setTeam (v : jsstring) (o : StatusRecord) : StatusRecord :=
  {| team := v; name := name o; session := session o; feeling := feeling o;
     productivity := productivity o; update := update o;
     updated_at := updated_at o; reactions := reactions o |}.
Definition setName (v : jsstring) (o : StatusRecord) : StatusRecord :=
  {| team := team o; name := v; session := session o; feeling := feeling o;
     productivity := productivity o; update := update o;
     updated_at := updated_at o; reactions := reactions o |}.
Definition setSession (v : jsstring) (o : StatusRecord) : StatusRecord :=
  {| team := team o; name := name o; session := v; feeling := feeling o;
     productivity := productivity o; update := update o;
     updated_at := updated_at o; reactions := reactions o |}.
Definition setFeeling (v : option number) (o : StatusRecord) : StatusRecord :=
  {| team := team o; name := name o; session := session o; feeling := v;
     productivity := productivity o; update := update o;
     updated_at := updated_at o; reactions := reactions o |}.
Definition setProductivity (v : option number) (o : StatusRecord) : StatusRecord :=
  {| team := team o; name := name o; session := session o; feeling := feeling o;
     productivity := v; update := update o;
     updated_at := updated_at o; reactions := reactions o |}.
Definition setUpdate (v : jsstring) (o : StatusRecord) : StatusRecord :=
  {| team := team o; name := name o; session := session o; feeling := feeling o;
     productivity := productivity o; update := v;
     updated_at := updated_at o; reactions := reactions o |}.
Definition setUpdatedAt (v : jsstring) (o : StatusRecord) : StatusRecord :=
  {| team := team o; name := name o; session := session o; feeling := feeling o;
     productivity := productivity o; update := update o;
     updated_at := v; reactions := reactions o |}.
Definition setReactions (v : option Reactions) (o : StatusRecord) : StatusRecord :=
  {| team := team o; name := name o; session := session o; feeling := feeling o;
     productivity := productivity o; update := update o;
     updated_at := updated_at o; reactions := v |}.

(** [if ((val.startsWith('"') && val.endsWith('"')) || (val.startsWith("'")
    && val.endsWith("'"))) val = val.slice(1,-1);] *)
Definition unquote (val : jsstring) : jsstring :=
  if (startsWith [DQUOTE] val && endsWith [DQUOTE] val)
     || (startsWith [SQUOTE] val && endsWith [SQUOTE] val)
  then slice val 1 (Some (-1)%Z)
  else val.

(** The first lines of the loop body, from [const line = raw.trim()] to
    the unquoting of [val]: the key and the value of a line, if it has any. *)
Definition keyValue (raw : jsstring) : option (jsstring * jsstring) :=
  let line := trim raw in
  if bool_decide (line = []) || startsWith [HASH] line then None
  else match indexOf EQUALS line with
       | None => None
       | Some eq =>
           let key := toUpperCase (trim (slice line 0 (Some (Z.of_nat eq)))) in
           let val := unquote (trim (slice line (Z.of_nat eq + 1) None)) in
           Some (key, val)
       end.

Section Codec.

(** [JSON.parse] of the platform; a [SyntaxError] is a [Throw]. *)
Variable JSON_parse : jsstring -> result value.

(** The [REACTIONS_B64] branch:
    [try { const obj = JSON.parse(fromBase64(val)||'{}');
           if (obj && typeof obj === 'object') out.reactions = obj; }
     catch {}] *)
Definition readReactions (val : jsstring) (out : StatusRecord)
  : result StatusRecord :=
  tryCatch
    (let text := fromBase64 val in
     obj ← JSON_parse (if bool_decide (text = []) then str "{}" else text);
     if truthy obj && isObject obj then
       Ok (setReactions
             (Some {| rx_updated_at := prop obj (str "updated_at");
                      by_target := prop obj (str "by_target") |}) out)
     else Ok out)
    (fun _ => Ok out).

(** The chain of [if (key === ...)] of the loop body. *)
Definition assign (key val : jsstring) (out : StatusRecord) : result StatusRecord :=
  if jsstring_eqb key (str "TEAM") then Ok (setTeam val out)
  else if jsstring_eqb key (str "NAME") then Ok (setName val out)
  else if jsstring_eqb key (str "SESSION") then Ok (setSession val out)
  else if jsstring_eqb key (str "FEELING")
    then Ok (setFeeling (orNull (Number val)) out)
  else if jsstring_eqb key (str "PRODUCTIVITY")
    then Ok (setProductivity (orNull (Number val)) out)
  else if jsstring_eqb key (str "UPDATED_AT") then Ok (setUpdatedAt val out)
  else if jsstring_eqb key (str "UPDATE_B64")
    then Ok (setUpdate (fromBase64 val) out)
  else if jsstring_eqb key (str "UPDATE") then Ok (setUpdate val out)
  else if jsstring_eqb key (str "REACTIONS_B64") then readReactions val out
  else Ok out.

(** The body of the loop over the lines: a line that is blank, a comment
    or without [=] is skipped ([continue]); the others are assigned. *)
Definition parseLine (out : StatusRecord) (raw : jsstring)
  : result StatusRecord :=
  match keyValue raw with
  | None => Ok out
  | Some (key, val) => assign key val out
  end.

Fixpoint parseLines (out : StatusRecord) (lines : list jsstring)
  : result StatusRecord :=
  match lines with
  | [] => Ok out
  | raw :: rest => out' ← parseLine out raw; parseLines out' rest
  end.

(** [if (!out.reactions) out.reactions = { updated_at:null, by_target:{} };
    if (!out.reactions.by_target) out.reactions.by_target = {};] *)
Definition defaultReactions (out : StatusRecord) : StatusRecord :=
  let r := default noReactions (reactions out) in
  let r := if truthy (by_target r) then r
           else {| rx_updated_at := rx_updated_at r; by_target := VObj ∅ |} in
  setReactions (Some r) out.

(** [function parseContentVars(text)] *)
Definition parseContentVars (text : jsstring) : result StatusRecord :=
  out ← parseLines emptyRecord (splitLines text);
  Ok (defaultReactions out).

End Codec.

(** ** The reaction aggregator *)

(** The three emoji the program counts, as the strings that key the flags:
    thumbs up, check mark, and heart with its variation selector. *)
Definition THUMBS : jsstring := [0xD83D; 0xDC4D]%N.
Definition CHECK : jsstring := [0x2705]%N.
Definition HEART : jsstring := [0x2764; 0xFE0F]%N.

(** An entry of the totals: one count per emoji. *)
Record Counts := { thumbs : N; check : N; heart : N }.

(** [function emptyReactions(){ return {"👍":0,"✅":0,"❤️":0}; }] *)
Definition emptyReactions : Counts := {| thumbs := 0; check := 0; heart := 0 |}.

(** [for] over a list with a body that may throw. *)
Fixpoint forEach {A S} (body : S -> A -> result S) (s : S) (l : list A)
  : result S :=
  match l with
  | [] => Ok s
  | x :: r => s' ← body s x; forEach body s' r
  end.

(** [if (flags['👍']) entry['👍'] = (entry['👍']||0) + 1;] and the same for
    the two other emoji. *)
Definition bump (flags : value) (entry : Counts) : result Counts :=
  t ← getProp flags THUMBS;
  let entry := if truthy t
               then {| thumbs := thumbs entry + 1; check := check entry;
                       heart := heart entry |}
               else entry in
  c ← getProp flags CHECK;
  let entry := if truthy c
               then {| thumbs := thumbs entry; check := check entry + 1;
                       heart := heart entry |}
               else entry in
  h ← getProp flags HEART;
  let entry := if truthy h
               then {| thumbs := thumbs entry; check := check entry;
                       heart := heart entry + 1 |}
               else entry in
  Ok entry.

(** The body of the inner loop, for one [[base, flags]] of
    [Object.entries(byTarget)]. *)
Definition addEntry (totals : gmap jsstring Counts) (bf : jsstring * value)
  : result (gmap jsstring Counts) :=
  let entry := default emptyReactions (totals !! bf.1) in
  entry' ← bump bf.2 entry;
  Ok (<[bf.1 := entry']> totals).

(** [(u.reactions?.by_target) || {}] *)
Definition byTargetOf (u : StatusRecord) : value :=
  match reactions u with
  | Some r => if truthy (by_target r) then by_target r else VObj ∅
  | None => VObj ∅
  end.

(** The body of the outer loop, for one record [u]. *)
Definition addRecord (totals : gmap jsstring Counts) (u : StatusRecord)
  : result (gmap jsstring Counts) :=
  forEach addEntry totals (map_to_list (ownProps (byTargetOf u))).


(** [state.reactionTotals.get(base) || emptyReactions()], how the totals
    are read. *)
Definition totalsOf (totals : gmap jsstring Counts) (base : jsstring) : Counts :=
  default emptyReactions (totals !! base).

(** The flags record [u] holds for the target [base], if any. *)
Definition flagsFor (u : StatusRecord) (base : jsstring) : option value :=
  ownProps (byTargetOf u) !! base.


(** ** Network calls *)

Inductive method := GET | PUT | DELETE.

(** The JSON body of a write: [{ message, content, branch, committer, sha? }]. *)
Record body := {
  b_message : jsstring;
  b_content : jsstring;
  b_branch : jsstring;
  b_sha : option value
}.

(** What [ghFetch] sends: method, path under [https://api.github.com], the
    [If-None-Match] header if any, and the body if any. *)
Record request := {
  q_method : method;
  q_path : jsstring;
  q_etag : option jsstring;
  q_body : option body
}.

(** What comes back: [res.status], [res.statusText], the [ETag] header,
    [await res.text()] and [await res.json()]. *)
Record response := {
  r_status : N;
  r_statusText : jsstring;
  r_etag : option jsstring;
  r_text : jsstring;
  r_json : result value
}.

(** [res.ok] *)
Definition r_ok (res : response) : bool :=
  ((200 <=? r_status res) && (r_status res <=? 299))%N.

(** A computation that talks to the store: it ends with a value, or sends a
    request and goes on with the answer, which is a response or the
    rejection of [fetch]. *)
Inductive io (R : Type) :=
  | Ret (r : R)
  | Call (q : request) (k : result response -> io R).
Arguments Ret {R} r.
Arguments Call {R} q k.

Fixpoint io_bind {A B} (f : A -> io B) (m : io A) : io B :=
  match m with
  | Ret a => f a
  | Call q k => Call q (fun a => io_bind f (k a))
  end.

(** Running a computation against the answers of the store, in order: the
    requests sent and, if the answers sufficed, the outcome. *)
Fixpoint run {R} (m : io R) (answers : list (result response))
  : list request * option R :=
  match m with
  | Ret r => ([], Some r)
  | Call q k =>
      match answers with
      | [] => ([q], None)
      | a :: rest => let '(t, o) := run (k a) rest in (q :: t, o)
      end
  end.

(** ** Runtime state *)

(** An entry of [state.cache.files]: [{ etag, text, sha }]. *)
Record FileEntry := { fe_etag : option jsstring; fe_text : jsstring; fe_sha : value }.

(** An entry of [state.cache.dir]: [{ etag, data }]. *)
Record DirEntry := { de_etag : option jsstring; de_data : value }.

(** The speaker queue: [{ spoken, speakingNow, readyOrder }]. *)
Record SpeakerState := {
  spoken : list jsstring;
  speakingNow : option jsstring;
  readyOrder : list jsstring
}.

(** The fields of [let state = { ... }] the engine works on.  A pending
    timer is kept as the delay it was set with; [speakerStore] is the
    snapshot kept in [localStorage] for the current session key. *)
Record State := {
  nextPollTimeout : option Z;
  isSyncing : bool;
  backoffMs : Z;
  cache_dir : gmap jsstring DirEntry;
  cache_files : gmap jsstring FileEntry;
  currentUpdates : list StatusRecord;
  myReactions : Reactions;
  speaker : option SpeakerState;
  speakerStore : option SpeakerState
}.

Definition setNextPollTimeout (v : option Z) (s : State) : State :=
  {| nextPollTimeout := v; isSyncing := isSyncing s; backoffMs := backoffMs s;
     cache_dir := cache_dir s; cache_files := cache_files s;
     currentUpdates := currentUpdates s; myReactions := myReactions s;
     speaker := speaker s; speakerStore := speakerStore s |}.
Definition setIsSyncing (v : bool) (s : State) : State :=
  {| nextPollTimeout := nextPollTimeout s; isSyncing := v; backoffMs := backoffMs s;
     cache_dir := cache_dir s; cache_files := cache_files s;
     currentUpdates := currentUpdates s; myReactions := myReactions s;
     speaker := speaker s; speakerStore := speakerStore s |}.
Definition setBackoffMs (v : Z) (s : State) : State :=
  {| nextPollTimeout := nextPollTimeout s; isSyncing := isSyncing s; backoffMs := v;
     cache_dir := cache_dir s; cache_files := cache_files s;
     currentUpdates := currentUpdates s; myReactions := myReactions s;
     speaker := speaker s; speakerStore := speakerStore s |}.
Definition setCacheDir (v : gmap jsstring DirEntry) (s : State) : State :=
  {| nextPollTimeout := nextPollTimeout s; isSyncing := isSyncing s;
     backoffMs := backoffMs s; cache_dir := v; cache_files := cache_files s;
     currentUpdates := currentUpdates s; myReactions := myReactions s;
     speaker := speaker s; speakerStore := speakerStore s |}.
Definition setCacheFiles (v : gmap jsstring FileEntry) (s : State) : State :=
  {| nextPollTimeout := nextPollTimeout s; isSyncing := isSyncing s;
     backoffMs := backoffMs s; cache_dir := cache_dir s; cache_files := v;
     currentUpdates := currentUpdates s; myReactions := myReactions s;
     speaker := speaker s; speakerStore := speakerStore s |}.
Definition setSpeaker (v : option SpeakerState) (s : State) : State :=
  {| nextPollTimeout := nextPollTimeout s; isSyncing := isSyncing s;
     backoffMs := backoffMs s; cache_dir := cache_dir s;
     cache_files := cache_files s; currentUpdates := currentUpdates s;
     myReactions := myReactions s; speaker := v; speakerStore := speakerStore s |}.
Definition setSpeakerStore (v : option SpeakerState) (s : State) : State :=
  {| nextPollTimeout := nextPollTimeout s; isSyncing := isSyncing s;
     backoffMs := backoffMs s; cache_dir := cache_dir s;
     cache_files := cache_files s; currentUpdates := currentUpdates s;
     myReactions := myReactions s; speaker := speaker s; speakerStore := v |}.

(** [getConfig()]: the defaults overridden from [localStorage].  The poll
    interval is [Number(...)] of a stored string: [None] stands for [NaN]. *)
Record Config := {
  TEAM_NAME : jsstring;
  OWNER : jsstring;
  REPO : jsstring;
  BRANCH : jsstring;
  DIR : jsstring;
  POLL_INTERVAL_MS : option Z
}.

(** ** Asynchronous functions *)

(** An [async] function over the runtime state: given the state it talks to
    the store and ends with the new state and a value or a thrown error. *)
Definition prog (A : Type) : Type := State -> io (State * result A).

#[global] Instance prog_ret : MRet prog := fun A a st => Ret (st, Ok a).
#[global] Instance prog_bind : MBind prog := fun A B f m st =>
  io_bind (fun '(st', r) =>
             match r with
             | Ok a => f a st'
             | Throw e => Ret (st', Throw e)
             end) (m st).

Definition throw {A} (e : error) : prog A := fun st => Ret (st, Throw e).

(** A synchronous step that may throw. *)
Definition lift {A} (r : result A) : prog A := fun st => Ret (st, r).

Definition getState : prog State := fun st => Ret (st, Ok st).
Definition modify (f : State -> State) : prog () := fun st => Ret (f st, Ok ()).

(** [try { m } catch (e) { h e }] around asynchronous code. *)
Definition tryCatchP {A} (m : prog A) (h : error -> prog A) : prog A := fun st =>
  io_bind (fun '(st', r) =>
             match r with
             | Ok a => Ret (st', Ok a)
             | Throw e => h e st'
             end) (m st).

(** ** The GitHub contents client *)

Definition isUnreserved (c : N) : bool :=
  ((65 <=? c) && (c <=? 90) || (97 <=? c) && (c <=? 122) || isDigit c
   || (c =? 45) || (c =? 95) || (c =? 46) || (c =? 33) || (c =? 126)
   || (c =? 42) || (c =? 39) || (c =? 40) || (c =? 41))%N.

Definition hexDigit (n : N) : N := if (n <? 10)%N then (48 + n)%N else (55 + n)%N.

Definition pctEncode (b : N) : jsstring :=
  if isUnreserved b then [b] else [37; hexDigit (b / 16); hexDigit (b mod 16)]%N.

(** [encodeURIComponent(s)] *)
Definition encodeURIComponent (s : jsstring) : result jsstring :=
  bytes ← utf8Encode s; Ok (concat (map pctEncode bytes)).

(** [.replace(/%2F/g,'/')] *)
Fixpoint unescapeSlashes (s : jsstring) : jsstring :=
  match s with
  | c :: r =>
      match r with
      | d :: e :: r' =>
          if ((c =? 37) && (d =? 50) && (e =? 70))%N then 47%N :: unescapeSlashes r'
          else c :: unescapeSlashes r
      | _ => c :: unescapeSlashes r
      end
  | [] => []
  end.

(** [.replace(/^\/+|\/+$/g, "")] *)
Fixpoint dropSlashes (s : jsstring) : jsstring :=
  match s with
  | c :: r => if (c =? 47)%N then dropSlashes r else s
  | [] => []
  end.
Definition trimSlashes (s : jsstring) : jsstring :=
  rev (dropSlashes (rev (dropSlashes s))).

(** [function fileNameFor(team, person, session)] *)
Definition fileNameFor (team person session : jsstring) : jsstring :=
  trim (team ++ str " -- " ++ person ++ str " -- " ++ session).

(** [function filePathFor(team, person, session, cfg)] *)
Definition filePathFor (team person session : jsstring) (cfg : Config) : jsstring :=
  let fn := fileNameFor team person session ++ str ".txt" in
  let dir := if bool_decide (DIR cfg = []) then []
             else trimSlashes (DIR cfg) ++ str "/" in
  dir ++ fn.

(** [`/repos/${cfg.OWNER}/${cfg.REPO}/contents/${enc}`] with
    [enc = encodeURIComponent(filePath).replace(/%2F/g,'/')]. *)
Definition contentsPath (cfg : Config) (filePath : jsstring) : result jsstring :=
  enc ← encodeURIComponent filePath;
  Ok (str "/repos/" ++ OWNER cfg ++ str "/" ++ REPO cfg ++ str "/contents/"
      ++ unescapeSlashes enc).

(** The same with [?ref=${encodeURIComponent(cfg.BRANCH)}]. *)
Definition contentsPathRef (cfg : Config) (filePath : jsstring) : result jsstring :=
  path ← contentsPath cfg filePath;
  ref ← encodeURIComponent (BRANCH cfg);
  Ok (path ++ str "?ref=" ++ ref).

(** [async function ghFetch(path, { method='GET', body, etag }={})]: the
    [If-None-Match] header is sent for a non-empty [etag] only. *)
Definition ghFetch (path : jsstring) (m : method) (b : option body)
    (etag : option jsstring) : prog response := fun st =>
  Call {| q_method := m; q_path := path;
          q_etag := match etag with
                    | Some t => if bool_decide (t = []) then None else Some t
                    | None => None
                    end;
          q_body := b |}
       (fun a => Ret (st, a)).

(** [`${res.status} ${res.statusText}: ${await res.text()}`] *)
Definition httpMessage (res : response) : jsstring :=
  NumberToString (Z.of_N (r_status res)) ++ str " " ++ r_statusText res
  ++ str ": " ++ r_text res.

(** [{ sha: json.sha, size: json.size, path: json.path }] *)
Record Meta := { sha : value; size : value; path : value }.

(** [async function ghGetContentsMeta(cfg, filePath)]: [None] is [null],
    the file is absent. *)
Definition ghGetContentsMeta (cfg : Config) (filePath : jsstring)
  : prog (option Meta) :=
  path ← lift (contentsPathRef cfg filePath);
  res ← ghFetch path GET None None;
  if (r_status res =? 404)%N then mret None
  else if negb (r_ok res) then
    throw (Error (httpMessage res) (Some (r_status res)))
  else
    json ← lift (r_json res);
    s ← lift (getProp json (str "sha"));
    z ← lift (getProp json (str "size"));
    p ← lift (getProp json (str "path"));
    mret (Some {| sha := s; size := z; path := p |}).

(** [meta?.sha], kept when truthy: [if (sha) body.sha = sha]. *)
Definition shaOf (meta : option Meta) : option value :=
  match meta with
  | Some m => if truthy (sha m) then Some (sha m) else None
  | None => None
  end.

(** Case-insensitive [includes], for a regular expression with the [i]
    flag and an ASCII pattern. *)
Definition includesCI (p s : jsstring) : bool :=
  includes (map lowerUnit p) (map lowerUnit s).

(** The test of the [catch] in [writeFileOverwriteStrict]:
    [e.status === 422 || /422/.test(msg)
     || /\"sha\" wasn't supplied|sha/i.test(msg)]. *)
Definition shaRequired (e : error) : bool :=
  bool_decide (status e = Some 422%N)
  || includes (str "422") (message e)
  || includesCI ([DQUOTE] ++ str "sha" ++ [DQUOTE] ++ str " wasn't supplied")
       (message e)
  || includesCI (str "sha") (message e).

(** [const put = async (sha)=>{ ... }] inside [writeFileOverwriteStrict]. *)
Definition put (cfg : Config) (enc contentString commitMessage : jsstring)
    (sha : option value) : prog value :=
  content ← lift (toBase64 contentString);
  let b := {| b_message := commitMessage; b_content := content;
              b_branch := BRANCH cfg; b_sha := sha |} in
  let path := str "/repos/" ++ OWNER cfg ++ str "/" ++ REPO cfg
              ++ str "/contents/" ++ enc in
  res ← ghFetch path PUT (Some b) None;
  if ((r_status res =? 200) || (r_status res =? 201))%N then lift (r_json res)
  else throw (Error (httpMessage res) (Some (r_status res))).

(** [async function writeFileOverwriteStrict(cfg, filePath, contentString,
    commitMessage)] *)
Definition writeFileOverwriteStrict (cfg : Config)
    (filePath contentString commitMessage : jsstring) : prog value :=
  enc ← lift (unescapeSlashes <$> encodeURIComponent filePath);
  let put := put cfg enc contentString commitMessage in
  meta ← ghGetContentsMeta cfg filePath;
  tryCatchP (put (shaOf meta))
    (fun e =>
       if shaRequired e then
         meta ← ghGetContentsMeta cfg filePath;
         match shaOf meta with
         | Some s => put (Some s)
         | None => put None
         end
       else if bool_decide (status e = Some 409%N) then
         meta ← ghGetContentsMeta cfg filePath;
         match shaOf meta with
         | Some s => put (Some s)
         | None => throw e
         end
       else throw e).

(** [async function ghGetJsonWithEtag(path, cacheObj)], on the directory
    cache [state.cache.dir], the only [cacheObj] it is called with.  The
    result is [{ notModified, etag, data }]. *)
Definition ghGetJsonWithEtag (path : jsstring)
  : prog (bool * option jsstring * value) :=
  st ← getState;
  let prev := cache_dir st !! path in
  res ← ghFetch path GET None (prev ≫= de_etag);
  if (r_status res =? 304)%N then
    mret (true, prev ≫= de_etag, default VUndefined (de_data <$> prev))
  else if negb (r_ok res) then throw (Error (httpMessage res) None)
  else
    let etag := r_etag res in
    data ← lift (r_json res);
    modify (fun st => setCacheDir
                        (<[path := {| de_etag := etag; de_data := data |}]>
                           (cache_dir st)) st);;
    mret (false, etag, data).

(** [json.content.replace(/\n/g,'')] *)
Definition removeLF (s : jsstring) : jsstring :=
  List.filter (fun c => negb (c =? LF)%N) s.

(** [if (json?.content && json.encoding === 'base64')
      text = fromBase64(json.content.replace(/\n/g,''));] with [text = '']
    before it. *)
Definition contentText (json : value) : result jsstring :=
  let content := match json with
                 | VUndefined | VNull => VUndefined
                 | _ => prop json (str "content")
                 end in
  if truthy content
     && isString (str "base64") (prop json (str "encoding"))
  then match content with
       | VStr c => Ok (fromBase64 (removeLF c))
       | _ => Throw typeError
       end
  else Ok [].

(** [async function readFileContent(cfg, fileItem)] for a [fileItem] with
    the path [filePath]. *)
Definition readFileContent (cfg : Config) (filePath : jsstring) : prog jsstring :=
  path ← lift (contentsPathRef cfg filePath);
  st ← getState;
  let prev := cache_files st !! path in
  res ← ghFetch path GET None (prev ≫= fe_etag);
  if (r_status res =? 304)%N then mret (default [] (fe_text <$> prev))
  else if negb (r_ok res) then throw (Error (httpMessage res) None)
  else
    let etag := r_etag res in
    json ← lift (r_json res);
    text ← lift (contentText json);
    s ← lift (getProp json (str "sha"));
    modify (fun st => setCacheFiles
                        (<[path := {| fe_etag := etag; fe_text := text;
                                      fe_sha := s |}]> (cache_files st)) st);;
    mret text.

(** ** Writing the reactions into the writer's own file *)

(** The reads of [localStorage] and of the page that [myBaseForCurrent],
    [ensureMyFileExists] and [upsertMyReactions] start with, and the clock:
    [(localStorage.getItem(LS_KEYS.NAME) || $('#nameInput')?.value || '')],
    [($('#sessionFilter')?.value || '')], [defaultSession()], [nowIso()]. *)
Record Page := {
  nameField : jsstring;
  sessionFilter : jsstring;
  today : jsstring;
  nowIso : jsstring
}.

Definition pageName (pg : Page) : jsstring := trim (nameField pg).

(** [($('#sessionFilter')?.value || '').trim() || defaultSession()] *)
Definition pageSession (pg : Page) : jsstring :=
  let s := trim (sessionFilter pg) in
  if bool_decide (s = []) then today pg else s.

(** [function myBaseForCurrent()] *)
Definition myBaseForCurrent (cfg : Config) (pg : Page) : option jsstring :=
  if bool_decide (pageName pg = []) then None
  else Some (fileNameFor (TEAM_NAME cfg) (pageName pg) (pageSession pg)).

(** The em dash of the commit messages. *)
Definition EMDASH : N := 0x2014.

(** [(l) => /^\s*REACTIONS_B64\s*=/.test(l)] *)
Definition isReactionsLine (l : jsstring) : bool :=
  let l1 := trimStart l in
  startsWith (str "REACTIONS_B64") l1
  && startsWith [EQUALS] (trimStart (drop 13 l1)).

(** [lines.findIndex(p)]; [None] is [-1]. *)
Fixpoint findIndex {A} (p : A -> bool) (l : list A) : option nat :=
  match l with
  | [] => None
  | x :: r => if p x then Some 0%nat else S <$> findIndex p r
  end.

(** [if (idx >= 0) lines[idx] = line; else lines.push(line);] *)
Definition setOrPush (lines : list jsstring) (line : jsstring) : list jsstring :=
  match findIndex isReactionsLine lines with
  | Some idx => <[idx := line]> lines
  | None => lines ++ [line]
  end.

(** The new body of the file, from the text read and the encoded payload. *)
Definition withReactions (text encoded : jsstring) : jsstring :=
  join [LF]
    (setOrPush (splitLines text)
       (str "REACTIONS_B64=" ++ [DQUOTE] ++ encoded ++ [DQUOTE])).

Section Reactions.

Variable JSON_parse : jsstring -> result value.
Variable JSON_stringify : value -> jsstring.

(** [function clone(obj){ return JSON.parse(JSON.stringify(obj||{})); }] *)
Definition clone (obj : value) : result value :=
  JSON_parse (JSON_stringify (if truthy obj then obj else VObj ∅)).

(** [async function ensureMyFileExists(cfg)] *)
Definition ensureMyFileExists (cfg : Config) (pg : Page) : prog jsstring :=
  let name := pageName pg in
  if bool_decide (name = []) then
    throw (Error (str "Please enter your name first.") None)
  else
    let session := pageSession pg in
    let path := filePathFor (TEAM_NAME cfg) name session cfg in
    meta ← ghGetContentsMeta cfg path;
    match meta with
    | Some _ => mret path
    | None =>
        let payload := Payload.Make (TEAM_NAME cfg) name session 0 0
                         (Some []) (nowIso pg) in
        content ← lift (buildContentVars payload);
        writeFileOverwriteStrict cfg path content
          (str "Round Table: init file for " ++ name ++ str " ("
           ++ TEAM_NAME cfg ++ [SPACE; EMDASH; SPACE] ++ session ++ str ")");;
        mret path
    end.

(** [async function upsertMyReactions(cfg)]; [defaultTeam] is
    [CONFIG_DEFAULTS.TEAM_NAME], which the commit message names.  The
    [alert] of the first line is left out. *)
Definition upsertMyReactions (defaultTeam : jsstring) (cfg : Config)
    (pg : Page) : prog () :=
  match myBaseForCurrent cfg pg with
  | None => mret ()
  | Some base =>
      let name := pageName pg in
      let session := pageSession pg in
      path ← ensureMyFileExists cfg pg;
      text ← tryCatchP (readFileContent cfg path) (fun _ => mret []);
      st ← getState;
      by_target ← lift (clone (by_target (myReactions st)));
      let payload := VObj (<[str "updated_at" := VStr (nowIso pg)]>
                             (<[str "by_target" := by_target]> ∅)) in
      encoded ← lift (toBase64 (JSON_stringify payload));
      let newText := withReactions text encoded in
      writeFileOverwriteStrict cfg path newText
        (str "Round Table: reactions update for " ++ name ++ str " ("
         ++ defaultTeam ++ [SPACE; EMDASH; SPACE] ++ session ++ str ")");;
      mret ()
  end.

End Reactions.

(** ** The sync engine *)

Definition setCurrentUpdates (v : list StatusRecord) (s : State) : State :=
  {| nextPollTimeout := nextPollTimeout s; isSyncing := isSyncing s;
     backoffMs := backoffMs s; cache_dir := cache_dir s;
     cache_files := cache_files s; currentUpdates := v;
     myReactions := myReactions s; speaker := speaker s;
     speakerStore := speakerStore s |}.

(** [\w] of a regular expression. *)
Definition isWordChar (c : N) : bool :=
  ((65 <=? c) && (c <=? 90) || (97 <=? c) && (c <=? 122) || isDigit c
   || (c =? 95))%N.

(** [/^p\b/] for a pattern [p] that ends with a word character. *)
Definition startsWithWord (p s : jsstring) : bool :=
  startsWith p s
  && match drop (length p) s with
     | c :: _ => negb (isWordChar c)
     | [] => true
     end.

(** [/^403\b|^429\b|rate limit/i.test(msg)] *)
Definition rateLimited (msg : jsstring) : bool :=
  startsWithWord (str "403") msg || startsWithWord (str "429") msg
  || includesCI (str "rate limit") msg.

(** [function scheduleNextPoll()]: [base] is
    [Math.max(2000, Number(cfg.POLL_INTERVAL_MS)||10000)]. *)
Definition pollBase (cfg : Config) : Z :=
  Z.max 2000 (match POLL_INTERVAL_MS cfg with
              | Some n => if (n =? 0)%Z then 10000 else n
              | None => 10000
              end)%Z.

Definition scheduleNextPoll (cfg : Config) (st : State) : State :=
  let wait := (pollBase cfg + backoffMs st)%Z in
  setNextPollTimeout (Some wait) st.

(** How the [try] block of [refreshBoard] ends: with the parsed records
    published, on the passphrase gate, or with a thrown error. *)
Inductive outcome :=
  | Updated (parsed : list StatusRecord)
  | Locked
  | Failed (e : error).


(** The backoff after a throttled cycle:
    [state.backoffMs ? Math.min(state.backoffMs*2, 60000) : 5000]. *)
Definition nextBackoff (b : Z) : Z :=
  if (b =? 0)%Z then 5000%Z else Z.min (b * 2) 60000.

(** The end of the [try] block, the [catch] and the [finally] of
    [refreshBoard]. *)
Definition refreshBoard_end (cfg : Config) (o : outcome) (st : State) : State :=
  let st :=
    match o with
    | Updated parsed => setBackoffMs 0 (setCurrentUpdates parsed st)
    | Locked => setBackoffMs 0 (setCurrentUpdates [] st)
    | Failed e =>
        if rateLimited (message e)
        then setBackoffMs (nextBackoff (backoffMs st)) st
        else st
    end in
  scheduleNextPoll cfg (setIsSyncing false st).









(** [let state = { ... }] as the script sets it up. *)
Definition initialState : State :=
  {| nextPollTimeout := None; isSyncing := false; backoffMs := 0;
     cache_dir := ∅; cache_files := ∅; currentUpdates := [];
     myReactions := noReactions; speaker := None; speakerStore := None |}.

(** [CONFIG_DEFAULTS], the token apart. *)
Definition CONFIG_DEFAULTS : Config :=
  {| TEAM_NAME := str "GNT SLT"; OWNER := str "sanders1973";
     REPO := str "RoundTable"; BRANCH := str "main"; DIR := str "roundtable";
     POLL_INTERVAL_MS := Some 10000%Z |}.


(** The runtime state after a run of cycles that each ran to its end. *)
Definition cycles (cfg : Config) (os : list outcome) (st : State) : State :=
  fold_left (fun st o => refreshBoard_end cfg o st) os st.

(** ** The speaker queue *)

Definition emptySpeaker : SpeakerState :=
  {| spoken := []; speakingNow := None; readyOrder := [] |}.

(** [x || null] on a name. *)
Definition nameOrNull (x : option jsstring) : option jsstring :=
  match x with
  | Some n => if bool_decide (n = []) then None else Some n
  | None => None
  end.

(** [function loadSpeakerState()] *)
Definition loadSpeakerState (st : State) : SpeakerState :=
  match speakerStore st with
  | None => emptySpeaker
  | Some s => {| spoken := spoken s; speakingNow := nameOrNull (speakingNow s);
                 readyOrder := readyOrder s |}
  end.

(** [state.speaker || loadSpeakerState()] *)
Definition currentSpeaker (st : State) : SpeakerState :=
  match speaker st with
  | Some s => s
  | None => loadSpeakerState st
  end.

(** [function saveSpeakerState(s)] *)
Definition saveSpeakerState (s : SpeakerState) (st : State) : State :=
  setSpeakerStore (Some s) (setSpeaker (Some s) st).

(** [[arr[i],arr[j]]=[arr[j],arr[i]]] *)
Definition swap {A} (i j : nat) (arr : list A) : list A :=
  match arr !! i, arr !! j with
  | Some x, Some y => <[i := y]> (<[j := x]> arr)
  | _, _ => arr
  end.

(** [function shuffle(arr)]: for [i] from [arr.length-1] down to [1], swap
    [arr[i]] with [arr[j]], [j = Math.floor(Math.random()*(i+1))].  The
    draws of [Math.random] are given as numbers, reduced into [0..i]. *)
Fixpoint shuffleFrom {A} (n : nat) (draws : list nat) (arr : list A) : list A :=
  match n with
  | O => arr
  | S i =>
      let j := (hd 0%nat draws mod (S n))%nat in
      shuffleFrom i (tl draws) (swap n j arr)
  end.

Definition shuffle {A} (draws : list nat) (arr : list A) : list A :=
  shuffleFrom (length arr - 1) draws arr.

(** [updates.map(u=>u.name).filter(n=> !spokenSet.has(n))] *)
Definition readyNames (s : SpeakerState) (updates : list StatusRecord)
  : list jsstring :=
  List.filter (fun n => negb (bool_decide (n ∈ spoken s))) (map name updates).

(** [function nextSpeaker()] *)
Definition nextSpeaker (draws : list nat) (st : State) : State :=
  let updates := currentUpdates st in
  match updates with
  | [] => st
  | _ :: _ =>
      let s := currentSpeaker st in
      let ready := readyNames s updates in
      match ready with
      | [] => saveSpeakerState {| spoken := spoken s; speakingNow := None;
                                  readyOrder := [] |} st
      | _ :: _ =>
          let order := shuffle draws ready in
          saveSpeakerState {| spoken := spoken s;
                              speakingNow := nameOrNull (head order);
                              readyOrder := order |} st
      end
  end.

(** [function speakerFinished()] *)
Definition speakerFinished (st : State) : State :=
  let s := currentSpeaker st in
  match nameOrNull (speakingNow s) with
  | None => st
  | Some n =>
      let spoken' := if bool_decide (n ∈ spoken s) then spoken s
                     else spoken s ++ [n] in
      saveSpeakerState
        {| spoken := spoken';
           speakingNow := None;
           readyOrder := List.filter (fun m => negb (bool_decide (m = n)))
                           (readyOrder s) |} st
  end.

(** ** Requests and answers, as the client writes and reads them *)

(** The request of a conditional read ([readFileContent],
    [ghGetJsonWithEtag]): the cached version tag, when there is a
    non-empty one, goes into [If-None-Match]. *)
Definition readRequest (path : jsstring) (etag : option jsstring) : request :=
  {| q_method := GET; q_path := path;
     q_etag := match etag with
               | Some t => if bool_decide (t = []) then None else Some t
               | None => None
               end;
     q_body := None |}.

(** The request of [ghGetContentsMeta]. *)
Definition metaRequest (path : jsstring) : request :=
  {| q_method := GET; q_path := path; q_etag := None; q_body := None |}.

(** The request of [put]: the content in base64 and the version, if any. *)
Definition putRequest (cfg : Config) (enc message content : jsstring)
    (sha : option value) : request :=
  {| q_method := PUT;
     q_path := str "/repos/" ++ OWNER cfg ++ str "/" ++ REPO cfg
               ++ str "/contents/" ++ enc;
     q_etag := None;
     q_body := Some {| b_message := message; b_content := content;
                       b_branch := BRANCH cfg; b_sha := sha |} |}.

(** What [ghGetContentsMeta] makes of the answer to its request. *)
Definition metaOf (a : result response) : result (option Meta) :=
  res ← a;
  if (r_status res =? 404)%N then Ok None
  else if negb (r_ok res) then Throw (Error (httpMessage res) (Some (r_status res)))
  else
    json ← r_json res;
    s ← getProp json (str "sha");
    z ← getProp json (str "size");
    p ← getProp json (str "path");
    Ok (Some {| sha := s; size := z; path := p |}).

(** What [put] makes of the answer to its request. *)
Definition putResult (a : result response) : result value :=
  res ← a;
  if ((r_status res =? 200) || (r_status res =? 201))%N then r_json res
  else Throw (Error (httpMessage res) (Some (r_status res))).

Definition isPut (q : request) : bool :=
  match q_method q with PUT => true | _ => false end.

Definition isGet (q : request) : bool :=
  match q_method q with GET => true | _ => false end.

(** ** The codec, stated from the lines *)



Definition noLF (s : jsstring) : bool := forallb (fun c => negb (c =? LF)%N) s.

(** A well-formed UTF-16 string: code units of 16 bits, every surrogate
    in a pair. *)
Fixpoint wellFormed (s : jsstring) : bool :=
  match s with
  | [] => true
  | c :: r =>
      (c <? 65536)%N
      && (if isHighSurrogate c then
            match r with
            | d :: r' => isLowSurrogate d && (d <? 65536)%N && wellFormed r'
            | [] => false
            end
          else negb (isLowSurrogate c) && wellFormed r)
  end.

(** A [JSON.parse] that rejects every text, to run bodies that hold none. *)
Definition noJSON (text : jsstring) : result value :=
  Throw (Error (str "Unexpected token") None).

(** ** Sample data *)

(** The file of writer Ann for the session of 2026-01-01, under the
    default configuration. *)
Definition annFile : jsstring :=
  filePathFor (TEAM_NAME CONFIG_DEFAULTS) (str "Ann") (str "2026-01-01")
    CONFIG_DEFAULTS.

Definition annPage : Page :=
  {| nameField := str "Ann"; sessionFilter := str "2026-01-01";
     today := str "2026-01-02"; nowIso := str "2026-01-01T09:00:00.000Z" |}.

(** Answers of the store: the metadata of a file at version [v]; a
    response of the given status with no body to speak of. *)
Definition found (v : jsstring) : result response :=
  Ok {| r_status := 200; r_statusText := str "OK"; r_etag := None;
        r_text := []; r_json := Ok (VObj {[ str "sha" := VStr v ]}) |}.

Definition answer (code : N) (text : jsstring) : result response :=
  Ok {| r_status := code; r_statusText := text; r_etag := None;
        r_text := []; r_json := Ok (VObj ∅) |}.

(** The cache key of Ann's file, and a runtime state that has it cached. *)
Definition annKey : jsstring :=
  str "/repos/sanders1973/RoundTable/contents/roundtable/GNT%20SLT%20--%20Ann%20--%202026-01-01.txt?ref=main".


(** ** The totals, stated from the records *)

Definition isNullish (v : value) : bool :=
  match v with
  | VUndefined | VNull => true
  | _ => false
  end.

(** Every target of [u] has flags one can read a property of. *)
Definition flagsReadable (u : StatusRecord) : Prop :=
  forall base flags, flagsFor u base = Some flags -> isNullish flags = false.


(** The entry after the three conditional increments. *)
Definition bumped (flags : value) (entry : Counts) : Counts :=
  {| thumbs := thumbs entry + (if truthy (prop flags THUMBS) then 1 else 0);
     check := check entry + (if truthy (prop flags CHECK) then 1 else 0);
     heart := heart entry + (if truthy (prop flags HEART) then 1 else 0) |}.




(** A record whose reactions name one target, with [null] for its flags:
    what [parseContentVars] returns for a body whose [REACTIONS_B64] holds
    the JSON text of an object with [by_target] set to an object with the
    member [T] set to [null]. *)
Definition nullFlagsRecord : StatusRecord :=
  setReactions
    (Some {| rx_updated_at := VUndefined;
             by_target := VObj {[ str "T" := VNull ]} |})
    emptyRecord.

(** The JSON text of that object, and a [JSON.parse] that reads this one
    text and rejects every other. *)
Definition nullFlagsText : jsstring :=
  str "{" ++ [DQUOTE] ++ str "by_target" ++ [DQUOTE] ++ str ":{"
  ++ [DQUOTE] ++ str "T" ++ [DQUOTE] ++ str ":null}}".

Definition parseNullFlags (text : jsstring) : result value :=
  if jsstring_eqb text nullFlagsText
  then Ok (VObj {[ str "by_target" := VObj {[ str "T" := VNull ]} ]})
  else Throw (Error (str "Unexpected token") None).


(** Stand-ins for [JSON.parse] and [JSON.stringify] in sample runs, where
    the reactions held are those of the empty state: the text [{}] stands
    for the JSON text of what is written, and parses to an empty object. *)
Definition sampleParse (text : jsstring) : result value := Ok (VObj ∅).
Definition sampleStringify (v : value) : jsstring := str "{}".

(** The bodies written by a run: the decoded [content] of its [PUT]
    requests, in order. *)
Definition writtenBodies (t : list request) : list jsstring :=
  omap (fun q => match q_method q, q_body q with
                 | PUT, Some b => Some (fromBase64 (b_content b))
                 | _, _ => None
                 end) t.

(** A payload whose update text holds the field delimiter, a quote, a line
    break and an emoji; the payload [ensureMyFileExists] writes. *)
Definition annPayload : Payload.t :=
  Payload.Make (str "GNT SLT") (str "Ann") (str "2026-01-01") 7 8
    (Some (str "a=b " ++ [DQUOTE; LF; SQUOTE] ++ THUMBS))
    (str "2026-01-01T09:00:00.000Z").

Definition initPayload : Payload.t :=
  Payload.Make (str "GNT SLT") (str "Ann") (str "2026-01-01") 0 0 (Some [])
    (str "2026-01-01T09:00:00.000Z").

(** The answer to a read of a file with the body [text] at version [v]. *)
Definition fileAnswer (text v : jsstring) : result response :=
  Ok {| r_status := 200; r_statusText := str "OK";
        r_etag := Some (str "W/2"); r_text := [];
        r_json := Ok (VObj {[ str "content" :=
                                VStr (match toBase64 text with
                                      | Ok b => b
                                      | Throw _ => []
                                      end);
                              str "encoding" := VStr (str "base64");
                              str "sha" := VStr v ]}) |}.

(** A body with a reactions line between two other lines. *)
Definition annBody : jsstring :=
  str "TEAM=x" ++ [LF] ++ str "REACTIONS_B64=old" ++ [LF] ++ str "NAME=y".

(** * Properties *)

(** ** The sync engine: backoff, mutual exclusion, rescheduling *)


Lemma backoffMs_refreshBoard_end cfg o st :
  backoffMs (refreshBoard_end cfg o st) =
  match o with
  | Updated _ | Locked => 0%Z
  | Failed e => if rateLimited (message e) then nextBackoff (backoffMs st)
                else backoffMs st
  end.
Proof.
  destruct o as [parsed| |e]; simpl; try destruct (rateLimited (message e));
    reflexivity.
Qed.

Lemma nextPollTimeout_refreshBoard_end cfg o st :
  nextPollTimeout (refreshBoard_end cfg o st) =
  Some (pollBase cfg + backoffMs (refreshBoard_end cfg o st))%Z.
Proof.
  destruct o as [parsed| |e]; simpl; try destruct (rateLimited (message e));
    reflexivity.
Qed.

(** An error made from a response of status 403 or 429 is of the
    rate-limit class, whatever its status text and body. *)
Lemma rateLimited_403 txt etag body json :
  rateLimited (httpMessage {| r_status := 403; r_statusText := txt;
                              r_etag := etag; r_text := body;
                              r_json := json |}) = true.
Proof. reflexivity. Qed.

Lemma rateLimited_429 txt etag body json :
  rateLimited (httpMessage {| r_status := 429; r_statusText := txt;
                              r_etag := etag; r_text := body;
                              r_json := json |}) = true.
Proof. reflexivity. Qed.

Lemma nextBackoff_bounds b :
  (b = 0 \/ 5000 <= b <= 60000)%Z -> (5000 <= nextBackoff b <= 60000)%Z.
Proof. unfold nextBackoff. intros H. destruct (Z.eqb_spec b 0); lia. Qed.















(** ** The speaker queue *)

Lemma swap_Permutation {A} (i j : nat) (arr : list A) : swap i j arr ≡ₚ arr.
Proof.
  unfold swap. destruct (arr !! i) as [x|] eqn:Hi; [|reflexivity].
  destruct (arr !! j) as [y|] eqn:Hj; [|reflexivity].
  by apply Permutation_insert_swap.
Qed.

Lemma shuffleFrom_Permutation {A} n draws (arr : list A) :
  shuffleFrom n draws arr ≡ₚ arr.
Proof.
  revert draws arr. induction n as [|n IH]; intros draws arr; simpl.
  - reflexivity.
  - rewrite IH. apply swap_Permutation.
Qed.

Lemma shuffle_Permutation {A} draws (arr : list A) : shuffle draws arr ≡ₚ arr.
Proof. apply shuffleFrom_Permutation. Qed.

Lemma currentSpeaker_save s st : currentSpeaker (saveSpeakerState s st) = s.
Proof. reflexivity. Qed.

Lemma readyNames_none_spoken s updates :
  spoken s = [] -> readyNames s updates = map name updates.
Proof.
  intros Hs. unfold readyNames. rewrite Hs.
  induction (map name updates) as [|n l IH]; cbn [List.filter]; [reflexivity|].
  rewrite bool_decide_eq_false_2 by apply not_elem_of_nil. cbn [negb].
  by rewrite IH.
Qed.

(** [nextSpeaker] when some writer has not spoken yet. *)
Lemma nextSpeaker_ready draws st :
  currentUpdates st ≠ [] ->
  readyNames (currentSpeaker st) (currentUpdates st) ≠ [] ->
  currentSpeaker (nextSpeaker draws st)
  = {| spoken := spoken (currentSpeaker st);
       speakingNow :=
         nameOrNull (head (shuffle draws
                             (readyNames (currentSpeaker st) (currentUpdates st))));
       readyOrder :=
         shuffle draws (readyNames (currentSpeaker st) (currentUpdates st)) |}.
Proof.
  intros Hu Hr. unfold nextSpeaker.
  destruct (currentUpdates st) as [|u us] eqn:Hupd; [done|].
  destruct (readyNames (currentSpeaker st) (u :: us)) as [|w ws] eqn:Hready; [done|].
  reflexivity.
Qed.

(** [nextSpeaker] when every writer of a non-empty roster has spoken. *)
Lemma nextSpeaker_exhausted draws st :
  currentUpdates st ≠ [] ->
  readyNames (currentSpeaker st) (currentUpdates st) = [] ->
  currentSpeaker (nextSpeaker draws st)
  = {| spoken := spoken (currentSpeaker st); speakingNow := None;
       readyOrder := [] |}.
Proof.
  intros Hu Hr. unfold nextSpeaker.
  destruct (currentUpdates st) as [|u us] eqn:Hupd; [done|].
  rewrite Hr. reflexivity.
Qed.

Lemma speakerFinished_idle st :
  nameOrNull (speakingNow (currentSpeaker st)) = None -> speakerFinished st = st.
Proof. intros H. unfold speakerFinished. rewrite H. reflexivity. Qed.

Lemma speakerFinished_speaking st w :
  nameOrNull (speakingNow (currentSpeaker st)) = Some w ->
  currentSpeaker (speakerFinished st)
  = {| spoken := if bool_decide (w ∈ spoken (currentSpeaker st))
                 then spoken (currentSpeaker st)
                 else spoken (currentSpeaker st) ++ [w];
       speakingNow := None;
       readyOrder := List.filter (fun m => negb (bool_decide (m = w)))
                       (readyOrder (currentSpeaker st)) |}.
Proof. intros H. unfold speakerFinished. rewrite H. reflexivity. Qed.

Lemma speakerFinished_twice st :
  speakerFinished (speakerFinished st) = speakerFinished st.
Proof.
  destruct (nameOrNull (speakingNow (currentSpeaker st))) as [w|] eqn:Hw.
  - apply speakerFinished_idle. by rewrite (speakerFinished_speaking st w).
  - rewrite (speakerFinished_idle st Hw). exact (speakerFinished_idle st Hw).
Qed.

Lemma nameOrNull_Some x w : nameOrNull x = Some w <-> x = Some w /\ w ≠ [].
Proof.
  unfold nameOrNull. destruct x as [n|].
  - case_bool_decide as Hn.
    + split; [discriminate|]. intros [[= ->] Hw]. contradiction.
    + split; [intros [= ->]; by split|]. by intros [[= ->] _].
  - split; [discriminate|]. by intros [? _].
Qed.

(** C9 (amended).  With nobody in the spoken list and a non-empty roster
    [W] of distinct, non-empty writer names, [nextSpeaker] sets
    [speakingNow] to an element of [W] and [readyOrder] to a permutation of
    [W], each writer once.  [speakerFinished] appends the speaking writer
    to the spoken list unless it is there already, clears [speakingNow],
    and a second call in a row changes nothing.  With a non-empty roster
    of which every writer has spoken, [nextSpeaker] clears [speakingNow]
    and empties the ready order; with an empty roster it does nothing. *)
Theorem speaker_queue :
  (forall draws st,
     spoken (currentSpeaker st) = [] ->
     currentUpdates st ≠ [] ->
     NoDup (map name (currentUpdates st)) ->
     [] ∉ map name (currentUpdates st) ->
     let s' := currentSpeaker (nextSpeaker draws st) in
     (exists w, speakingNow s' = Some w /\ w ∈ map name (currentUpdates st)
                /\ head (readyOrder s') = Some w)
     /\ readyOrder s' ≡ₚ map name (currentUpdates st)
     /\ NoDup (readyOrder s')
     /\ spoken s' = [])
  /\ (forall st w,
        speakingNow (currentSpeaker st) = Some w -> w ≠ [] ->
        let s' := currentSpeaker (speakerFinished st) in
        spoken s' = (if bool_decide (w ∈ spoken (currentSpeaker st))
                     then spoken (currentSpeaker st)
                     else spoken (currentSpeaker st) ++ [w])
        /\ speakingNow s' = None
        /\ w ∉ readyOrder s')
  /\ (forall st, speakerFinished (speakerFinished st) = speakerFinished st)
  /\ (forall draws st,
        currentUpdates st ≠ [] ->
        (forall u, u ∈ currentUpdates st -> name u ∈ spoken (currentSpeaker st)) ->
        let s' := currentSpeaker (nextSpeaker draws st) in
        speakingNow s' = None /\ readyOrder s' = []
        /\ spoken s' = spoken (currentSpeaker st))
  /\ (forall draws st, currentUpdates st = [] -> nextSpeaker draws st = st).
Proof.
  repeat apply conj.
  - intros draws st Hsp Hne Hnd Hnn s'.
    assert (readyNames (currentSpeaker st) (currentUpdates st)
            = map name (currentUpdates st)) as Hready
      by by apply readyNames_none_spoken.
    assert (map name (currentUpdates st) ≠ []) as Hne'.
    { destruct (currentUpdates st); [done|discriminate]. }
    subst s'. rewrite nextSpeaker_ready by (rewrite ?Hready; assumption).
    rewrite Hready. cbn [speakingNow readyOrder spoken].
    pose proof (shuffle_Permutation draws (map name (currentUpdates st))) as Hperm.
    destruct (shuffle draws (map name (currentUpdates st))) as [|w order] eqn:Hsh.
    { apply Permutation_nil_l in Hperm. congruence. }
    repeat apply conj.
    + exists w. assert (w ∈ map name (currentUpdates st)) as Hin.
      { rewrite <- Hperm. by left. }
      repeat split; [|exact Hin].
      simpl. rewrite bool_decide_eq_false_2; [reflexivity|].
      intros ->. contradiction.
    + exact Hperm.
    + by rewrite Hperm.
    + exact Hsp.
  - intros st w Hw Hnn s'. subst s'.
    rewrite (speakerFinished_speaking st w) by (apply nameOrNull_Some; by split).
    cbn [speakingNow readyOrder spoken]. repeat split.
    rewrite list_elem_of_In, filter_In. intros [_ H].
    by rewrite bool_decide_eq_true_2 in H.
  - apply speakerFinished_twice.
  - intros draws st Hne Hall s'. subst s'.
    rewrite nextSpeaker_exhausted; [by repeat split|assumption|].
    unfold readyNames.
    assert (forall n, n ∈ map name (currentUpdates st) ->
                      n ∈ spoken (currentSpeaker st)) as Hall'.
    { intros n (u & -> & Hu)%list_elem_of_fmap. by apply Hall. }
    induction (map name (currentUpdates st)) as [|n l IH];
      cbn [List.filter]; [reflexivity|].
    rewrite bool_decide_eq_true_2 by (apply Hall'; by left). cbn [negb].
    apply IH. intros m Hm. apply Hall'. by right.
  - intros draws st Hu. unfold nextSpeaker. by rewrite Hu.
Qed.

(** C9, the claim as stated fails: with an empty roster no writer remains
    un-spoken, yet [nextSpeaker] returns at its first line and the writer
    named as speaking stays. *)
Lemma nextSpeaker_empty_roster_keeps_speaker :
  readyNames
    (currentSpeaker
       (setSpeaker (Some {| spoken := [str "Ann"]; speakingNow := Some (str "Bob");
                            readyOrder := [str "Bob"] |}) initialState))
    (currentUpdates
       (setSpeaker (Some {| spoken := [str "Ann"]; speakingNow := Some (str "Bob");
                            readyOrder := [str "Bob"] |}) initialState)) = []
  /\ speakingNow
       (currentSpeaker
          (nextSpeaker [0%nat]
             (setSpeaker (Some {| spoken := [str "Ann"];
                                  speakingNow := Some (str "Bob");
                                  readyOrder := [str "Bob"] |}) initialState)))
     = Some (str "Bob")
  /\ readyOrder
       (currentSpeaker
          (nextSpeaker [0%nat]
             (setSpeaker (Some {| spoken := [str "Ann"];
                                  speakingNow := Some (str "Bob");
                                  readyOrder := [str "Bob"] |}) initialState)))
     = [str "Bob"].
Proof. repeat split. Qed.

(** ** Runs of asynchronous code *)

Lemma run_io_bind {A B} (f : A -> io B) (m : io A) answers :
  run (io_bind f m) answers
  = let '(t1, o1) := run m answers in
    match o1 with
    | None => (t1, None)
    | Some a =>
        let '(t2, o2) := run (f a) (drop (length t1) answers) in
        (t1 ++ t2, o2)
    end.
Proof.
  revert answers. induction m as [a|q k IH]; intros answers; simpl.
  - rewrite drop_0. destruct (run (f a) answers) as [t2 o2]. reflexivity.
  - destruct answers as [|x rest]; simpl; [reflexivity|].
    rewrite IH. destruct (run (k x) rest) as [t1 [a|]]; simpl; [|reflexivity].
    destruct (run (f a) (drop (length t1) rest)) as [t2 o2]. reflexivity.
Qed.

(** A computation that is over after one request. *)
Definition oneCall {A} (m : prog A) (q : request)
    (k : result response -> result A) : Prop :=
  forall st, exists k', m st = Call q k' /\ forall a, k' a = Ret (st, k a).

Lemma run_bind_oneCall {A B} (m : prog A) (f : A -> prog B) q k st a rest :
  oneCall m q k ->
  run ((m ≫= f) st) (a :: rest)
  = match k a with
    | Ok x => let '(t, o) := run (f x st) rest in (q :: t, o)
    | Throw e => ([q], Some (st, Throw e))
    end.
Proof.
  intros Hm. unfold mbind, prog_bind. destruct (Hm st) as (k' & -> & Hk).
  simpl. rewrite Hk. simpl.
  destruct (k a) as [x|e]; [|reflexivity].
  destruct (run (f x st) rest) as [t o]. reflexivity.
Qed.

Lemma run_oneCall {A} (m : prog A) q k st a rest :
  oneCall m q k -> run (m st) (a :: rest) = ([q], Some (st, k a)).
Proof.
  intros Hm. destruct (Hm st) as (k' & -> & Hk). simpl. rewrite Hk. reflexivity.
Qed.

Lemma run_tryCatchP_oneCall {A} (m : prog A) (h : error -> prog A) q k st a rest :
  oneCall m q k ->
  run (tryCatchP m h st) (a :: rest)
  = match k a with
    | Ok x => ([q], Some (st, Ok x))
    | Throw e => let '(t, o) := run (h e st) rest in (q :: t, o)
    end.
Proof.
  intros Hm. unfold tryCatchP. destruct (Hm st) as (k' & -> & Hk).
  simpl. rewrite Hk. simpl.
  destruct (k a) as [x|e]; [reflexivity|].
  destruct (run (h e st) rest) as [t o]. reflexivity.
Qed.

Lemma oneCall_ghGetContentsMeta cfg fp path :
  contentsPathRef cfg fp = Ok path ->
  oneCall (ghGetContentsMeta cfg fp) (metaRequest path) metaOf.
Proof.
  intros Hpath st. unfold ghGetContentsMeta. rewrite Hpath.
  unfold mbind, prog_bind, lift, ghFetch, metaRequest, metaOf. cbn.
  eexists. split; [reflexivity|]. intros [res|e]; cbn; [|reflexivity].
  destruct (r_status res =? 404)%N; cbn; [reflexivity|].
  destruct (r_ok res); cbn; [|reflexivity].
  destruct (r_json res) as [json|e]; cbn; [|reflexivity].
  destruct (getProp json (str "sha")) as [s|e]; cbn; [|reflexivity].
  destruct (getProp json (str "size")) as [z|e]; cbn; [|reflexivity].
  destruct (getProp json (str "path")) as [p|e]; cbn; reflexivity.
Qed.

(** ** The ETag cache *)

Lemma run_readFileContent cfg fp path st a rest :
  contentsPathRef cfg fp = Ok path ->
  run (readFileContent cfg fp st) (a :: rest)
  = ([readRequest path (cache_files st !! path ≫= fe_etag)],
     Some
       match a with
       | Throw e => (st, Throw e)
       | Ok res =>
           if (r_status res =? 304)%N
           then (st, Ok (default [] (fe_text <$> cache_files st !! path)))
           else if negb (r_ok res) then (st, Throw (Error (httpMessage res) None))
           else match r_json res with
                | Throw e => (st, Throw e)
                | Ok json =>
                    match contentText json with
                    | Throw e => (st, Throw e)
                    | Ok text =>
                        match getProp json (str "sha") with
                        | Throw e => (st, Throw e)
                        | Ok s =>
                            (setCacheFiles
                               (<[path := {| fe_etag := r_etag res;
                                             fe_text := text; fe_sha := s |}]>
                                  (cache_files st)) st, Ok text)
                        end
                    end
                end
       end).
Proof.
  intros Hpath. unfold readFileContent. rewrite Hpath.
  unfold mbind, prog_bind, lift, getState, ghFetch, readRequest. cbn.
  destruct a as [res|e]; cbn; [|reflexivity].
  destruct (r_status res =? 304)%N; cbn; [reflexivity|].
  destruct (r_ok res); cbn; [|reflexivity].
  destruct (r_json res) as [json|e]; cbn; [|reflexivity].
  destruct (contentText json) as [text|e]; cbn; [|reflexivity].
  destruct (getProp json (str "sha")) as [s|e]; cbn; reflexivity.
Qed.

Lemma run_ghGetJsonWithEtag path st a rest :
  run (ghGetJsonWithEtag path st) (a :: rest)
  = ([readRequest path (cache_dir st !! path ≫= de_etag)],
     Some
       match a with
       | Throw e => (st, Throw e)
       | Ok res =>
           if (r_status res =? 304)%N
           then (st, Ok (true, cache_dir st !! path ≫= de_etag,
                         default VUndefined (de_data <$> cache_dir st !! path)))
           else if negb (r_ok res) then (st, Throw (Error (httpMessage res) None))
           else match r_json res with
                | Throw e => (st, Throw e)
                | Ok data =>
                    (setCacheDir
                       (<[path := {| de_etag := r_etag res; de_data := data |}]>
                          (cache_dir st)) st,
                     Ok (false, r_etag res, data))
                end
       end).
Proof.
  unfold ghGetJsonWithEtag.
  unfold mbind, prog_bind, lift, getState, ghFetch, readRequest. cbn.
  destruct a as [res|e]; cbn; [|reflexivity].
  destruct (r_status res =? 304)%N; cbn; [reflexivity|].
  destruct (r_ok res); cbn; [|reflexivity].
  destruct (r_json res) as [data|e]; cbn; reflexivity.
Qed.

(** A computation that never changes the runtime state. *)
Definition stateless {A} (m : prog A) : Prop :=
  forall st answers t st' out,
    run (m st) answers = (t, Some (st', out)) -> st' = st.












(** ** The optimistic write coordinator *)

Lemma oneCall_put cfg enc content message c sha :
  toBase64 content = Ok c ->
  oneCall (put cfg enc content message sha)
          (putRequest cfg enc message c sha) putResult.
Proof.
  intros Hc st. unfold put. rewrite Hc.
  unfold mbind, prog_bind, lift, ghFetch, putRequest, putResult. cbn.
  eexists. split; [reflexivity|]. intros [res|e]; cbn; [|reflexivity].
  destruct ((r_status res =? 200) || (r_status res =? 201))%N; cbn; [|reflexivity].
  destruct (r_json res); reflexivity.
Qed.

Lemma contentsPathRef_eq cfg fp enc ref :
  encodeURIComponent fp = Ok enc ->
  encodeURIComponent (BRANCH cfg) = Ok ref ->
  contentsPathRef cfg fp
  = Ok ((str "/repos/" ++ OWNER cfg ++ str "/" ++ REPO cfg ++ str "/contents/"
         ++ unescapeSlashes enc) ++ str "?ref=" ++ ref).
Proof.
  intros Henc Href. unfold contentsPathRef, contentsPath.
  rewrite Henc. cbn. rewrite Href. reflexivity.
Qed.

(** A response of status 422 always takes the first branch of the [catch]. *)
Lemma shaRequired_422 res :
  r_status res = 422%N ->
  shaRequired (Error (httpMessage res) (Some (r_status res))) = true.
Proof. intros ->. reflexivity. Qed.

Section WriteRun.

Variables (cfg : Config) (fp content message : jsstring).
Variables (enc c gpath : jsstring).
Hypothesis Henc : encodeURIComponent fp = Ok enc.
Hypothesis Hpath : contentsPathRef cfg fp = Ok gpath.
Hypothesis Hc : toBase64 content = Ok c.

Let G := metaRequest gpath.
Let P := putRequest cfg (unescapeSlashes enc) message c.

(** What the handler of the [catch] does with the error [e] of the first
    write, given the answers [a3] and [a4] to what it sends. *)
Lemma run_retry st e a3 a4 rest :
  run ((if shaRequired e then
          meta ← ghGetContentsMeta cfg fp;
          match shaOf meta with
          | Some s => put cfg (unescapeSlashes enc) content message (Some s)
          | None => put cfg (unescapeSlashes enc) content message None
          end
        else if bool_decide (status e = Some 409%N) then
          meta ← ghGetContentsMeta cfg fp;
          match shaOf meta with
          | Some s => put cfg (unescapeSlashes enc) content message (Some s)
          | None => throw e
          end
        else throw e) st) (a3 :: a4 :: rest)
  = if shaRequired e then
      match metaOf a3 with
      | Throw e' => ([G], Some (st, Throw e'))
      | Ok m2 => ([G; P (shaOf m2)], Some (st, putResult a4))
      end
    else if bool_decide (status e = Some 409%N) then
      match metaOf a3 with
      | Throw e' => ([G], Some (st, Throw e'))
      | Ok m2 =>
          match shaOf m2 with
          | Some s => ([G; P (Some s)], Some (st, putResult a4))
          | None => ([G], Some (st, Throw e))
          end
      end
    else ([], Some (st, Throw e)).
Proof.
  destruct (shaRequired e).
  - rewrite (run_bind_oneCall _ _ G metaOf)
      by by apply oneCall_ghGetContentsMeta.
    destruct (metaOf a3) as [m2|e']; [|reflexivity].
    destruct (shaOf m2) as [s|];
      rewrite (run_oneCall _ _ _ st a4 rest
                 (oneCall_put cfg _ content message c _ Hc));
      reflexivity.
  - destruct (bool_decide (status e = Some 409%N)); [|reflexivity].
    rewrite (run_bind_oneCall _ _ _ _ st a3 (a4 :: rest)
               (oneCall_ghGetContentsMeta cfg fp gpath Hpath)).
    destruct (metaOf a3) as [m2|e']; [|reflexivity].
    destruct (shaOf m2) as [s|]; [|reflexivity].
    rewrite (run_oneCall _ _ _ st a4 rest
               (oneCall_put cfg _ content message c _ Hc)).
    reflexivity.
Qed.

(** The run of [writeFileOverwriteStrict] against the answers of the
    store. *)
Lemma run_writeFileOverwriteStrict st a1 a2 a3 a4 rest :
  run (writeFileOverwriteStrict cfg fp content message st)
      (a1 :: a2 :: a3 :: a4 :: rest)
  = match metaOf a1 with
    | Throw e => ([G], Some (st, Throw e))
    | Ok m1 =>
        match putResult a2 with
        | Ok v => ([G; P (shaOf m1)], Some (st, Ok v))
        | Throw e =>
            if shaRequired e then
              match metaOf a3 with
              | Throw e' => ([G; P (shaOf m1); G], Some (st, Throw e'))
              | Ok m2 =>
                  ([G; P (shaOf m1); G; P (shaOf m2)], Some (st, putResult a4))
              end
            else if bool_decide (status e = Some 409%N) then
              match metaOf a3 with
              | Throw e' => ([G; P (shaOf m1); G], Some (st, Throw e'))
              | Ok m2 =>
                  match shaOf m2 with
                  | Some s =>
                      ([G; P (shaOf m1); G; P (Some s)],
                       Some (st, putResult a4))
                  | None => ([G; P (shaOf m1); G], Some (st, Throw e))
                  end
              end
            else ([G; P (shaOf m1)], Some (st, Throw e))
        end
    end.
Proof.
  unfold writeFileOverwriteStrict. rewrite Henc.
  change (lift (unescapeSlashes <$> Ok enc)) with (lift (Ok (unescapeSlashes enc))).
  unfold mbind at 1, prog_bind at 1, lift at 1. cbn [io_bind].
  rewrite (run_bind_oneCall _ _ _ _ st a1 (a2 :: a3 :: a4 :: rest)
             (oneCall_ghGetContentsMeta cfg fp gpath Hpath)).
  destruct (metaOf a1) as [m1|e]; [|reflexivity].
  rewrite (run_tryCatchP_oneCall _ _ _ _ st a2 (a3 :: a4 :: rest)
             (oneCall_put cfg _ content message c _ Hc)).
  destruct (putResult a2) as [v|e]; [reflexivity|].
  rewrite run_retry.
  destruct (shaRequired e).
  - destruct (metaOf a3) as [m2|e']; reflexivity.
  - destruct (bool_decide (status e = Some 409%N)); [|reflexivity].
    destruct (metaOf a3) as [m2|e']; [|reflexivity].
    destruct (shaOf m2); reflexivity.
Qed.

End WriteRun.

(** Case analysis on how the answers of the store read. *)
Ltac write_cases a1 a2 a3 :=
  destruct (metaOf a1) as [?m1|?e1] eqn:?Hm1; [|try done];
  try (destruct (putResult a2) as [?v|?e2] eqn:?Hp2; [try done|];
       try (match goal with
            | |- context [shaRequired ?e] =>
                destruct (shaRequired e) eqn:?Hsr;
                [|destruct (bool_decide (status e = Some 409%N)) eqn:?H409;
                  [|try done]];
                try (destruct (metaOf a3) as [?m2|?e3] eqn:?Hm3; [|try done];
                     try (destruct (shaOf m2) as [?s|] eqn:?Hs2))
            end)).

(** C3 (amended).  [writeFileOverwriteStrict] first fetches the current
    version of the path, absence meaning create, and attempts the write
    with that version.  When that write fails with a version-required
    error (status 422, or a message that names 422 or the sha), it fetches
    the version once more and retries once with the refreshed version, or
    as a create when the file is absent.  When it fails with status 409,
    it fetches the version once more and retries once only if the file is
    there; if the file is absent the 409 error is thrown without a retry.
    Any other failure is thrown at once.  In every run there are at most
    two fetches and two writes, the outcome of a retry is the outcome of
    the call, so its failure is thrown to the caller, and the runtime state
    is left as it was. *)
Theorem write_retries_once cfg fp content message enc c gpath :
  encodeURIComponent fp = Ok enc ->
  contentsPathRef cfg fp = Ok gpath ->
  toBase64 content = Ok c ->
  forall st a1 a2 a3 a4 rest,
    let G := metaRequest gpath in
    let P := putRequest cfg (unescapeSlashes enc) message c in
    let r := run (writeFileOverwriteStrict cfg fp content message st)
               (a1 :: a2 :: a3 :: a4 :: rest) in
    (length (List.filter isPut r.1) <= 2 /\ length (List.filter isGet r.1) <= 2
     /\ exists out, r.2 = Some (st, out))
    /\ (forall e, metaOf a1 = Throw e -> r = ([G], Some (st, Throw e)))
    /\ (forall m1, metaOf a1 = Ok m1 -> take 2 r.1 = [G; P (shaOf m1)])
    /\ (forall m1 v, metaOf a1 = Ok m1 -> putResult a2 = Ok v ->
          r = ([G; P (shaOf m1)], Some (st, Ok v)))
    /\ (forall m1 e m2,
          metaOf a1 = Ok m1 -> putResult a2 = Throw e ->
          shaRequired e = true -> metaOf a3 = Ok m2 ->
          r = ([G; P (shaOf m1); G; P (shaOf m2)], Some (st, putResult a4)))
    /\ (forall m1 e m2 s,
          metaOf a1 = Ok m1 -> putResult a2 = Throw e ->
          shaRequired e = false -> status e = Some 409%N ->
          metaOf a3 = Ok m2 -> shaOf m2 = Some s ->
          r = ([G; P (shaOf m1); G; P (Some s)], Some (st, putResult a4)))
    /\ (forall m1 e m2,
          metaOf a1 = Ok m1 -> putResult a2 = Throw e ->
          shaRequired e = false -> status e = Some 409%N ->
          metaOf a3 = Ok m2 -> shaOf m2 = None ->
          r = ([G; P (shaOf m1); G], Some (st, Throw e)))
    /\ (forall m1 e e',
          metaOf a1 = Ok m1 -> putResult a2 = Throw e ->
          shaRequired e = true \/ status e = Some 409%N ->
          metaOf a3 = Throw e' ->
          r = ([G; P (shaOf m1); G], Some (st, Throw e')))
    /\ (forall m1 e,
          metaOf a1 = Ok m1 -> putResult a2 = Throw e ->
          shaRequired e = false -> status e ≠ Some 409%N ->
          r = ([G; P (shaOf m1)], Some (st, Throw e)))
    /\ (forall res, r_status res = 422%N ->
          shaRequired (Error (httpMessage res) (Some (r_status res))) = true).
Proof.
  intros Henc Hpath Hc st a1 a2 a3 a4 rest G P r. subst r.
  rewrite (run_writeFileOverwriteStrict cfg fp content message enc c gpath
             Henc Hpath Hc).
  fold G P.
  repeat apply conj.
  - write_cases a1 a2 a3; cbn; lia.
  - write_cases a1 a2 a3; cbn; lia.
  - write_cases a1 a2 a3; by eexists.
  - intros e He. by rewrite He.
  - intros m1 Hm1. rewrite Hm1. write_cases a1 a2 a3; reflexivity.
  - intros m1 v Hm1 Hp2. by rewrite Hm1, Hp2.
  - intros m1 e m2 Hm1 Hp2 Hsr Hm3. by rewrite Hm1, Hp2, Hsr, Hm3.
  - intros m1 e m2 s Hm1 Hp2 Hsr H409 Hm3 Hs2.
    rewrite Hm1, Hp2, Hsr, Hm3, Hs2. by rewrite bool_decide_eq_true_2.
  - intros m1 e m2 Hm1 Hp2 Hsr H409 Hm3 Hs2.
    rewrite Hm1, Hp2, Hsr, Hm3, Hs2. by rewrite bool_decide_eq_true_2.
  - intros m1 e e' Hm1 Hp2 Hor Hm3. rewrite Hm1, Hp2, Hm3.
    destruct (shaRequired e); [reflexivity|].
    destruct Hor as [?|H409]; [done|]. by rewrite bool_decide_eq_true_2.
  - intros m1 e Hm1 Hp2 Hsr H409. rewrite Hm1, Hp2, Hsr.
    by rewrite bool_decide_eq_false_2.
  - apply shaRequired_422.
Qed.

Lemma write_retries_once_witness :
  encodeURIComponent annFile
  = Ok (str "roundtable%2FGNT%20SLT%20--%20Ann%20--%202026-01-01.txt")
  /\ contentsPathRef CONFIG_DEFAULTS annFile
     = Ok (str "/repos/sanders1973/RoundTable/contents/roundtable/GNT%20SLT%20--%20Ann%20--%202026-01-01.txt?ref=main")
  /\ toBase64 (str "hello") = Ok (str "aGVsbG8=")
  /\ (run (writeFileOverwriteStrict CONFIG_DEFAULTS annFile (str "hello")
             (str "update") initialState)
          [found (str "v1"); answer 422 (str "Unprocessable Entity");
           found (str "v2"); answer 200 (str "OK")]).2
     = Some (initialState, Ok (VObj ∅)).
Proof.
  assert (encodeURIComponent annFile
          = Ok (str "roundtable%2FGNT%20SLT%20--%20Ann%20--%202026-01-01.txt"))
    as Henc by (vm_compute; reflexivity).
  assert (contentsPathRef CONFIG_DEFAULTS annFile
          = Ok (str "/repos/sanders1973/RoundTable/contents/roundtable/GNT%20SLT%20--%20Ann%20--%202026-01-01.txt?ref=main"))
    as Hpath by (vm_compute; reflexivity).
  assert (toBase64 (str "hello") = Ok (str "aGVsbG8=")) as Hc
    by (vm_compute; reflexivity).
  split; [exact Henc|]. split; [exact Hpath|]. split; [exact Hc|].
  destruct (write_retries_once CONFIG_DEFAULTS annFile (str "hello")
              (str "update") _ _ _ Henc Hpath Hc initialState
              (found (str "v1")) (answer 422 (str "Unprocessable Entity"))
              (found (str "v2")) (answer 200 (str "OK")) [])
    as (_ & _ & _ & _ & H & _).
  rewrite (H (Some {| sha := VStr (str "v1"); size := VUndefined;
                      path := VUndefined |})
             (Error (str "422 Unprocessable Entity: ") (Some 422%N))
             (Some {| sha := VStr (str "v2"); size := VUndefined;
                      path := VUndefined |}));
    reflexivity.
Defined.

(** C3, the claim as stated fails: the first write is answered 409, the
    version is fetched again and the file is found absent; the write is
    not retried, and the 409 error is thrown. *)
Lemma conflict_on_absent_file_is_not_retried :
  length (List.filter isPut
            (run (writeFileOverwriteStrict CONFIG_DEFAULTS annFile (str "hello")
                    (str "update") initialState)
                 [found (str "v1"); answer 409 (str "Conflict");
                  answer 404 (str "Not Found"); answer 200 (str "OK")]).1) = 1%nat
  /\ length (List.filter isGet
               (run (writeFileOverwriteStrict CONFIG_DEFAULTS annFile (str "hello")
                       (str "update") initialState)
                    [found (str "v1"); answer 409 (str "Conflict");
                     answer 404 (str "Not Found"); answer 200 (str "OK")]).1) = 2%nat
  /\ snd <$> (run (writeFileOverwriteStrict CONFIG_DEFAULTS annFile (str "hello")
                     (str "update") initialState)
                  [found (str "v1"); answer 409 (str "Conflict");
                   answer 404 (str "Not Found"); answer 200 (str "OK")]).2
     = Some (Throw (Error (str "409 Conflict: ") (Some 409%N))).
Proof. repeat split; vm_compute; reflexivity. Qed.

(** ** The reaction aggregator *)

Lemma bump_readable flags entry :
  isNullish flags = false -> bump flags entry = Ok (bumped flags entry).
Proof.
  intros Hf. unfold bump, bumped, getProp.
  destruct flags; try discriminate; cbn;
    repeat match goal with |- context [if ?b then _ else _] => destruct b end;
    cbn; rewrite ?N.add_0_r; try reflexivity; by destruct entry.
Qed.

Lemma bump_nullish flags entry :
  isNullish flags = true -> bump flags entry = Throw typeError.
Proof. destruct flags; try discriminate; reflexivity. Qed.

Lemma addEntry_readable totals b f :
  isNullish f = false ->
  addEntry totals (b, f) = Ok (<[b := bumped f (totalsOf totals b)]> totals).
Proof. intros Hf. unfold addEntry; cbn. by rewrite bump_readable. Qed.

Lemma addEntry_nullish totals b f :
  isNullish f = true -> addEntry totals (b, f) = Throw typeError.
Proof. intros Hf. unfold addEntry; cbn. by rewrite bump_nullish. Qed.


Lemma forEach_addEntry_nullish (es : list (jsstring * value)) totals :
  (exists bf, bf ∈ es /\ isNullish bf.2 = true) ->
  forEach addEntry totals es = Throw typeError.
Proof.
  revert totals. induction es as [|[b f] es IH]; intros totals [bf [Hin Hnull]].
  - by apply elem_of_nil in Hin.
  - cbn [forEach]. destruct (isNullish f) eqn:Hf.
    + by rewrite addEntry_nullish.
    + rewrite addEntry_readable by exact Hf. cbn. apply IH.
      apply elem_of_cons in Hin as [->|Hin]; [cbn in Hnull; congruence|].
      by exists bf.
Qed.


Lemma addRecord_unreadable totals u :
  ¬ flagsReadable u -> addRecord totals u = Throw typeError.
Proof.
  intros Hu. unfold addRecord. apply forEach_addEntry_nullish.
  destruct (decide (Forall (fun bf : jsstring * value => isNullish bf.2 = false)
                      (map_to_list (ownProps (byTargetOf u))))) as [Hall|Hex].
  - exfalso. apply Hu. intros base flags Hf.
    rewrite Forall_forall in Hall.
    apply (Hall (base, flags)). by apply elem_of_map_to_list.
  - apply not_Forall_Exists in Hex; [|intros ?; apply _].
    apply Exists_exists in Hex as (bf & Hin & Hbf). exists bf. split; [exact Hin|].
    unfold compose in Hbf. destruct (isNullish bf.2); [reflexivity|by destruct Hbf].
Qed.











(** The record with [null] flags is a parsed record: it is what
    [parseContentVars] returns for a body whose [REACTIONS_B64] line holds
    the base64 of [nullFlagsText]. *)
Lemma nullFlagsRecord_parsed :
  fromBase64 (str "eyJieV90YXJnZXQiOnsiVCI6bnVsbH19") = nullFlagsText
  /\ parseContentVars parseNullFlags
       (str "REACTIONS_B64=eyJieV90YXJnZXQiOnsiVCI6bnVsbH19")
     = Ok nullFlagsRecord.
Proof. split; vm_compute; reflexivity. Qed.


(** ** The record codec: decoding never fails *)









(** ** Writing the reactions *)

Lemma findIndex_Some {A} (p : A -> bool) (l : list A) i :
  findIndex p l = Some i ->
  exists x, l !! i = Some x /\ p x = true
            /\ forall j y, (j < i)%nat -> l !! j = Some y -> p y = false.
Proof.
  revert i. induction l as [|x l IH]; intros i; cbn; [discriminate|].
  destruct (p x) eqn:Hx.
  - intros [= <-]. exists x. repeat split; [assumption|]. intros j y Hj. lia.
  - destruct (findIndex p l) as [k|]; [|discriminate]. cbn. intros [= <-].
    destruct (IH k eq_refl) as (y & Hy & Hpy & Hbefore).
    exists y. repeat split; [assumption..|].
    intros [|j] z Hj; cbn; [by intros [= <-]|].
    intros Hz. apply (Hbefore j z); [lia|assumption].
Qed.

Lemma findIndex_None {A} (p : A -> bool) (l : list A) :
  findIndex p l = None -> forall x, x ∈ l -> p x = false.
Proof.
  induction l as [|y l IH]; cbn; [intros _ x Hx; by apply elem_of_nil in Hx|].
  destruct (p y) eqn:Hy; [discriminate|].
  destruct (findIndex p l); [discriminate|]. intros _ x [->|Hx]%elem_of_cons.
  - exact Hy.
  - by apply IH.
Qed.

(** The frame of the splice: every line of the body other than the first
    reactions line is, at its own index, a line of the new list; that
    first reactions line is replaced by the new one, or the new one is
    added at the end when the body has none. *)
Lemma setOrPush_frame lines line :
  (forall i l, lines !! i = Some l ->
               findIndex isReactionsLine lines ≠ Some i ->
               setOrPush lines line !! i = Some l)
  /\ (forall idx, findIndex isReactionsLine lines = Some idx ->
        setOrPush lines line !! idx = Some line
        /\ length (setOrPush lines line) = length lines)
  /\ (findIndex isReactionsLine lines = None ->
        setOrPush lines line = lines ++ [line]).
Proof.
  unfold setOrPush. repeat apply conj.
  - intros i l Hl Hidx. destruct (findIndex isReactionsLine lines) as [idx|].
    + rewrite list_lookup_insert_ne; [exact Hl|congruence].
    + by apply lookup_app_l_Some.
  - intros idx Hidx. rewrite Hidx. split; [|apply length_insert].
    apply list_lookup_insert_eq.
    destruct (findIndex_Some _ _ _ Hidx) as (x & Hx & _).
    by eapply lookup_lt_Some.
  - by intros ->.
Qed.

(** The lines with a key the codec reads, other than [REACTIONS_B64], are
    no reactions lines when they start with their key. *)
Lemma isReactionsLine_other_key key rest :
  key ∈ [str "TEAM"; str "NAME"; str "SESSION"; str "FEELING";
         str "PRODUCTIVITY"; str "UPDATED_AT"; str "UPDATE_B64"; str "UPDATE"] ->
  isReactionsLine (key ++ rest) = false.
Proof.
  intros H.
  repeat (apply elem_of_cons in H as [->|H]; [reflexivity|]).
  by apply elem_of_nil in H.
Qed.

Lemma run_mbind {A B} (m : prog A) (f : A -> prog B) st answers :
  run ((m ≫= f) st) answers
  = let '(t1, o1) := run (m st) answers in
    match o1 with
    | None => (t1, None)
    | Some (st', Ok a) =>
        let '(t2, o2) := run (f a st') (drop (length t1) answers) in
        (t1 ++ t2, o2)
    | Some (st', Throw e) => (t1, Some (st', Throw e))
    end.
Proof.
  unfold mbind, prog_bind. rewrite run_io_bind.
  destruct (run (m st) answers) as [t1 [[st' [a|e]]|]]; try reflexivity.
  cbn. by rewrite app_nil_r.
Qed.

Lemma run_tryCatchP {A} (m : prog A) (h : error -> prog A) st answers :
  run (tryCatchP m h st) answers
  = let '(t1, o1) := run (m st) answers in
    match o1 with
    | None => (t1, None)
    | Some (st', Ok a) => (t1, Some (st', Ok a))
    | Some (st', Throw e) =>
        let '(t2, o2) := run (h e st') (drop (length t1) answers) in
        (t1 ++ t2, o2)
    end.
Proof.
  unfold tryCatchP. rewrite run_io_bind.
  destruct (run (m st) answers) as [t1 [[st' [a|e]]|]]; try reflexivity.
  cbn. by rewrite app_nil_r.
Qed.

(** C10, the code at the failing input.  Ann has no file yet:
    [ensureMyFileExists] creates it with all its fields; the read of the
    body that follows is answered with status 500, and [upsertMyReactions]
    goes on with an empty text: the second body it writes to the file
    holds the reactions line alone, and none of the lines of the first. *)
Theorem reactions_overwrite_record_on_failed_read :
  let r := run (upsertMyReactions sampleParse sampleStringify
                  (TEAM_NAME CONFIG_DEFAULTS) CONFIG_DEFAULTS annPage initialState)
             [answer 404 (str "Not Found"); answer 404 (str "Not Found");
              answer 201 (str "Created");
              answer 500 (str "Internal Server Error");
              found (str "v1"); answer 200 (str "OK")] in
  Ok (writtenBodies r.1)
  = (first ← buildContentVars
               (Payload.Make (str "GNT SLT") (str "Ann") (str "2026-01-01") 0 0
                  (Some []) (str "2026-01-01T09:00:00.000Z"));
     Ok [first; [LF] ++ str "REACTIONS_B64=" ++ [DQUOTE] ++ str "e30=" ++ [DQUOTE]])
  /\ snd <$> r.2 = Some (Ok ()).
Proof. vm_compute. split; reflexivity. Qed.

Lemma run_lift_bind {A B} (r : result A) (f : A -> prog B) st answers :
  run ((lift r ≫= f) st) answers
  = match r with
    | Ok a => run (f a st) answers
    | Throw e => ([], Some (st, Throw e))
    end.
Proof. destruct r; reflexivity. Qed.

Lemma run_getState_bind {B} (f : State -> prog B) st answers :
  run ((getState ≫= f) st) answers = run (f st st) answers.
Proof. reflexivity. Qed.

Section ReactionRun.

Variable JSON_parse : jsstring -> result value.
Variable JSON_stringify : value -> jsstring.
Variables (defaultTeam : jsstring) (cfg : Config) (pg : Page).
Variables (enc gpath : jsstring).

Let file := filePathFor (TEAM_NAME cfg) (pageName pg) (pageSession pg) cfg.

Hypothesis Hname : pageName pg ≠ [].
Hypothesis Henc : encodeURIComponent file = Ok enc.
Hypothesis Hpath : contentsPathRef cfg file = Ok gpath.

(** [ensureMyFileExists] when the file is there: one request. *)
Lemma run_ensureMyFileExists_found st a1 rest m1 :
  metaOf a1 = Ok (Some m1) ->
  run (ensureMyFileExists cfg pg st) (a1 :: rest)
  = ([metaRequest gpath], Some (st, Ok file)).
Proof.
  intros Hm1. unfold ensureMyFileExists.
  rewrite bool_decide_eq_false_2 by exact Hname.
  rewrite (run_bind_oneCall _ _ _ _ st a1 rest
             (oneCall_ghGetContentsMeta cfg file gpath Hpath)).
  rewrite Hm1. reflexivity.
Qed.

(** The reaction write when the file is there and its body is read: every
    write of the run carries the body read with the reactions line set or
    added, and nothing else. *)
Lemma run_upsertMyReactions_read st a1 a2 a3 a4 a5 a6 rest m1 st2 text bt
    encoded c :
  metaOf a1 = Ok (Some m1) ->
  run (readFileContent cfg file st) (a2 :: a3 :: a4 :: a5 :: a6 :: rest)
  = ([readRequest gpath (cache_files st !! gpath ≫= fe_etag)],
     Some (st2, Ok text)) ->
  clone JSON_parse JSON_stringify (by_target (myReactions st2)) = Ok bt ->
  toBase64 (JSON_stringify
              (VObj (<[str "updated_at" := VStr (nowIso pg)]>
                       (<[str "by_target" := bt]> ∅)))) = Ok encoded ->
  toBase64 (withReactions text encoded) = Ok c ->
  forall q,
    q ∈ (run (upsertMyReactions JSON_parse JSON_stringify defaultTeam cfg pg st)
           (a1 :: a2 :: a3 :: a4 :: a5 :: a6 :: rest)).1 ->
    isPut q = true ->
    b_content <$> q_body q = Some c.
Proof.
  intros Hm1 Hread Hclone Hencoded Hc q.
  unfold upsertMyReactions, myBaseForCurrent.
  rewrite bool_decide_eq_false_2 by exact Hname.
  rewrite run_mbind, (run_ensureMyFileExists_found st a1 _ m1 Hm1).
  cbn [length drop]. rewrite run_mbind, run_tryCatchP. fold file. rewrite Hread.
  cbn [length drop]. rewrite run_getState_bind, run_lift_bind, Hclone.
  rewrite run_lift_bind, Hencoded. rewrite run_mbind.
  rewrite (run_writeFileOverwriteStrict cfg file _ _ enc c gpath Henc Hpath Hc).
  set (P := putRequest cfg (unescapeSlashes enc) _ c).
  assert (forall s, b_content <$> q_body (P s) = Some c) as HP by reflexivity.
  write_cases a3 a4 a5; try destruct (putResult a6) as [?v6|?e6];
    cbn [run mret prog_ret length drop app fst snd];
    intros Hq Hput;
    repeat (apply elem_of_cons in Hq as [->|Hq];
            [first [discriminate Hput | apply HP]|]);
    by apply elem_of_nil in Hq.
Qed.

End ReactionRun.

(** The reaction write on its success path: when the file is there and
    its body is read as [text], every write of the run carries, in base64,
    the lines of [text] joined by line feeds, with the first reactions
    line replaced by the new one, or the new one added at the end; every
    other line of [text] is there at its own index, unchanged. *)
Theorem reaction_write_carries_lines JSON_parse JSON_stringify defaultTeam cfg
    pg enc gpath st a1 a2 a3 a4 a5 a6 rest m1 st2 text bt encoded c :
  let file := filePathFor (TEAM_NAME cfg) (pageName pg) (pageSession pg) cfg in
  let line := str "REACTIONS_B64=" ++ [DQUOTE] ++ encoded ++ [DQUOTE] in
  pageName pg ≠ [] ->
  encodeURIComponent file = Ok enc ->
  contentsPathRef cfg file = Ok gpath ->
  metaOf a1 = Ok (Some m1) ->
  run (readFileContent cfg file st) (a2 :: a3 :: a4 :: a5 :: a6 :: rest)
  = ([readRequest gpath (cache_files st !! gpath ≫= fe_etag)],
     Some (st2, Ok text)) ->
  clone JSON_parse JSON_stringify (by_target (myReactions st2)) = Ok bt ->
  toBase64 (JSON_stringify
              (VObj (<[str "updated_at" := VStr (nowIso pg)]>
                       (<[str "by_target" := bt]> ∅)))) = Ok encoded ->
  toBase64 (withReactions text encoded) = Ok c ->
  (forall q,
     q ∈ (run (upsertMyReactions JSON_parse JSON_stringify defaultTeam cfg pg st)
            (a1 :: a2 :: a3 :: a4 :: a5 :: a6 :: rest)).1 ->
     isPut q = true -> b_content <$> q_body q = Some c)
  /\ withReactions text encoded = join [LF] (setOrPush (splitLines text) line)
  /\ (forall i l,
        splitLines text !! i = Some l ->
        findIndex isReactionsLine (splitLines text) ≠ Some i ->
        setOrPush (splitLines text) line !! i = Some l)
  /\ (forall idx,
        findIndex isReactionsLine (splitLines text) = Some idx ->
        setOrPush (splitLines text) line !! idx = Some line
        /\ length (setOrPush (splitLines text) line) = length (splitLines text))
  /\ (findIndex isReactionsLine (splitLines text) = None ->
        setOrPush (splitLines text) line = splitLines text ++ [line]).
Proof.
  intros file line Hname Henc Hpath Hm1 Hread Hclone Hencoded Hc.
  split.
  - by apply (run_upsertMyReactions_read JSON_parse JSON_stringify defaultTeam
                cfg pg enc gpath Hname Henc Hpath st a1 a2 a3 a4 a5 a6 rest m1
                st2 text bt encoded c).
  - split; [reflexivity|]. apply setOrPush_frame.
Qed.

Lemma reaction_write_carries_lines_witness :
  pageName annPage ≠ []
  /\ Forall (fun q => isPut q = true ->
                      b_content <$> q_body q
                      = Some (str "VEVBTT14ClJFQUNUSU9OU19CNjQ9ImUzMD0iCk5BTUU9eQ=="))
       (run (upsertMyReactions sampleParse sampleStringify
               (TEAM_NAME CONFIG_DEFAULTS) CONFIG_DEFAULTS annPage initialState)
            [found (str "v1"); fileAnswer annBody (str "v1"); found (str "v1");
             answer 200 (str "OK"); answer 200 (str "OK"); answer 200 (str "OK")]).1.
Proof.
  assert (pageName annPage ≠ []) as Hname by discriminate.
  split; [exact Hname|].
  apply Forall_forall.
  refine (proj1 (reaction_write_carries_lines sampleParse sampleStringify
                (TEAM_NAME CONFIG_DEFAULTS) CONFIG_DEFAULTS annPage
                (str "roundtable%2FGNT%20SLT%20--%20Ann%20--%202026-01-01.txt")
                annKey initialState
                (found (str "v1")) (fileAnswer annBody (str "v1"))
                (found (str "v1")) (answer 200 (str "OK"))
                (answer 200 (str "OK")) (answer 200 (str "OK")) []
                {| sha := VStr (str "v1"); size := VUndefined; path := VUndefined |}
                (setCacheFiles
                   {[ annKey := {| fe_etag := Some (str "W/2"); fe_text := annBody;
                                   fe_sha := VStr (str "v1") |} ]} initialState)
                annBody (VObj ∅) (str "e30=")
                (str "VEVBTT14ClJFQUNUSU9OU19CNjQ9ImUzMD0iCk5BTUU9eQ==")
                Hname _ _ _ _ _ _ _)).
  all: cbv zeta; reflexivity.
Defined.

(** ** The record codec: the round trip *)

(** *** Lines *)

Lemma noLF_app a b : noLF (a ++ b) = noLF a && noLF b.
Proof. apply forallb_app. Qed.

Lemma splitLines_line l rest :
  noLF l = true -> last l ≠ Some CR ->
  splitLines (l ++ LF :: rest) = l :: splitLines rest.
Proof.
  induction l as [|c l IH]; intros Hl Hlast.
  - reflexivity.
  - cbn in Hl. apply andb_prop in Hl as [Hc Hl].
    apply negb_true_iff in Hc. cbn [app splitLines]. rewrite Hc.
    destruct l as [|d l'].
    + cbn [app]. assert ((c =? CR)%N = false) as ->.
      { apply N.eqb_neq. intros ->. by apply Hlast. }
      cbn. reflexivity.
    + assert ((d =? LF)%N = false) as Hd.
      { cbn in Hl. apply andb_prop in Hl as [Hd _]. by apply negb_true_iff in Hd. }
      change ((d :: l') ++ LF :: rest) with (d :: (l' ++ LF :: rest)).
      cbv iota beta. rewrite Hd, andb_false_r.
      change (d :: (l' ++ LF :: rest)) with ((d :: l') ++ LF :: rest).
      rewrite IH; [reflexivity|exact Hl|].
      by rewrite last_cons_cons in Hlast.
Qed.

(** *** Trimming and slicing *)

Lemma trimStart_noop c s : isWhiteSpace c = false -> trimStart (c :: s) = c :: s.
Proof. intros H. cbn. by rewrite H. Qed.

Lemma trimEnd_noop s d : isWhiteSpace d = false -> trimEnd (s ++ [d]) = s ++ [d].
Proof.
  intros H. unfold trimEnd. rewrite rev_app_distr. cbn [rev app].
  rewrite trimStart_noop by exact H.
  change (d :: rev s) with ([d] ++ rev s).
  by rewrite rev_app_distr, rev_involutive.
Qed.

Lemma trim_noop c s d :
  isWhiteSpace c = false -> isWhiteSpace d = false ->
  trim (c :: s ++ [d]) = c :: s ++ [d].
Proof.
  intros Hc Hd. unfold trim. rewrite trimStart_noop by exact Hc.
  change (c :: s ++ [d]) with ((c :: s) ++ [d]). by apply trimEnd_noop.
Qed.

Lemma trim_noop_single c : isWhiteSpace c = false -> trim [c] = [c].
Proof. intros H. unfold trim, trimEnd. cbn. rewrite H. cbn. by rewrite H. Qed.

Lemma indexOf_app c k rest :
  forallb (fun d => negb (d =? c)%N) k = true ->
  indexOf c (k ++ c :: rest) = Some (length k).
Proof.
  induction k as [|d k IH]; cbn.
  - by rewrite N.eqb_refl.
  - intros [Hd Hk]%andb_prop. apply negb_true_iff in Hd. rewrite Hd, IH by exact Hk.
    reflexivity.
Qed.

Lemma slice_prefix k rest :
  slice (k ++ rest) 0 (Some (Z.of_nat (length k))) = k.
Proof.
  unfold slice, relIndex. rewrite length_app.
  replace (0 <? 0)%Z with false by reflexivity.
  rewrite (proj2 (Z.ltb_ge (Z.of_nat (length k)) 0)) by lia.
  rewrite Z.min_l, Z.min_l by lia.
  replace (Z.to_nat (Z.max (Z.of_nat (length k) - 0) 0)) with (length k) by lia.
  change (Z.to_nat 0) with 0%nat. rewrite drop_0. by rewrite take_app_length.
Qed.

Lemma slice_suffix k c rest :
  slice (k ++ c :: rest) (Z.of_nat (length k) + 1) None = rest.
Proof.
  unfold slice, relIndex. rewrite length_app. cbn [length].
  rewrite (proj2 (Z.ltb_ge (Z.of_nat (length k) + 1) 0)) by lia.
  rewrite Z.min_l by lia.
  replace (Z.to_nat (Z.of_nat (length k) + 1)) with (S (length k)) by lia.
  replace (k ++ c :: rest) with ((k ++ [c]) ++ rest) by by rewrite <- app_assoc.
  replace (S (length k)) with (length (k ++ [c])) by (rewrite length_app; cbn; lia).
  rewrite drop_app_length. apply take_ge. lia.
Qed.

Lemma slice_inner c t d : slice (c :: t ++ [d]) 1 (Some (-1)%Z) = t.
Proof.
  unfold slice, relIndex. cbn [length]. rewrite length_app. cbn [length].
  replace (1 <? 0)%Z with false by reflexivity.
  replace (-1 <? 0)%Z with true by reflexivity.
  rewrite Z.min_l, Z.max_l by lia.
  replace (Z.to_nat 1) with 1%nat by reflexivity.
  change (drop 1 (c :: t ++ [d])) with (t ++ [d]).
  replace (Z.to_nat _) with (length t) by lia.
  by rewrite take_app_length.
Qed.

Lemma unquote_quoted t : unquote (DQUOTE :: t ++ [DQUOTE]) = t.
Proof.
  unfold unquote.
  assert (endsWith [DQUOTE] (DQUOTE :: t ++ [DQUOTE]) = true) as ->.
  { unfold endsWith. change (DQUOTE :: t ++ [DQUOTE]) with ((DQUOTE :: t) ++ [DQUOTE]).
    rewrite rev_app_distr. reflexivity. }
  cbn. apply slice_inner.
Qed.

Lemma trim_ends s :
  match s with c :: _ => isWhiteSpace c | [] => false end = false ->
  match last s with Some d => isWhiteSpace d | None => false end = false ->
  trim s = s.
Proof.
  destruct s as [|c s]; [reflexivity|]. intros Hc Hd.
  destruct s as [|c' s'] using rev_ind.
  - by apply trim_noop_single.
  - rewrite app_comm_cons, last_snoc in Hd. by apply trim_noop.
Qed.

Lemma last_quoted k t : last (k ++ DQUOTE :: t ++ [DQUOTE]) = Some DQUOTE.
Proof.
  change (k ++ DQUOTE :: t ++ [DQUOTE]) with (k ++ (DQUOTE :: t) ++ [DQUOTE]).
  by rewrite app_assoc, last_snoc.
Qed.

(** A line [KEY="value"] gives its key and its value. *)
Lemma keyValue_quoted key t :
  match key with c :: _ => isWhiteSpace c || (c =? HASH)%N | [] => true end = false ->
  match last key with Some d => isWhiteSpace d | None => true end = false ->
  forallb (fun d => negb (d =? EQUALS)%N) key = true ->
  toUpperCase key = key ->
  keyValue (key ++ EQUALS :: DQUOTE :: t ++ [DQUOTE]) = Some (key, t).
Proof.
  intros Hhead Hlast Heq Hup. unfold keyValue.
  destruct key as [|c key]; [done|]. apply orb_false_elim in Hhead as [Hws Hhash].
  rewrite trim_ends.
  2: { exact Hws. }
  2: { change (EQUALS :: DQUOTE :: t ++ [DQUOTE])
         with ([EQUALS] ++ DQUOTE :: t ++ [DQUOTE]).
       by rewrite app_assoc, last_quoted. }
  cbn [app startsWith]. rewrite N.eqb_sym, Hhash.
  rewrite bool_decide_eq_false_2 by discriminate. cbn [orb andb].
  change (c :: key ++ EQUALS :: DQUOTE :: t ++ [DQUOTE])
    with ((c :: key) ++ EQUALS :: DQUOTE :: t ++ [DQUOTE]).
  rewrite indexOf_app by exact Heq.
  rewrite slice_prefix, slice_suffix.
  rewrite (trim_ends (c :: key)).
  2: { exact Hws. }
  2: { destruct (last (c :: key)); [exact Hlast|discriminate]. }
  rewrite Hup.
  rewrite (trim_ends (DQUOTE :: t ++ [DQUOTE])).
  2: { reflexivity. }
  2: { pose proof (last_quoted [] t) as H. cbn [app] in H. by rewrite H. }
  by rewrite unquote_quoted.
Qed.

(** *** Base64 *)

(** Settles the comparisons of the goal whose outcome [lia] can tell. *)
Ltac settle :=
  repeat match goal with
    | |- context [(?a <=? ?b)%N] =>
        first [ rewrite (proj2 (N.leb_le a b)) by lia
              | rewrite (proj2 (N.leb_gt a b)) by lia ]
    | |- context [(?a <? ?b)%N] =>
        first [ rewrite (proj2 (N.ltb_lt a b)) by lia
              | rewrite (proj2 (N.ltb_ge a b)) by lia ]
    | |- context [(?a =? ?b)%N] =>
        first [ rewrite (proj2 (N.eqb_eq a b)) by lia
              | rewrite (proj2 (N.eqb_neq a b)) by lia ]
    end;
  cbn [andb orb negb].

Lemma list_ind3 {A} (P : list A -> Prop) :
  P [] -> (forall a, P [a]) -> (forall a b, P [a; b]) ->
  (forall a b c l, P l -> P (a :: b :: c :: l)) ->
  forall l, P l.
Proof.
  intros H0 H1 H2 H3 l.
  assert (P l /\ (forall a, P (a :: l)) /\ (forall a b, P (a :: b :: l))) as [H _].
  { induction l as [|x l (IH0 & IH1 & IH2)]; [by repeat split|].
    split; [apply IH1|]. split; [intros a; apply IH2|]. intros a b. by apply H3. }
  exact H.
Qed.

Lemma b64val_b64char x : (x < 64)%N -> b64val (b64char x) = Some x.
Proof.
  intros Hx. unfold b64char.
  destruct (N.ltb_spec x 26); [unfold b64val; settle; f_equal; lia|].
  destruct (N.ltb_spec x 52); [unfold b64val; settle; f_equal; lia|].
  destruct (N.ltb_spec x 62); [unfold b64val; settle; f_equal; lia|].
  destruct (N.eqb_spec x 62); [subst; reflexivity|].
  assert (x = 63%N) as -> by lia. reflexivity.
Qed.

Lemma b64char_plain x :
  isAsciiWhitespace (b64char x) = false /\ b64char x ≠ EQUALS /\ b64char x ≠ LF.
Proof.
  unfold b64char, isAsciiWhitespace, EQUALS, LF.
  destruct (N.ltb_spec x 26); [settle; repeat split; lia|].
  destruct (N.ltb_spec x 52); [settle; repeat split; lia|].
  destruct (N.ltb_spec x 62); [settle; repeat split; lia|].
  destruct (N.eqb_spec x 62); by repeat split.
Qed.

Lemma sextets_lt l :
  Forall (fun b => b < 256)%N l -> Forall (fun x => x < 64)%N (sextets l).
Proof.
  induction l as [|a|a b|a b c l IH] using list_ind3; intros Hl; cbn [sextets].
  - constructor.
  - apply Forall_cons in Hl as [Ha _]. repeat constructor; lia.
  - apply Forall_cons in Hl as [Ha [Hb _]%Forall_cons]. repeat constructor; lia.
  - apply Forall_cons in Hl as [Ha [Hb [Hc Hl]%Forall_cons]%Forall_cons].
    cbn [app]. repeat (constructor; [lia|]). by apply IH.
Qed.

Lemma octets_sextets l :
  Forall (fun b => b < 256)%N l -> octets (sextets l) = l.
Proof.
  induction l as [|a|a b|a b c l IH] using list_ind3; intros Hl; cbn [sextets].
  - reflexivity.
  - apply Forall_cons in Hl as [Ha _]. cbn. f_equal. lia.
  - apply Forall_cons in Hl as [Ha [Hb _]%Forall_cons]. cbn.
    f_equal; [lia|]. f_equal. lia.
  - apply Forall_cons in Hl as [Ha [Hb [Hc Hl]%Forall_cons]%Forall_cons].
    cbn [app octets]. rewrite IH by exact Hl.
    f_equal; [lia|]. f_equal; [lia|]. f_equal. lia.
Qed.

Lemma mapM_b64val xs :
  Forall (fun x => x < 64)%N xs -> mapM b64val (map b64char xs) = Some xs.
Proof.
  induction 1 as [|x xs Hx _ IH]; [reflexivity|].
  cbn. rewrite b64val_b64char by exact Hx. cbn.
  change (mapM b64val (map b64char xs)) with (mapM b64val (map b64char xs)).
  by rewrite IH.
Qed.

Lemma mod3_SSS n : (S (S (S n)) mod 3 = n mod 3)%nat.
Proof. replace (S (S (S n))) with (n + 1 * 3)%nat by lia. apply Nat.Div0.mod_add. Qed.

Lemma mod4_SSSS n : (S (S (S (S n))) mod 4 = n mod 4)%nat.
Proof.
  replace (S (S (S (S n)))) with (n + 1 * 4)%nat by lia. apply Nat.Div0.mod_add.
Qed.

Lemma length_sextets l :
  (length (sextets l) + (3 - length l mod 3) mod 3) mod 4 = 0%nat
  /\ length (sextets l) mod 4 ≠ 1%nat.
Proof.
  induction l as [|a|a b|a b c l [IH1 IH2]] using list_ind3; cbn [sextets length app].
  - by split.
  - by split.
  - by split.
  - rewrite mod3_SSS. cbn [Nat.add]. by rewrite !mod4_SSSS.
Qed.

Lemma filter_plain xs k :
  List.filter (fun c => negb (isAsciiWhitespace c))
    (map b64char xs ++ repeat EQUALS k)
  = map b64char xs ++ repeat EQUALS k.
Proof.
  induction xs as [|x xs IH]; cbn [map app List.filter].
  - induction k as [|k IH]; [reflexivity|]. cbn. by rewrite IH.
  - destruct (b64char_plain x) as (-> & _). cbn [negb]. by rewrite IH.
Qed.

Lemma stripPadding_padded xs k :
  (k <= 2)%nat ->
  stripPadding (map b64char xs ++ repeat EQUALS k) = map b64char xs.
Proof.
  intros Hk.
  assert (forall x r, rev (map b64char xs) = x :: r -> (x =? EQUALS)%N = false)
    as Hlast.
  { destruct xs as [|y ys] using rev_ind; [discriminate|].
    rewrite map_app, rev_app_distr. cbn. intros x r [= <- _].
    apply N.eqb_neq. apply b64char_plain. }
  unfold stripPadding. rewrite rev_app_distr, rev_repeat.
  destruct k as [|[|[|k]]]; [| | |lia]; cbn [repeat app].
  - rewrite app_nil_r. destruct (rev (map b64char xs)) as [|p [|q r]] eqn:Hrev.
    + reflexivity.
    + by rewrite (Hlast p []).
    + by rewrite (Hlast p (q :: r)).
  - rewrite N.eqb_refl. destruct (rev (map b64char xs)) as [|q r] eqn:Hrev.
    + apply (f_equal (@rev N)) in Hrev. rewrite rev_involutive in Hrev.
      by rewrite Hrev.
    + rewrite (Hlast q r eq_refl). rewrite <- Hrev. by rewrite rev_involutive.
  - rewrite !N.eqb_refl. by rewrite rev_involutive.
Qed.

(** [atob] undoes [btoa]. *)
Lemma atob_btoa l :
  Forall (fun b => b < 256)%N l ->
  exists b64, btoa l = Ok b64 /\ atob b64 = Ok l /\ noLF b64 = true.
Proof.
  intros Hl. unfold btoa.
  assert (forallb (fun c => c <? 256)%N l = true) as ->.
  { apply forallb_forall. intros c Hc%list_elem_of_In.
    rewrite Forall_forall in Hl. apply N.ltb_lt. by apply Hl. }
  eexists. split; [reflexivity|]. split.
  - unfold atob, padding. rewrite filter_plain.
    destruct (length_sextets l) as [Hlen Hne].
    rewrite length_app, repeat_length.
    rewrite length_map. rewrite Hlen. cbn [Nat.eqb].
    rewrite stripPadding_padded
      by (pose proof (Nat.mod_upper_bound (3 - length l mod 3) 3); lia).
    rewrite length_map.
    destruct (Nat.eqb_spec (length (sextets l) mod 4) 1); [done|].
    rewrite mapM_b64val by by apply sextets_lt.
    by rewrite octets_sextets.
  - unfold padding. rewrite noLF_app. apply andb_true_intro. split.
    + apply forallb_forall. intros c (x & <- & _)%in_map_iff.
      apply negb_true_iff, N.eqb_neq. apply b64char_plain.
    + apply forallb_forall. intros c ->%repeat_spec. reflexivity.
Qed.

(** *** UTF-8 *)

Lemma fmap_result_Ok {A B} (f : A -> B) (m : result A) a :
  m = Ok a -> f <$> m = Ok (f a).
Proof. by intros ->. Qed.

(** The octets of a well-formed string decode to it. *)
Lemma utf8_roundtrip s :
  wellFormed s = true ->
  exists bytes,
    utf8Encode s = Ok bytes
    /\ Forall (fun b => b < 256)%N bytes
    /\ utf8Decode bytes = Ok s.
Proof.
  remember (length s) as n eqn:Hn. revert s Hn.
  induction n as [n IH] using lt_wf_ind. intros s Hn Hwf.
  destruct s as [|c r]; [exists []; by repeat split|].
  cbn [wellFormed] in Hwf. apply andb_prop in Hwf as [Hc Hwf].
  apply N.ltb_lt in Hc. cbn [utf8Encode].
  destruct (N.ltb_spec c 0x80) as [H1|H1].
  { (* one octet *)
    assert (isHighSurrogate c = false) as Hhi by (unfold isHighSurrogate; settle; done).
    rewrite Hhi in Hwf. apply andb_prop in Hwf as [_ Hwf].
    destruct (IH (length r) ltac:(subst n; cbn; lia) r eq_refl Hwf)
      as (bytes & Henc & Hlt & Hdec).
    exists (c :: bytes). rewrite Henc. split; [reflexivity|].
    split; [constructor; [lia|exact Hlt]|].
    cbn [utf8Decode]. settle. by rewrite Hdec. }
  destruct (N.ltb_spec c 0x800) as [H2|H2].
  { (* two octets *)
    assert (isHighSurrogate c = false) as Hhi by (unfold isHighSurrogate; settle; done).
    rewrite Hhi in Hwf. apply andb_prop in Hwf as [_ Hwf].
    destruct (IH (length r) ltac:(subst n; cbn; lia) r eq_refl Hwf)
      as (bytes & Henc & Hlt & Hdec).
    eexists. rewrite Henc. split; [reflexivity|].
    split; [cbn [app]; repeat (constructor; [lia|]); exact Hlt|].
    cbn [app utf8Decode]. unfold isCont. settle. rewrite Hdec. cbn.
    f_equal. f_equal. lia. }
  destruct (isHighSurrogate c) eqn:Hhi.
  { (* a surrogate pair: four octets *)
    destruct r as [|d r']; [discriminate|].
    apply andb_prop in Hwf as [[Hlo Hd]%andb_prop Hwf]. rewrite Hlo.
    apply N.ltb_lt in Hd.
    unfold isHighSurrogate in Hhi. apply andb_prop in Hhi as [Hc1 Hc2].
    apply N.leb_le in Hc1. apply N.ltb_lt in Hc2.
    unfold isLowSurrogate in Hlo. apply andb_prop in Hlo as [Hd1 Hd2].
    apply N.leb_le in Hd1. apply N.ltb_lt in Hd2.
    destruct (IH (length r') ltac:(subst n; cbn; lia) r' eq_refl Hwf)
      as (bytes & Henc & Hlt & Hdec).
    cbv zeta. set (cp := (0x10000 + (c - 0xD800) * 1024 + (d - 0xDC00))%N).
    assert (0x10000 <= cp <= 0x10FFFF)%N as Hcp by (subst cp; lia).
    assert (0xD800 + (cp - 0x10000) / 1024 = c)%N as Hhigh by (subst cp; lia).
    assert (0xDC00 + (cp - 0x10000) mod 1024 = d)%N as Hlow by (subst cp; lia).
    clearbody cp. clear Hc Hd Hc1 Hc2 Hd1 Hd2 H1 H2.
    eexists. rewrite Henc. split; [reflexivity|].
    split; [cbn [app]; repeat (constructor; [lia|]); exact Hlt|].
    cbn [app utf8Decode]. unfold isCont. cbv zeta.
    assert ((0xF0 + cp / 262144 - 0xF0) * 262144
            + (0x80 + cp / 4096 mod 64 - 0x80) * 4096
            + (0x80 + cp / 64 mod 64 - 0x80) * 64
            + (0x80 + cp mod 64 - 0x80) = cp)%N as -> by lia.
    settle. rewrite Hdec, Hhigh, Hlow. reflexivity. }
  (* three octets *)
  apply andb_prop in Hwf as [Hlo Hwf]. apply negb_true_iff in Hlo. rewrite Hlo.
  assert (c < 0xD800 \/ 0xE000 <= c)%N as Hrange.
  { unfold isHighSurrogate, isLowSurrogate in Hhi, Hlo.
    destruct (N.leb_spec 0xD800 c), (N.ltb_spec c 0xDC00),
      (N.leb_spec 0xDC00 c), (N.ltb_spec c 0xE000); cbn in Hhi, Hlo;
      try discriminate; lia. }
  destruct (IH (length r) ltac:(subst n; cbn; lia) r eq_refl Hwf)
    as (bytes & Henc & Hlt & Hdec).
  eexists. rewrite Henc. split; [reflexivity|].
  split; [cbn [app]; repeat (constructor; [lia|]); exact Hlt|].
  cbn [app utf8Decode]. unfold isCont. cbv zeta.
  assert ((0xE0 + c / 4096 - 0xE0) * 4096 + (0x80 + c / 64 mod 64 - 0x80) * 64
          + (0x80 + c mod 64 - 0x80) = c)%N as -> by lia.
  settle.
  destruct Hrange as [Hr|Hr]; settle; by rewrite Hdec.
Qed.

(** [fromBase64] undoes [toBase64] on well-formed text, and the encoded
    text has no line feed. *)
Lemma fromBase64_toBase64 s :
  wellFormed s = true ->
  exists b64, toBase64 s = Ok b64 /\ fromBase64 b64 = s /\ noLF b64 = true.
Proof.
  intros Hwf. destruct (utf8_roundtrip s Hwf) as (bytes & Henc & Hlt & Hdec).
  destruct (atob_btoa bytes Hlt) as (b64 & Hbtoa & Hatob & Hnolf).
  exists b64. unfold toBase64, fromBase64. rewrite Henc. cbn.
  split; [exact Hbtoa|]. split; [|exact Hnolf].
  rewrite Hatob. cbn. rewrite Hdec. reflexivity.
Qed.

(** *** The lines of a record *)

Lemma splitLines_join ls :
  ls ≠ [] ->
  Forall (fun l => noLF l = true /\ last l ≠ Some CR) ls ->
  splitLines (join [LF] ls ++ [LF]) = ls ++ [[]].
Proof.
  induction ls as [|l ls IH]; [done|]. intros _ [[Hl Hlast] Hls]%Forall_cons.
  destruct ls as [|l' ls'].
  - cbn [join app]. by rewrite splitLines_line.
  - change (join [LF] (l :: l' :: ls')) with (l ++ [LF] ++ join [LF] (l' :: ls')).
    rewrite <- !app_assoc. cbn [app].
    rewrite splitLines_line by assumption. by rewrite IH.
Qed.

Lemma rating_line z :
  (0 <= z <= 10)%Z ->
  keyValue (str "FEELING=" ++ NumberToString z)
  = Some (str "FEELING", NumberToString z)
  /\ keyValue (str "PRODUCTIVITY=" ++ NumberToString z)
     = Some (str "PRODUCTIVITY", NumberToString z)
  /\ Number (NumberToString z) = numOfZ z
  /\ noLF (NumberToString z) = true
  /\ last (str "FEELING=" ++ NumberToString z) ≠ Some CR
  /\ last (str "PRODUCTIVITY=" ++ NumberToString z) ≠ Some CR.
Proof.
  intros Hz.
  assert (z = 0 \/ z = 1 \/ z = 2 \/ z = 3 \/ z = 4 \/ z = 5 \/ z = 6 \/ z = 7
          \/ z = 8 \/ z = 9 \/ z = 10)%Z as H by lia.
  repeat (destruct H as [->|H]; [by vm_compute|]). subst z. by vm_compute.
Qed.

Lemma quoted_line key t :
  noLF key = true -> noLF t = true ->
  noLF (key ++ EQUALS :: DQUOTE :: t ++ [DQUOTE]) = true
  /\ last (key ++ EQUALS :: DQUOTE :: t ++ [DQUOTE]) ≠ Some CR.
Proof.
  intros Hk Ht. split.
  - rewrite noLF_app, Hk. cbn. by rewrite noLF_app, Ht.
  - change (EQUALS :: DQUOTE :: t ++ [DQUOTE])
      with ([EQUALS] ++ DQUOTE :: t ++ [DQUOTE]).
    by rewrite app_assoc, last_quoted.
Qed.

Lemma parseLine_keyValue JSON_parse out raw key val :
  keyValue raw = Some (key, val) ->
  parseLine JSON_parse out raw = assign JSON_parse key val out.
Proof. unfold parseLine. by intros ->. Qed.

Lemma assign_TEAM JSON_parse v out :
  assign JSON_parse (str "TEAM") v out = Ok (setTeam v out).
Proof. reflexivity. Qed.

Lemma assign_NAME JSON_parse v out :
  assign JSON_parse (str "NAME") v out = Ok (setName v out).
Proof. reflexivity. Qed.

Lemma assign_SESSION JSON_parse v out :
  assign JSON_parse (str "SESSION") v out = Ok (setSession v out).
Proof. reflexivity. Qed.

Lemma assign_FEELING JSON_parse v out :
  assign JSON_parse (str "FEELING") v out
  = Ok (setFeeling (orNull (Number v)) out).
Proof. reflexivity. Qed.

Lemma assign_PRODUCTIVITY JSON_parse v out :
  assign JSON_parse (str "PRODUCTIVITY") v out
  = Ok (setProductivity (orNull (Number v)) out).
Proof. reflexivity. Qed.

Lemma assign_UPDATED_AT JSON_parse v out :
  assign JSON_parse (str "UPDATED_AT") v out = Ok (setUpdatedAt v out).
Proof. reflexivity. Qed.

Lemma assign_UPDATE_B64 JSON_parse v out :
  assign JSON_parse (str "UPDATE_B64") v out = Ok (setUpdate (fromBase64 v) out).
Proof. reflexivity. Qed.

Lemma parseLine_blank JSON_parse out : parseLine JSON_parse out [] = Ok out.
Proof. reflexivity. Qed.

Lemma orNull_rating z : (1 <= z <= 10)%Z -> orNull (numOfZ z) = Some (numOfZ z).
Proof.
  intros Hz. unfold orNull, numOfZ, numberTruthy, roundsToZero.
  rewrite (proj2 (N.eqb_neq (Z.abs_N z) 0)) by lia. reflexivity.
Qed.

(** C1 (amended).  For every payload whose team, name, session and
    timestamp hold no line feed, whose ratings are integers from 1 to 10,
    and whose update text is well-formed UTF-16 (with any delimiter, quote
    or line break in it), [buildContentVars] returns a body that
    [parseContentVars] decodes to the same team, name, session, ratings,
    update text and timestamp.  The reaction state is not part of the
    encoding: the decoded record has the empty reaction state. *)
Theorem codec_round_trip JSON_parse p :
  noLF (Payload.team p) = true ->
  noLF (Payload.name p) = true ->
  noLF (Payload.session p) = true ->
  noLF (Payload.timestamp p) = true ->
  (1 <= Payload.feeling p <= 10)%Z ->
  (1 <= Payload.productivity p <= 10)%Z ->
  wellFormed (default [] (Payload.update p)) = true ->
  exists text,
    buildContentVars p = Ok text
    /\ parseContentVars JSON_parse text
       = Ok {| team := Payload.team p;
               name := Payload.name p;
               session := Payload.session p;
               feeling := Some (numOfZ (Payload.feeling p));
               productivity := Some (numOfZ (Payload.productivity p));
               update := default [] (Payload.update p);
               updated_at := Payload.timestamp p;
               reactions := Some noReactions |}.
Proof.
  intros Hteam Hname Hsession Hstamp Hf Hp Hwf.
  destruct (fromBase64_toBase64 _ Hwf) as (b64 & Henc & Hdec & Hb64).
  destruct (rating_line (Payload.feeling p) ltac:(lia))
    as (Hkf & _ & Hnf & Hlf & Hcf & _).
  destruct (rating_line (Payload.productivity p) ltac:(lia))
    as (_ & Hkp & Hnp & Hlp & _ & Hcp).
  unfold buildContentVars. rewrite Henc. cbn [mbind result_bind].
  eexists. split; [reflexivity|].
  assert (forall k t, (k ++ [EQUALS]) ++ [DQUOTE] ++ t ++ [DQUOTE]
                      = k ++ EQUALS :: DQUOTE :: t ++ [DQUOTE]) as Hshape
    by (intros; by rewrite <- app_assoc).
  change (str "TEAM=") with (str "TEAM" ++ [EQUALS]).
  change (str "NAME=") with (str "NAME" ++ [EQUALS]).
  change (str "SESSION=") with (str "SESSION" ++ [EQUALS]).
  change (str "UPDATED_AT=") with (str "UPDATED_AT" ++ [EQUALS]).
  change (str "UPDATE_B64=") with (str "UPDATE_B64" ++ [EQUALS]).
  rewrite !Hshape. clear Hshape.
  unfold parseContentVars. rewrite splitLines_join; [|discriminate|].
  2: { repeat (apply Forall_cons; split;
               [first [ by apply quoted_line
                      | split; [rewrite noLF_app; by apply andb_true_intro|];
                        assumption ]
               |]).
       constructor. }
  cbn [app parseLines].
  rewrite (parseLine_keyValue _ _ _ (str "TEAM") (Payload.team p))
    by by apply keyValue_quoted.
  rewrite assign_TEAM. cbn [mbind result_bind].
  rewrite (parseLine_keyValue _ _ _ (str "NAME") (Payload.name p))
    by by apply keyValue_quoted.
  rewrite assign_NAME. cbn [mbind result_bind].
  rewrite (parseLine_keyValue _ _ _ (str "SESSION") (Payload.session p))
    by by apply keyValue_quoted.
  rewrite assign_SESSION. cbn [mbind result_bind].
  rewrite (parseLine_keyValue _ _ _ _ _ Hkf), assign_FEELING, Hnf.
  rewrite orNull_rating by exact Hf. cbn [mbind result_bind].
  rewrite (parseLine_keyValue _ _ _ _ _ Hkp), assign_PRODUCTIVITY, Hnp.
  rewrite orNull_rating by exact Hp. cbn [mbind result_bind].
  rewrite (parseLine_keyValue _ _ _ (str "UPDATED_AT") (Payload.timestamp p))
    by by apply keyValue_quoted.
  rewrite assign_UPDATED_AT. cbn [mbind result_bind].
  rewrite (parseLine_keyValue _ _ _ (str "UPDATE_B64") b64)
    by by apply keyValue_quoted.
  rewrite assign_UPDATE_B64, Hdec. cbn [mbind result_bind].
  rewrite parseLine_blank. reflexivity.
Qed.

Lemma codec_round_trip_witness :
  noLF (Payload.team annPayload) = true
  /\ noLF (Payload.name annPayload) = true
  /\ noLF (Payload.session annPayload) = true
  /\ noLF (Payload.timestamp annPayload) = true
  /\ (1 <= Payload.feeling annPayload <= 10)%Z
  /\ (1 <= Payload.productivity annPayload <= 10)%Z
  /\ wellFormed (default [] (Payload.update annPayload)) = true
  /\ exists text,
       buildContentVars annPayload = Ok text
       /\ parseContentVars noJSON text
          = Ok {| team := str "GNT SLT"; name := str "Ann";
                  session := str "2026-01-01";
                  feeling := Some (numOfZ 7); productivity := Some (numOfZ 8);
                  update := str "a=b " ++ [DQUOTE; LF; SQUOTE] ++ THUMBS;
                  updated_at := str "2026-01-01T09:00:00.000Z";
                  reactions := Some noReactions |}.
Proof.
  assert (noLF (Payload.team annPayload) = true) as H1 by reflexivity.
  assert (noLF (Payload.name annPayload) = true) as H2 by reflexivity.
  assert (noLF (Payload.session annPayload) = true) as H3 by reflexivity.
  assert (noLF (Payload.timestamp annPayload) = true) as H4 by reflexivity.
  assert (1 <= Payload.feeling annPayload <= 10)%Z as H5 by (simpl; lia).
  assert (1 <= Payload.productivity annPayload <= 10)%Z as H6 by (simpl; lia).
  assert (wellFormed (default [] (Payload.update annPayload)) = true) as H7
    by reflexivity.
  repeat (split; [assumption|]).
  exact (codec_round_trip noJSON annPayload H1 H2 H3 H4 H5 H6 H7).
Defined.

(** C1, the claim as stated fails: a payload with the valid ratings 0 and
    0 is encoded with [FEELING=0] and [PRODUCTIVITY=0], and decoded with
    both ratings [null]. *)
Lemma round_trip_loses_zero_rating :
  (text ← buildContentVars initPayload;
   r ← parseContentVars noJSON text;
   Ok (team r, feeling r, productivity r))
  = Ok (str "GNT SLT", None, None).
Proof. vm_compute. reflexivity. Qed.

(** * The rest of the program *)

(** ** The speaker queue on the board *)

(** [function clearSpeakerState()] *)
Definition clearSpeakerState (st : State) : State :=
  saveSpeakerState {| spoken := []; speakingNow := None; readyOrder := [] |} st.

(** [byName.get(n)] for [byName = new Map(updates.map(u=> [u.name, u]))]: a
    later record replaces an earlier one of the same name. *)
Definition byName (updates : list StatusRecord) (n : jsstring)
  : option StatusRecord :=
  last (filter (fun u => name u = n) updates).

(** [function applySpeakerOrdering(updates)] *)
Definition applySpeakerOrdering (st : State) (updates : list StatusRecord)
  : list StatusRecord :=
  let s := currentSpeaker st in
  let ready := filter (fun u => name u ∉ spoken s) updates in
  let readySet := map name ready in
  let savedOrder := filter (fun n => n ∈ readySet) (readyOrder s) in
  let leftover := map name (filter (fun u => name u ∉ savedOrder) ready) in
  let finalReadyNames := savedOrder ++ leftover in
  let speaking := match nameOrNull (speakingNow s) with
                  | Some n => if bool_decide (n ∈ readySet) then Some n else None
                  | None => None
                  end in
  let readyOrdered :=
    omap (byName updates)
      (match speaking with Some n => [n] | None => [] end
       ++ filter (fun n => Some n ≠ speaking) finalReadyNames) in
  let spokenOrdered := omap (byName updates) (spoken s) in
  readyOrdered ++ spokenOrdered.

Definition BULLET : N := 0x2022.

(** [function updateSpeakerCounts()]: the two counts, and the text it puts
    on the page. *)
Definition speakerCounts (st : State) : Z * Z :=
  let s := currentSpeaker st in
  let names := remove_dups (map name (currentUpdates st)) in
  let spokenCt := Z.of_nat (length (filter (fun n => n ∈ names) (spoken s))) in
  let remainingCt := Z.max 0 (Z.of_nat (length names) - spokenCt) in
  (remainingCt, spokenCt).

Definition updateSpeakerCounts (st : State) : jsstring :=
  let '(remainingCt, spokenCt) := speakerCounts st in
  str "Remaining: " ++ NumberToString remainingCt ++ str " " ++ [BULLET]
  ++ str " Spoken: " ++ NumberToString spokenCt.

(** What the facilitator does to the queue, and a refresh that publishes a
    new roster. *)
Inductive speakerOp :=
  | Next (draws : list nat)
  | Finished
  | ClearSpoken
  | Roster (updates : list StatusRecord).

Definition applyOp (st : State) (op : speakerOp) : State :=
  match op with
  | Next draws => nextSpeaker draws st
  | Finished => speakerFinished st
  | ClearSpoken => clearSpeakerState st
  | Roster updates => setCurrentUpdates updates st
  end.

(** No writer is listed twice, and the one speaking has not spoken yet. *)
Definition tidy (s : SpeakerState) : Prop :=
  NoDup (spoken s) /\ NoDup (readyOrder s)
  /\ (forall n, speakingNow s = Some n -> n ∉ spoken s).

(** The names of a roster are distinct. *)
Definition distinctNames (updates : list StatusRecord) : Prop :=
  NoDup (map name updates).

Definition rosterOk (op : speakerOp) : Prop :=
  match op with
  | Roster updates => distinctNames updates
  | _ => True
  end.

Lemma filter_name_nil (U : list StatusRecord) n :
  n ∉ map name U -> filter (fun u => name u = n) U = [].
Proof.
  intros Hn. induction U as [|u U IH]; [reflexivity|].
  rewrite filter_cons. cbn in Hn. apply not_elem_of_cons in Hn as [Hne Hn].
  destruct (decide (name u = n)) as [He|_]; [by destruct Hne|]. by apply IH.
Qed.

Lemma filter_name_byName (U : list StatusRecord) n :
  NoDup (map name U) ->
  filter (fun u => name u = n) U
  = match byName U n with Some u => [u] | None => [] end.
Proof.
  unfold byName. induction U as [|u U IH]; [reflexivity|].
  cbn [map]. intros [Hu HU]%NoDup_cons. rewrite filter_cons.
  destruct (decide (name u = n)) as [<-|Hne].
  - by rewrite (filter_name_nil U (name u) Hu).
  - by apply IH.
Qed.

Lemma byName_elem_of (U : list StatusRecord) n u :
  byName U n = Some u -> u ∈ U /\ name u = n.
Proof.
  unfold byName. intros H%last_Some. destruct H as [l' H].
  assert (u ∈ filter (fun u => name u = n) U) as Hu
    by (rewrite H; apply elem_of_app; right; apply list_elem_of_singleton; done).
  by apply list_elem_of_filter in Hu as [? ?].
Qed.

Lemma byName_Some (U : list StatusRecord) u :
  NoDup (map name U) -> u ∈ U -> byName U (name u) = Some u.
Proof.
  intros HU Hu. pose proof (filter_name_byName U (name u) HU) as H.
  assert (u ∈ filter (fun v => name v = name u) U) as Hin
    by (by apply list_elem_of_filter).
  rewrite H in Hin. destruct (byName U (name u)) as [v|].
  - apply list_elem_of_singleton in Hin. by subst.
  - by apply elem_of_nil in Hin.
Qed.

Lemma filter_name_split (U : list StatusRecord) n L :
  n ∉ L ->
  filter (fun u => name u ∈ n :: L) U
  ≡ₚ filter (fun u => name u = n) U ++ filter (fun u => name u ∈ L) U.
Proof.
  intros Hn. induction U as [|u U IH]; [reflexivity|].
  rewrite !filter_cons.
  destruct (decide (name u = n)) as [He|Hne].
  - rewrite decide_True by (rewrite He; left).
    rewrite decide_False by (by rewrite He).
    cbn. by rewrite IH.
  - destruct (decide (name u ∈ L)) as [HL|HL].
    + rewrite decide_True by (by right).
      rewrite IH. by rewrite Permutation_middle.
    + rewrite decide_False; [exact IH|].
      intros [?|?]%elem_of_cons; done.
Qed.

(** Looking the names of a list up in a roster of distinct names gives the
    records of the roster that bear one of the names. *)
Lemma omap_byName (U : list StatusRecord) L :
  NoDup (map name U) -> NoDup L ->
  omap (byName U) L ≡ₚ filter (fun u => name u ∈ L) U.
Proof.
  intros HU. induction L as [|n L IH]; intros HL.
  - cbn. induction U as [|u U IHU]; [reflexivity|].
    rewrite filter_cons, decide_False by apply not_elem_of_nil.
    apply IHU. cbn in HU. by apply NoDup_cons in HU as [_ ?].
  - apply NoDup_cons in HL as [Hn HL].
    rewrite (filter_name_split U n L Hn), (filter_name_byName U n HU).
    cbn [omap list_omap]. destruct (byName U n); cbn; by rewrite (IH HL).
Qed.

Lemma omap_byName_names (U : list StatusRecord) L :
  map name (omap (byName U) L) = filter (fun n => is_Some (byName U n)) L.
Proof.
  induction L as [|n L IH]; [reflexivity|].
  cbn [omap list_omap]. rewrite filter_cons.
  destruct (byName U n) as [u|] eqn:Hb.
  - rewrite decide_True by eauto. cbn. rewrite IH.
    by destruct (byName_elem_of U n u Hb) as [_ ->].
  - rewrite decide_False by (by intros [? ?]). exact IH.
Qed.

Lemma filter_ext_in {A} (P Q : A -> Prop) `{!forall x, Decision (P x)}
    `{!forall x, Decision (Q x)} (l : list A) :
  (forall x, x ∈ l -> P x <-> Q x) -> filter P l = filter Q l.
Proof.
  induction l as [|x l IH]; intros Hext; [reflexivity|].
  rewrite !filter_cons.
  assert (filter P l = filter Q l) as ->
    by (apply IH; intros y Hy; apply Hext; by right).
  destruct (decide (P x)) as [HP|HP].
  - rewrite decide_True; [done|]. apply Hext; [left|done].
  - rewrite decide_False; [done|]. intros HQ. apply HP, Hext; [left|done].
Qed.

Lemma NoDup_names_filter (P : StatusRecord -> Prop)
    `{!forall u, Decision (P u)} (U : list StatusRecord) :
  NoDup (map name U) -> NoDup (map name (filter P U)).
Proof.
  induction U as [|u U IH]; [constructor|].
  cbn [map]. intros [Hu HU]%NoDup_cons. rewrite filter_cons.
  destruct (decide (P u)); [|by apply IH].
  cbn. apply NoDup_cons. split; [|by apply IH].
  intros (v & Hv & Hin)%list_elem_of_fmap.
  apply list_elem_of_filter in Hin as [_ Hin].
  apply Hu, list_elem_of_fmap. eauto.
Qed.

(** The ordering of the board keeps every card, once: when the names of
    the roster are distinct and the queue lists no writer twice,
    [applySpeakerOrdering] returns a permutation of the roster, made of the
    writers who have not spoken followed by those who have; and the writer
    speaking now, if still to speak and on the roster, comes first. *)
Theorem speaker_ordering_keeps_cards st updates :
  distinctNames updates ->
  NoDup (spoken (currentSpeaker st)) ->
  NoDup (readyOrder (currentSpeaker st)) ->
  let s := currentSpeaker st in
  applySpeakerOrdering st updates ≡ₚ updates
  /\ (exists ready done,
        applySpeakerOrdering st updates = ready ++ done
        /\ Forall (fun u => name u ∉ spoken s) ready
        /\ Forall (fun u => name u ∈ spoken s) done)
  /\ (forall n,
        nameOrNull (speakingNow s) = Some n -> n ∉ spoken s ->
        n ∈ map name updates ->
        exists u rest,
          applySpeakerOrdering st updates = u :: rest /\ name u = n).
Proof.
  intros HU Hspoken Horder s. unfold applySpeakerOrdering. fold s.
  set (ready := filter (fun u => name u ∉ spoken s) updates).
  set (readySet := map name ready).
  set (savedOrder := filter (fun n => n ∈ readySet) (readyOrder s)).
  set (leftover := map name (filter (fun u => name u ∉ savedOrder) ready)).
  set (speaking := match nameOrNull (speakingNow s) with
                   | Some n => if bool_decide (n ∈ readySet) then Some n else None
                   | None => None
                   end).
  set (names := match speaking with Some n => [n] | None => [] end
                ++ filter (fun n => Some n ≠ speaking) (savedOrder ++ leftover)).
  assert (NoDup (map name ready)) as Hready.
  { by apply NoDup_names_filter. }
  assert (forall n, n ∈ readySet <-> n ∈ map name updates /\ n ∉ spoken s) as HreadySet.
  { intros n. unfold readySet, ready. rewrite !list_elem_of_fmap. split.
    - intros (u & -> & [Hu Hin]%list_elem_of_filter). eauto.
    - intros [(u & -> & Hin) Hn]. exists u. split; [done|].
      by apply list_elem_of_filter. }
  assert (NoDup (savedOrder ++ leftover)) as Hfinal.
  { apply NoDup_app. repeat split.
    - by apply NoDup_filter.
    - intros n Hn. unfold leftover. intros (u & -> & Hin)%list_elem_of_fmap.
      by apply list_elem_of_filter in Hin as [Hu _].
    - by apply NoDup_names_filter. }
  assert (forall n, n ∈ savedOrder ++ leftover <-> n ∈ readySet) as Hset.
  { intros n. rewrite elem_of_app. unfold savedOrder at 1, leftover.
    rewrite list_elem_of_filter, list_elem_of_fmap. split.
    - intros [[? _]|(u & -> & [_ Hin]%list_elem_of_filter)]; [done|].
      unfold readySet. apply list_elem_of_fmap. eauto.
    - intros Hn. destruct (decide (n ∈ savedOrder)) as [Hs|Hs].
      + left. by apply list_elem_of_filter in Hs.
      + right. unfold readySet in Hn.
        apply list_elem_of_fmap in Hn as (u & -> & Hu).
        exists u. split; [done|]. by apply list_elem_of_filter. }
  assert (speaking = None \/ exists n, speaking = Some n /\ n ∈ readySet) as Hspeaking.
  { unfold speaking. destruct (nameOrNull (speakingNow s)) as [n|]; [|by left].
    case_bool_decide; [right; eauto|by left]. }
  assert (NoDup names /\ forall n, n ∈ names <-> n ∈ readySet) as [Hnames Hnset].
  { unfold names. destruct Hspeaking as [->|(m & -> & Hm)].
    - cbn [app]. split.
      + by apply NoDup_filter.
      + intros n. rewrite list_elem_of_filter, Hset. split; [tauto|]. by split.
    - split.
      + cbn [app]. apply NoDup_cons. split; [|by apply NoDup_filter].
        intros [Hne _]%list_elem_of_filter. done.
      + intros n. cbn [app]. rewrite elem_of_cons, list_elem_of_filter, Hset.
        split; [intros [->|[_ ?]]; done|].
        intros Hn. destruct (decide (n = m)) as [->|Hne]; [by left|].
        right. split; [congruence|done]. }
  assert (omap (byName updates) names ≡ₚ ready) as Hr.
  { rewrite (omap_byName updates names HU Hnames). unfold ready.
    erewrite filter_ext_in; [reflexivity|].
    intros u Hu. cbn. rewrite Hnset, HreadySet. split; [tauto|].
    intros Hn. split; [|done]. apply list_elem_of_fmap. eauto. }
  assert (omap (byName updates) (spoken s)
          ≡ₚ filter (fun u => ~ (name u ∉ spoken s)) updates) as Hs.
  { rewrite (omap_byName updates (spoken s) HU Hspoken).
    erewrite filter_ext_in; [reflexivity|].
    intros u _. cbn. destruct (decide (name u ∈ spoken s)); tauto. }
  repeat apply conj.
  - rewrite Hr, Hs. apply filter_app_complement.
  - eexists _, _. split; [reflexivity|]. split.
    + apply Forall_forall. intros u Hu. rewrite Hr in Hu.
      by apply list_elem_of_filter in Hu as [? _].
    + apply Forall_forall. intros u Hu.
      apply list_elem_of_omap in Hu as (n & Hn & Hb).
      apply byName_elem_of in Hb as [_ ->]. done.
  - intros n Hn Hnot Hin.
    assert (speaking = Some n) as Hsp.
    { unfold speaking. rewrite Hn. rewrite bool_decide_eq_true_2; [done|].
      by apply HreadySet. }
    unfold names. rewrite Hsp. cbn [app omap list_omap].
    apply list_elem_of_fmap in Hin as (u & -> & Hu).
    rewrite (byName_Some updates u HU Hu). cbn. eauto.
Qed.

Lemma readyNames_filter s updates :
  readyNames s updates = filter (fun n => n ∉ spoken s) (map name updates).
Proof.
  unfold readyNames. induction (map name updates) as [|n l IH]; [reflexivity|].
  cbn [List.filter]. rewrite filter_cons, IH.
  case_bool_decide; [by rewrite decide_False by tauto|by rewrite decide_True].
Qed.

Lemma currentSpeaker_setCurrentUpdates updates st :
  currentSpeaker (setCurrentUpdates updates st) = currentSpeaker st.
Proof. reflexivity. Qed.

Lemma tidy_nextSpeaker draws st :
  tidy (currentSpeaker st) -> distinctNames (currentUpdates st) ->
  tidy (currentSpeaker (nextSpeaker draws st)).
Proof.
  intros (Hspoken & Horder & Hnow) HU. unfold nextSpeaker.
  destruct (currentUpdates st) as [|u U] eqn:HUeq; [by repeat split|].
  rewrite <- HUeq in *. clear HUeq u U.
  set (s := currentSpeaker st) in *.
  destruct (readyNames s (currentUpdates st)) as [|n ready] eqn:Hready.
  - rewrite currentSpeaker_save. repeat split; cbn; [done|constructor|done].
  - rewrite currentSpeaker_save. rewrite <- Hready.
    assert (NoDup (readyNames s (currentUpdates st))) as Hnd
      by (rewrite readyNames_filter; by apply NoDup_filter).
    repeat split; cbn; [done|by rewrite shuffle_Permutation|].
    intros w [Hw _]%nameOrNull_Some.
    apply head_Some_elem_of in Hw. rewrite shuffle_Permutation in Hw.
    rewrite readyNames_filter in Hw.
    by apply list_elem_of_filter in Hw as [? _].
Qed.

Lemma tidy_speakerFinished st :
  tidy (currentSpeaker st) -> tidy (currentSpeaker (speakerFinished st)).
Proof.
  intros (Hspoken & Horder & Hnow).
  destruct (nameOrNull (speakingNow (currentSpeaker st))) as [w|] eqn:Hw.
  - rewrite (speakerFinished_speaking st w Hw). repeat split; cbn.
    + case_bool_decide as Hin; [done|].
      apply NoDup_app. repeat split; [done| |apply NoDup_singleton].
      intros x Hx ->%list_elem_of_singleton. done.
    + induction (readyOrder (currentSpeaker st)) as [|n l IH]; [constructor|].
      apply NoDup_cons in Horder as [Hn Hl]. cbn [List.filter].
      destruct (negb _); [|by apply IH].
      apply NoDup_cons. split; [|by apply IH].
      intros Hin%list_elem_of_In%filter_In. apply Hn, list_elem_of_In, Hin.
    + discriminate.
  - by rewrite (speakerFinished_idle st Hw).
Qed.

Lemma currentUpdates_nextSpeaker draws st :
  currentUpdates (nextSpeaker draws st) = currentUpdates st.
Proof.
  unfold nextSpeaker. destruct (currentUpdates st) eqn:HU; [by rewrite HU|].
  rewrite <- HU. by destruct (readyNames _ _).
Qed.

Lemma currentUpdates_speakerFinished st :
  currentUpdates (speakerFinished st) = currentUpdates st.
Proof. unfold speakerFinished. by destruct (nameOrNull _). Qed.

Lemma tidy_applyOp st op :
  rosterOk op ->
  tidy (currentSpeaker st) /\ distinctNames (currentUpdates st) ->
  tidy (currentSpeaker (applyOp st op))
  /\ distinctNames (currentUpdates (applyOp st op)).
Proof.
  intros Hop [Ht HU]. destruct op as [draws| | |updates]; cbn [applyOp].
  - split; [by apply tidy_nextSpeaker|].
    by rewrite currentUpdates_nextSpeaker.
  - split; [by apply tidy_speakerFinished|].
    by rewrite currentUpdates_speakerFinished.
  - split; [|done]. unfold clearSpeakerState. rewrite currentSpeaker_save.
    repeat split; cbn; [constructor|constructor|discriminate].
  - split; [by rewrite currentSpeaker_setCurrentUpdates|exact Hop].
Qed.

(** The queue stays tidy.  From a queue that lists no writer twice, under
    rosters of distinct names, no run of [nextSpeaker], [speakerFinished],
    [clearSpeakerState] and refreshes of the roster brings a writer twice
    into the spoken list or into the ready order, or leaves a writer
    speaking who is in the spoken list. *)
Theorem speaker_queue_stays_tidy ops st :
  tidy (currentSpeaker st) ->
  distinctNames (currentUpdates st) ->
  Forall rosterOk ops ->
  tidy (currentSpeaker (fold_left applyOp ops st))
  /\ distinctNames (currentUpdates (fold_left applyOp ops st)).
Proof.
  intros Ht HU Hops. revert st Ht HU.
  induction Hops as [|op ops Hop Hops IH]; intros st Ht HU; [by split|].
  cbn [fold_left].
  destruct (tidy_applyOp st op Hop (conj Ht HU)) as [Ht' HU'].
  by apply IH.
Qed.

Lemma length_filter_swap {A} `{EqDecision A} (a b : list A) :
  NoDup a -> NoDup b ->
  length (filter (fun x => x ∈ b) a) = length (filter (fun x => x ∈ a) b).
Proof.
  intros Ha Hb. apply Permutation_length, NoDup_Permutation.
  - by apply NoDup_filter.
  - by apply NoDup_filter.
  - intros x. rewrite !list_elem_of_filter. tauto.
Qed.

Lemma remove_dups_filter {A} `{EqDecision A} (P : A -> Prop)
    `{!forall x, Decision (P x)} (l : list A) :
  remove_dups (filter P l) = filter P (remove_dups l).
Proof.
  induction l as [|x l IH]; [reflexivity|].
  rewrite filter_cons. cbn [remove_dups].
  destruct (decide (P x)) as [HP|HP].
  - cbn [remove_dups].
    destruct (decide_rel elem_of x l) as [Hin|Hin],
             (decide_rel elem_of x (filter P l)) as [Hf|Hf].
    + exact IH.
    + destruct Hf. by apply list_elem_of_filter.
    + apply list_elem_of_filter in Hf as [_ ?]. done.
    + rewrite filter_cons, decide_True by done. by rewrite IH.
  - destruct (decide_rel elem_of x l) as [Hin|Hin]; [exact IH|].
    rewrite filter_cons, decide_False by done. exact IH.
Qed.

(** The counters of the facilitator agree with the queue.  When the spoken
    list names no writer twice, [Remaining] is the number of distinct
    writers [nextSpeaker] can still draw, [Spoken] the number of spoken
    writers on the roster, and the two add up to the number of distinct
    writers of the roster. *)
Theorem speaker_counts_match_queue st :
  NoDup (spoken (currentSpeaker st)) ->
  let s := currentSpeaker st in
  let updates := currentUpdates st in
  let remaining := length (remove_dups (readyNames s updates)) in
  let spokenCt := length (filter (fun n => n ∈ map name updates) (spoken s)) in
  updateSpeakerCounts st
  = str "Remaining: " ++ NumberToString (Z.of_nat remaining) ++ str " "
    ++ [BULLET] ++ str " Spoken: " ++ NumberToString (Z.of_nat spokenCt)
  /\ (remaining + spokenCt)%nat = length (remove_dups (map name updates)).
Proof.
  intros Hspoken s updates remaining spokenCt.
  unfold updateSpeakerCounts, speakerCounts. fold s updates.
  set (names := remove_dups (map name updates)).
  assert (filter (fun n => n ∈ names) (spoken s)
          = filter (fun n => n ∈ map name updates) (spoken s)) as ->
    by (apply filter_ext_in; intros n _; apply elem_of_remove_dups).
  fold spokenCt.
  assert (spokenCt = length (filter (fun n => n ∈ spoken s) names)) as Hs.
  { unfold spokenCt.
    rewrite <- (length_filter_swap (spoken s) names Hspoken
                  (NoDup_remove_dups _)).
    f_equal. apply filter_ext_in. intros n _. symmetry.
    apply elem_of_remove_dups. }
  assert (remaining = length (filter (fun n => ~ n ∈ spoken s) names)) as Hr.
  { unfold remaining. by rewrite readyNames_filter, remove_dups_filter. }
  assert ((remaining + spokenCt)%nat = length names) as Hsum.
  { rewrite Hr, Hs, Nat.add_comm, <- length_app.
    apply Permutation_length, filter_app_complement. }
  split; [|exact Hsum].
  replace (Z.max 0 (Z.of_nat (length names) - Z.of_nat spokenCt))
    with (Z.of_nat remaining) by lia.
  reflexivity.
Qed.

(** A roster of three writers, and a queue in which Ann has spoken and Bob
    is speaking. *)
Definition sampleRoster : list StatusRecord :=
  [setName (str "Ann") emptyRecord; setName (str "Bob") emptyRecord;
   setName (str "Cy") emptyRecord].

Definition sampleQueue : State :=
  setCurrentUpdates sampleRoster
    (setSpeaker (Some {| spoken := [str "Ann"]; speakingNow := Some (str "Bob");
                         readyOrder := [str "Cy"; str "Bob"] |}) initialState).

Lemma speaker_ordering_keeps_cards_witness :
  distinctNames sampleRoster
  /\ applySpeakerOrdering sampleQueue sampleRoster ≡ₚ sampleRoster.
Proof.
  assert (distinctNames sampleRoster) as H1
    by (unfold distinctNames; apply (bool_decide_unpack _); vm_compute; exact I).
  assert (NoDup (spoken (currentSpeaker sampleQueue))) as H2
    by (unfold distinctNames; apply (bool_decide_unpack _); vm_compute; exact I).
  assert (NoDup (readyOrder (currentSpeaker sampleQueue))) as H3
    by (unfold distinctNames; apply (bool_decide_unpack _); vm_compute; exact I).
  split; [exact H1|].
  exact (proj1 (speaker_ordering_keeps_cards sampleQueue sampleRoster H1 H2 H3)).
Defined.

Lemma speaker_queue_stays_tidy_witness :
  tidy (currentSpeaker sampleQueue)
  /\ tidy (currentSpeaker
             (fold_left applyOp [Finished; Next [2; 0]%nat; Roster sampleRoster;
                                 Finished; ClearSpoken] sampleQueue)).
Proof.
  assert (tidy (currentSpeaker sampleQueue)) as H1.
  { repeat split; cbn.
    - unfold distinctNames; apply (bool_decide_unpack _); vm_compute; exact I.
    - unfold distinctNames; apply (bool_decide_unpack _); vm_compute; exact I.
    - intros n [= <-]. unfold distinctNames; apply (bool_decide_unpack _); vm_compute; exact I. }
  assert (distinctNames (currentUpdates sampleQueue)) as H2
    by (unfold distinctNames; apply (bool_decide_unpack _); vm_compute; exact I).
  assert (Forall rosterOk [Finished; Next [2; 0]%nat; Roster sampleRoster;
                           Finished; ClearSpoken]) as H3.
  { repeat first [apply Forall_cons; split | apply Forall_nil];
    first [exact I | exact H2]. }
  split; [exact H1|].
  exact (proj1 (speaker_queue_stays_tidy _ sampleQueue H1 H2 H3)).
Defined.

Lemma speaker_counts_match_queue_witness :
  NoDup (spoken (currentSpeaker sampleQueue))
  /\ updateSpeakerCounts sampleQueue
     = str "Remaining: 2 " ++ [BULLET] ++ str " Spoken: 1".
Proof.
  assert (NoDup (spoken (currentSpeaker sampleQueue))) as H1
    by (unfold distinctNames; apply (bool_decide_unpack _); vm_compute; exact I).
  split; [exact H1|].
  rewrite (proj1 (speaker_counts_match_queue sampleQueue H1)).
  vm_compute. reflexivity.
Defined.

(** ** Text put into the page *)

Definition AMP : N := 38.
Definition LT : N := 60.
Definition GT : N := 62.

(** [s.replace(/c/g, r)] for a single code unit [c] and a replacement [r]
    without [$]. *)
Definition replaceUnit (c : N) (r : jsstring) (s : jsstring) : jsstring :=
  flat_map (fun d => if (d =? c)%N then r else [d]) s.

(** [function escapeHtml(s)] *)
Definition escapeHtml (s : jsstring) : jsstring :=
  replaceUnit SQUOTE (str "&#039;")
    (replaceUnit DQUOTE (str "&quot;")
       (replaceUnit GT (str "&gt;")
          (replaceUnit LT (str "&lt;")
             (replaceUnit AMP (str "&amp;") s)))).

(** The five characters [escapeHtml] replaces, and what it writes for one
    code unit after all five passes. *)
Definition special (c : N) : bool :=
  ((c =? AMP) || (c =? LT) || (c =? GT) || (c =? DQUOTE) || (c =? SQUOTE))%N.

Definition entities : list jsstring :=
  [str "&amp;"; str "&lt;"; str "&gt;"; str "&quot;"; str "&#039;"].

Definition escapeUnit (c : N) : jsstring :=
  if (c =? AMP)%N then str "&amp;"
  else if (c =? LT)%N then str "&lt;"
  else if (c =? GT)%N then str "&gt;"
  else if (c =? DQUOTE)%N then str "&quot;"
  else if (c =? SQUOTE)%N then str "&#039;"
  else [c].

(** A piece of escaped text: one of the five entities, or one code unit
    that is none of the five characters. *)
Definition escapedPiece (b : jsstring) : Prop :=
  b ∈ entities \/ exists c, b = [c] /\ special c = false.

Lemma replaceUnit_flat_map c r (f : N -> jsstring) s :
  replaceUnit c r (flat_map f s) = flat_map (fun d => replaceUnit c r (f d)) s.
Proof.
  unfold replaceUnit. induction s as [|d s IH]; [reflexivity|].
  cbn [flat_map]. by rewrite flat_map_app, IH.
Qed.

Lemma flat_map_ext_all {A B} (f g : A -> list B) l :
  (forall x, f x = g x) -> flat_map f l = flat_map g l.
Proof. intros H. induction l as [|x l IH]; cbn; [done|]. by rewrite H, IH. Qed.

(** The five passes come to one pass over the text: no pass touches what
    an earlier one wrote. *)
Lemma escapeHtml_one_pass s : escapeHtml s = flat_map escapeUnit s.
Proof.
  unfold escapeHtml.
  unfold replaceUnit at 5. rewrite !replaceUnit_flat_map.
  apply flat_map_ext_all. intros d. unfold escapeUnit.
  destruct (d =? AMP)%N eqn:H1;
    [apply N.eqb_eq in H1; subst d; vm_compute; reflexivity|].
  destruct (d =? LT)%N eqn:H2;
    [apply N.eqb_eq in H2; subst d; vm_compute; reflexivity|].
  destruct (d =? GT)%N eqn:H3;
    [apply N.eqb_eq in H3; subst d; vm_compute; reflexivity|].
  destruct (d =? DQUOTE)%N eqn:H4;
    [apply N.eqb_eq in H4; subst d; vm_compute; reflexivity|].
  destruct (d =? SQUOTE)%N eqn:H5;
    [apply N.eqb_eq in H5; subst d; vm_compute; reflexivity|].
  unfold replaceUnit. cbn [flat_map app].
  rewrite H2. cbn [flat_map app]. rewrite H3. cbn [flat_map app].
  rewrite H4. cbn [flat_map app]. by rewrite H5.
Qed.

Lemma escapeUnit_piece c : escapedPiece (escapeUnit c).
Proof.
  unfold escapeUnit, escapedPiece, entities.
  destruct (c =? AMP)%N eqn:H1; [left; set_solver|].
  destruct (c =? LT)%N eqn:H2; [left; set_solver|].
  destruct (c =? GT)%N eqn:H3; [left; set_solver|].
  destruct (c =? DQUOTE)%N eqn:H4; [left; set_solver|].
  destruct (c =? SQUOTE)%N eqn:H5; [left; set_solver|].
  right. exists c. split; [reflexivity|]. unfold special.
  by rewrite H1, H2, H3, H4, H5.
Qed.

Lemma escapedPiece_safe b :
  escapedPiece b ->
  Forall (fun c => c ≠ LT /\ c ≠ GT /\ c ≠ DQUOTE /\ c ≠ SQUOTE) b.
Proof.
  intros [Hb|(c & -> & Hc)].
  - unfold entities in Hb.
    repeat (apply elem_of_cons in Hb as [->|Hb];
            [repeat constructor; discriminate|]).
    by apply elem_of_nil in Hb.
  - repeat constructor; intros ->; discriminate.
Qed.

(** Escaped text holds no markup.  [escapeHtml s] is made of one piece for
    each code unit of [s], each an entity or a code unit that is none of
    the five characters; so no angle bracket and no quote, double or
    single, occurs in it, and every ampersand starts an entity.  A text with none of the five characters is returned as it
    is. *)
Theorem escapeHtml_safe s :
  (exists pieces,
     escapeHtml s = concat pieces
     /\ length pieces = length s
     /\ Forall escapedPiece pieces)
  /\ Forall (fun c => c ≠ LT /\ c ≠ GT /\ c ≠ DQUOTE /\ c ≠ SQUOTE)
       (escapeHtml s)
  /\ (forallb (fun c => negb (special c)) s = true -> escapeHtml s = s).
Proof.
  rewrite escapeHtml_one_pass. repeat apply conj.
  - exists (map escapeUnit s). repeat split.
    + by rewrite flat_map_concat_map.
    + by rewrite length_map.
    + apply Forall_forall. intros b (c & -> & _)%list_elem_of_fmap.
      apply escapeUnit_piece.
  - induction s as [|c s IH]; [constructor|].
    cbn [flat_map]. apply Forall_app. split; [|exact IH].
    apply escapedPiece_safe, escapeUnit_piece.
  - induction s as [|c s IH]; [reflexivity|].
    cbn [forallb flat_map]. intros [Hc Hs]%andb_true_iff.
    rewrite (IH Hs). unfold special in Hc. unfold escapeUnit.
    destruct (c =? AMP)%N; [discriminate|].
    destruct (c =? LT)%N; [discriminate|].
    destruct (c =? GT)%N; [discriminate|].
    destruct (c =? DQUOTE)%N; [discriminate|].
    destruct (c =? SQUOTE)%N; [discriminate|]. reflexivity.
Qed.

Lemma escapeUnit_inj x y r1 r2 :
  escapeUnit x ++ r1 = escapeUnit y ++ r2 -> x = y /\ r1 = r2.
Proof.
  unfold escapeUnit.
  destruct (x =? AMP)%N eqn:X1; [apply N.eqb_eq in X1|];
  [|destruct (x =? LT)%N eqn:X2; [apply N.eqb_eq in X2|]];
  [| |destruct (x =? GT)%N eqn:X3; [apply N.eqb_eq in X3|]];
  [| | |destruct (x =? DQUOTE)%N eqn:X4; [apply N.eqb_eq in X4|]];
  [| | | |destruct (x =? SQUOTE)%N eqn:X5; [apply N.eqb_eq in X5|]];
  (destruct (y =? AMP)%N eqn:Y1; [apply N.eqb_eq in Y1|];
   [|destruct (y =? LT)%N eqn:Y2; [apply N.eqb_eq in Y2|]];
   [| |destruct (y =? GT)%N eqn:Y3; [apply N.eqb_eq in Y3|]];
   [| | |destruct (y =? DQUOTE)%N eqn:Y4; [apply N.eqb_eq in Y4|]];
   [| | | |destruct (y =? SQUOTE)%N eqn:Y5; [apply N.eqb_eq in Y5|]]);
  subst; vm_compute; intros H; try discriminate H;
  try (injection H as ?; subst; try discriminate; by split).
Qed.

(** Escaping loses nothing: two texts with the same escaped form are the
    same text. *)
Theorem escapeHtml_injective a b : escapeHtml a = escapeHtml b -> a = b.
Proof.
  rewrite !escapeHtml_one_pass. revert b.
  induction a as [|x a IH]; intros [|y b]; cbn [flat_map].
  - done.
  - intros H. pose proof (escapeUnit_piece y) as [Hy|(c & Hy & _)].
    + unfold entities in Hy.
      repeat (apply elem_of_cons in Hy as [Hy|Hy];
              [rewrite Hy in H; discriminate H|]).
      by apply elem_of_nil in Hy.
    + rewrite Hy in H. discriminate H.
  - intros H. pose proof (escapeUnit_piece x) as [Hx|(c & Hx & _)].
    + unfold entities in Hx.
      repeat (apply elem_of_cons in Hx as [Hx|Hx];
              [rewrite Hx in H; discriminate H|]).
      by apply elem_of_nil in Hx.
    + rewrite Hx in H. discriminate H.
  - intros [-> Hr]%escapeUnit_inj. by rewrite (IH b Hr).
Qed.

Lemma escapeHtml_injective_witness :
  escapeHtml (str "a<b & c") = escapeHtml ([97; 60] ++ str "b & c")%N /\
  str "a<b & c" = ([97; 60] ++ str "b & c")%N.
Proof.
  assert (H : escapeHtml (str "a<b & c")
              = escapeHtml ([97; 60] ++ str "b & c")%N) by reflexivity.
  split; [exact H | exact (escapeHtml_injective _ _ H)].
Defined.

(** ** The passphrase gate *)

(** [localStorage]: [getItem] gives [null] ([None]) for a key that is not
    there. *)
Abbreviation Storage := (gmap jsstring jsstring).

Definition LS_TEAM_NAME : jsstring := str "RT_teamName".
Definition LS_PASS_PREFIX : jsstring := str "RT_teamPass::".

(** [const pick = (k)=>{ const v = localStorage.getItem(k);
    return v !== null && v !== undefined && v !== "" ? v : undefined; }] *)
Definition pick (ls : Storage) (k : jsstring) : option jsstring :=
  match ls !! k with
  | Some v => if bool_decide (v = []) then None else Some v
  | None => None
  end.

(** [getConfig().TEAM_NAME]:
    [cfg.TEAM_NAME = pick(LS_KEYS.TEAM_NAME) ?? cfg.TEAM_NAME]. *)
Definition selectedTeam (ls : Storage) : jsstring :=
  default (TEAM_NAME CONFIG_DEFAULTS) (pick ls LS_TEAM_NAME).

(** [function getStoredPass(team)] *)
Definition getStoredPass (ls : Storage) (team : jsstring) : jsstring :=
  default [] (ls !! (LS_PASS_PREFIX ++ team)).

(** [function setStoredPass(team, pass)] *)
Definition setStoredPass (team pass : jsstring) (ls : Storage) : Storage :=
  <[LS_PASS_PREFIX ++ team := pass]> ls.

(** An entry of [state.teamRegistry], as far as the gate reads it:
    [discoverTeamsFromGitHub] stores [obj.passphrase || ''], whatever JSON
    value the registry file holds there. *)
Record RegEntry := { reg_team : jsstring; reg_passphrase : value }.

(** What the gate works on: [localStorage], [state.teamRegistry],
    [state.teamLocked], and the page: the value of [#teamPassInput] and
    whether it carries the class [error], if the element is there, and the
    text of [#passMsg], if that element is there. *)
Record Gate := {
  storage : Storage;
  teamRegistry : gmap jsstring RegEntry;
  teamLocked : bool;
  passInput : option (jsstring * bool);
  passMsg : option jsstring
}.

Section Gate.

(** [Number::toString], which [String(v)] uses on a number. *)
Variable numberText : number -> jsstring.

(** [String(v)] on a JSON value. *)
Fixpoint ToString (v : value) : jsstring :=
  match v with
  | VUndefined => str "undefined"
  | VNull => str "null"
  | VBool b => if b then str "true" else str "false"
  | VNum n => numberText n
  | VStr s => s
  | VArr l => join (str ",")
                (map (fun x => match x with
                               | VUndefined | VNull => []
                               | _ => ToString x
                               end) l)
  | VObj _ => str "[object Object]"
  end.

Definition CHECKMARK : N := 0x2713.

(** [if (msg) msg.textContent = text] *)
Definition say (text : jsstring) (g : Gate) : Gate :=
  {| storage := storage g; teamRegistry := teamRegistry g;
     teamLocked := teamLocked g; passInput := passInput g;
     passMsg := match passMsg g with Some _ => Some text | None => None end |}.

(** [inp?.classList.add('error')] and [inp?.classList.remove('error')] *)
Definition markInput (err : bool) (g : Gate) : Gate :=
  {| storage := storage g; teamRegistry := teamRegistry g;
     teamLocked := teamLocked g;
     passInput := match passInput g with
                  | Some (v, _) => Some (v, err)
                  | None => None
                  end;
     passMsg := passMsg g |}.

Definition setTeamLocked (b : bool) (g : Gate) : Gate :=
  {| storage := storage g; teamRegistry := teamRegistry g;
     teamLocked := b; passInput := passInput g; passMsg := passMsg g |}.

(** [if (inp && inp.value !== entered) inp.value = entered] *)
Definition fillInput (entered : jsstring) (g : Gate) : Gate :=
  {| storage := storage g; teamRegistry := teamRegistry g;
     teamLocked := teamLocked g;
     passInput := match passInput g with
                  | Some (_, e) => Some (entered, e)
                  | None => None
                  end;
     passMsg := passMsg g |}.

Definition setStorage (ls : Storage) (g : Gate) : Gate :=
  {| storage := ls; teamRegistry := teamRegistry g;
     teamLocked := teamLocked g; passInput := passInput g;
     passMsg := passMsg g |}.

(** [(inp?.value || getStoredPass(team) || '').trim()] *)
Definition enteredPass (g : Gate) (team : jsstring) : jsstring :=
  trim (match passInput g with
        | Some (v, _) => if bool_decide (v = []) then getStoredPass (storage g) team
                         else v
        | None => getStoredPass (storage g) team
        end).

(** [!reg || !reg.passphrase] *)
Definition unprotected (g : Gate) (team : jsstring) : bool :=
  match teamRegistry g !! team with
  | Some reg => negb (truthy (reg_passphrase reg))
  | None => true
  end.

(** [function verifyPassForSelectedTeam()] *)
Definition verifyPassForSelectedTeam (g : Gate) : Gate * bool :=
  let team := selectedTeam (storage g) in
  match teamRegistry g !! team with
  | Some reg =>
      if truthy (reg_passphrase reg) then
        let entered := enteredPass g team in
        if bool_decide (entered = [])
           || negb (bool_decide (entered = ToString (reg_passphrase reg)))
        then (markInput true
                (say (str "Passphrase required or incorrect")
                   (setTeamLocked true g)), false)
        else (setStorage (setStoredPass team entered (storage g))
                (fillInput entered
                   (markInput false
                      (say (str "Verified " ++ [CHECKMARK])
                         (setTeamLocked false g)))), true)
      else (markInput false (say (str "No pass needed") (setTeamLocked false g)),
            true)
  | None => (markInput false (say (str "No pass needed") (setTeamLocked false g)),
             true)
  end.

End Gate.

Lemma trimStart_head s :
  match trimStart s with c :: _ => isWhiteSpace c | [] => false end = false.
Proof.
  induction s as [|c s IH]; [reflexivity|]. cbn [trimStart].
  destruct (isWhiteSpace c) eqn:Hc; [exact IH|exact Hc].
Qed.

Lemma trimStart_snoc s d :
  isWhiteSpace d = false -> exists s', trimStart (s ++ [d]) = s' ++ [d].
Proof.
  intros Hd. induction s as [|c s IH].
  - exists []. cbn. by rewrite Hd.
  - cbn [app trimStart]. destruct (isWhiteSpace c); [exact IH|].
    by exists (c :: s).
Qed.

Lemma last_rev_head {A} (l : list A) : last (rev l) = head l.
Proof. destruct l as [|c t]; [reflexivity|]. cbn [rev]. apply last_snoc. Qed.

Lemma trim_head s :
  match trim s with c :: _ => isWhiteSpace c | [] => false end = false.
Proof.
  unfold trim. pose proof (trimStart_head s) as Hh.
  destruct (trimStart s) as [|c t]; [reflexivity|].
  unfold trimEnd. cbn [rev].
  destruct (trimStart_snoc (rev t) c Hh) as (t' & ->).
  rewrite rev_app_distr. exact Hh.
Qed.

Lemma trim_last s :
  match last (trim s) with Some d => isWhiteSpace d | None => false end = false.
Proof.
  unfold trim, trimEnd. rewrite last_rev_head.
  pose proof (trimStart_head (rev (trimStart s))) as Hh.
  by destruct (trimStart (rev (trimStart s))).
Qed.

Lemma trim_trim s : trim (trim s) = trim s.
Proof. apply trim_ends; [apply trim_head|apply trim_last]. Qed.

Lemma pass_key_ne team : LS_PASS_PREFIX ++ team ≠ LS_TEAM_NAME.
Proof. intros H. vm_compute in H. discriminate H. Qed.

Lemma selectedTeam_setStoredPass team pass ls :
  selectedTeam (setStoredPass team pass ls) = selectedTeam ls.
Proof.
  unfold selectedTeam, pick, setStoredPass.
  by rewrite lookup_insert_ne by apply pass_key_ne.
Qed.

Lemma getStoredPass_setStoredPass team pass ls :
  getStoredPass (setStoredPass team pass ls) team = pass.
Proof. unfold getStoredPass, setStoredPass. by rewrite lookup_insert_eq. Qed.

Section GateFacts.

Variable numberText : number -> jsstring.

(** Once verified, the passphrase is remembered.  When
    [verifyPassForSelectedTeam] returns [true] the team is unlocked, and
    neither the registry nor the selected team has changed; from then on,
    as long as [localStorage] and the registry stay as they are, every
    later verification with the passphrase field empty, or with no such
    field on the page, returns [true] as well. *)
Theorem verified_pass_is_remembered g g1 :
  verifyPassForSelectedTeam numberText g = (g1, true) ->
  teamLocked g1 = false
  /\ teamRegistry g1 = teamRegistry g
  /\ selectedTeam (storage g1) = selectedTeam (storage g)
  /\ (forall g2,
        storage g2 = storage g1 -> teamRegistry g2 = teamRegistry g1 ->
        (forall v e, passInput g2 = Some (v, e) -> v = []) ->
        (verifyPassForSelectedTeam numberText g2).2 = true).
Proof.
  unfold verifyPassForSelectedTeam.
  set (team := selectedTeam (storage g)).
  destruct (teamRegistry g !! team) as [reg|] eqn:Hreg.
  - destruct (truthy (reg_passphrase reg)) eqn:Hpass.
    + set (entered := enteredPass g team).
      destruct (bool_decide (entered = []) || _) eqn:Hbad; [discriminate|].
      apply orb_false_iff in Hbad as [Hne Heq].
      apply bool_decide_eq_false in Hne.
      apply negb_false_iff, bool_decide_eq_true in Heq.
      intros [= <-]. cbn [teamLocked teamRegistry storage setStorage fillInput
                          markInput say setTeamLocked].
      rewrite selectedTeam_setStoredPass. repeat apply conj; try reflexivity.
      intros g2 Hls Hrg Hin. cbn in Hls, Hrg.
      rewrite Hls, Hrg, selectedTeam_setStoredPass. fold team. rewrite Hreg, Hpass.
      assert (enteredPass g2 team = entered) as ->.
      { unfold enteredPass at 1. rewrite Hls, getStoredPass_setStoredPass.
        assert (trim entered = entered) as Ht by apply trim_trim.
        destruct (passInput g2) as [[v e]|] eqn:Hv; [|exact Ht].
        rewrite (Hin v e eq_refl). by rewrite bool_decide_eq_true_2. }
      rewrite bool_decide_eq_false_2 by exact Hne.
      by rewrite bool_decide_eq_true_2 by exact Heq.
    + intros [= <-]. cbn. repeat apply conj; try reflexivity.
      intros g2 Hls Hrg _. cbn in Hls, Hrg. rewrite Hls, Hrg. fold team.
      by rewrite Hreg, Hpass.
  - intros [= <-]. cbn. repeat apply conj; try reflexivity.
    intros g2 Hls Hrg _. cbn in Hls, Hrg. rewrite Hls, Hrg. fold team.
    by rewrite Hreg.
Qed.

(** A passphrase registered with white space around it never opens the
    gate: what is entered is trimmed before it is compared, the registered
    passphrase is not, so whatever the field and [localStorage] hold, the
    verification fails and the team stays locked. *)
Theorem untrimmed_passphrase_never_verifies g reg :
  teamRegistry g !! selectedTeam (storage g) = Some reg ->
  truthy (reg_passphrase reg) = true ->
  trim (ToString numberText (reg_passphrase reg))
  ≠ ToString numberText (reg_passphrase reg) ->
  (verifyPassForSelectedTeam numberText g).2 = false
  /\ teamLocked (verifyPassForSelectedTeam numberText g).1 = true
  /\ storage (verifyPassForSelectedTeam numberText g).1 = storage g.
Proof.
  intros Hreg Hpass Hws. unfold verifyPassForSelectedTeam.
  rewrite Hreg, Hpass.
  set (entered := enteredPass g (selectedTeam (storage g))).
  assert (entered ≠ ToString numberText (reg_passphrase reg)) as Hne.
  { intros Heq. apply Hws. rewrite <- Heq. apply trim_trim. }
  rewrite (bool_decide_eq_false_2 _ Hne), orb_true_r. by repeat split.
Qed.

End GateFacts.

(** A registry in which the team [GNT SLT] has the passphrase [tea], and
    one in which the passphrase was registered with a space after it. *)
Definition lockedGate (pass input : jsstring) : Gate :=
  {| storage := ∅;
     teamRegistry := {[ str "GNT SLT" := {| reg_team := str "GNT SLT";
                                            reg_passphrase := VStr pass |} ]};
     teamLocked := false; passInput := Some (input, false);
     passMsg := Some [] |}.

Lemma verified_pass_is_remembered_witness :
  (verifyPassForSelectedTeam (fun _ => []) (lockedGate (str "tea") (str " tea "))).2
  = true
  /\ teamLocked
       (verifyPassForSelectedTeam (fun _ => [])
          (lockedGate (str "tea") (str " tea "))).1 = false.
Proof.
  split; [vm_compute; reflexivity|].
  exact (proj1 (verified_pass_is_remembered (fun _ => [])
                  (lockedGate (str "tea") (str " tea ")) _ eq_refl)).
Defined.

Lemma untrimmed_passphrase_never_verifies_witness :
  truthy (VStr (str "tea ")) = true
  /\ (verifyPassForSelectedTeam (fun _ => [])
        (lockedGate (str "tea ") (str "tea "))).2 = false.
Proof.
  split; [reflexivity|].
  refine (proj1 (untrimmed_passphrase_never_verifies (fun _ => [])
                   (lockedGate (str "tea ") (str "tea "))
                   {| reg_team := str "GNT SLT";
                      reg_passphrase := VStr (str "tea ") |} _ _ _)).
  - vm_compute. reflexivity.
  - reflexivity.
  - vm_compute. discriminate.
Defined.

(** ** File names *)

(** [s.split(sep)] for a separator that is not empty: the parts between
    the occurrences of [sep], found from the left, one after the other.
    [skip] counts the code units of a separator still to pass over. *)
Fixpoint splitGo (sep : jsstring) (skip : nat) (s : jsstring) : list jsstring :=
  match s with
  | [] => [[]]
  | c :: r =>
      match skip with
      | S k => splitGo sep k r
      | O =>
          if startsWith sep s then [] :: splitGo sep (length sep - 1) r
          else consFirst c (splitGo sep 0 r)
      end
  end.

Definition splitOn (sep s : jsstring) : list jsstring := splitGo sep 0 s.

Definition SEP : jsstring := str " -- ".

(** [/\.txt$/i.test(nm)]: the [i] flag folds the ASCII letters only. *)
Definition endsTxt (nm : jsstring) : bool :=
  endsWith (str ".txt") (map lowerUnit nm).

(** [nm.replace(/\.txt$/i,'')] *)
Definition stripTxt (nm : jsstring) : jsstring :=
  if endsTxt nm then take (length nm - 4) nm else nm.

(** [(it.name||'')] as the receiver of a string method: a name that is
    truthy and not a string has no such method, and the call throws. *)
Definition nameOf (it : value) : result jsstring :=
  v ← getProp it (str "name");
  if truthy v then
    match v with
    | VStr s => Ok s
    | _ => Throw typeError
    end
  else Ok [].

(** [set.add(x)] on a [Set] kept in insertion order. *)
Definition setAdd (x : jsstring) (set : list jsstring) : list jsstring :=
  if bool_decide (x ∈ set) then set else set ++ [x].

(** The order of [sort()] without a comparator function: strings by their
    code units. *)
Fixpoint strLeb (a b : jsstring) : bool :=
  match a, b with
  | [], _ => true
  | _ :: _, [] => false
  | c :: a', d :: b' => (c <? d)%N || ((c =? d)%N && strLeb a' b')
  end.

Definition strLe (a b : jsstring) : Prop := strLeb a b = true.

#[global] Instance strLe_dec a b : Decision (strLe a b).
Proof. unfold strLe. apply _. Defined.

(** [[...set].sort()] *)
Definition sortStrings (l : list jsstring) : list jsstring := merge_sort strLe l.

(** The body of the loop of [extractSessionsFromFiles]. *)
Definition addSession (team : jsstring) (set : list jsstring) (it : value)
  : result (list jsstring) :=
  nm ← nameOf it;
  let parts := splitOn SEP (stripTxt nm) in
  if (3 <=? length parts)%nat
     && bool_decide (trim (default [] (parts !! 0%nat)) = team)
  then Ok (setAdd (trim (default [] (parts !! 2%nat))) set)
  else Ok set.

(** [function extractSessionsFromFiles(files, team)] *)
Definition extractSessionsFromFiles (files : list value) (team : jsstring)
  : result (list jsstring) :=
  sortStrings <$> forEach (addSession team) [] files.

(** A team or session name that file names carry unchanged: not empty, no
    white space at either end, and no [ --] in it. *)
Definition cleanName (x : jsstring) : Prop :=
  x ≠ [] /\ trim x = x /\ includes (str " --") x = false.

(** An item of a directory listing named for a writer's file. *)
Definition namedFor (it : value) (w : jsstring * jsstring * jsstring) : Prop :=
  getProp it (str "name")
  = Ok (VStr (fileNameFor w.1.1 w.1.2 w.2 ++ str ".txt")).

Lemma startsWith_app p s : startsWith p (p ++ s) = true.
Proof. induction p as [|c p IH]; [reflexivity|]. cbn. by rewrite N.eqb_refl. Qed.

Lemma splitGo_skip sep a rest :
  splitGo sep (length a) (a ++ rest) = splitGo sep 0 rest.
Proof.
  induction a as [|c a IH]; [reflexivity|].
  destruct rest as [|d rest]; cbn [app length splitGo]; exact IH.
Qed.

Lemma splitOn_sep sep rest :
  sep ≠ [] -> splitOn sep (sep ++ rest) = [] :: splitOn sep rest.
Proof.
  intros Hsep. unfold splitOn. destruct sep as [|c sep]; [done|].
  cbn [app splitGo]. change (c :: sep ++ rest) with ((c :: sep) ++ rest).
  rewrite startsWith_app.
  replace (length (c :: sep) - 1)%nat with (length sep) by (cbn; lia).
  by rewrite splitGo_skip.
Qed.

(** A part in front of a separator, with no earlier place where the
    separator starts, is the first part of the split. *)
Lemma splitOn_part sep part rest :
  sep ≠ [] ->
  (forall i, (i < length part)%nat ->
             startsWith sep (drop i (part ++ sep ++ rest)) = false) ->
  splitOn sep (part ++ sep ++ rest) = part :: splitOn sep rest.
Proof.
  intros Hsep. induction part as [|c part IH]; intros Hno.
  - exact (splitOn_sep sep rest Hsep).
  - unfold splitOn. cbn [app splitGo].
    pose proof (Hno 0%nat ltac:(cbn; lia)) as H0. rewrite drop_0 in H0.
    cbn [app] in H0. rewrite H0.
    fold (splitOn sep (part ++ sep ++ rest)). rewrite IH; [reflexivity|].
    intros i Hi. apply (Hno (S i)). cbn. lia.
Qed.

Lemma splitOn_whole sep s : includes sep s = false -> splitOn sep s = [s].
Proof.
  unfold splitOn. induction s as [|c s IH]; [reflexivity|].
  cbn [includes]. intros [H1 H2]%orb_false_iff. cbn [splitGo].
  rewrite H1, (IH H2). reflexivity.
Qed.

Lemma includes_tail p c s : includes p (c :: s) = false -> includes p s = false.
Proof. cbn [includes]. by intros [_ ?]%orb_false_iff. Qed.

Lemma includes_head p s : includes p s = false -> startsWith p s = false.
Proof. destruct s; cbn [includes]; by intros [? _]%orb_false_iff. Qed.

(** In a name without [ --], followed by the separator, the separator
    starts nowhere before the end of the name. *)
Lemma SEP_not_before part rest i :
  includes (str " --") part = false ->
  (i < length part)%nat ->
  startsWith SEP (drop i (part ++ SEP ++ rest)) = false.
Proof.
  revert i. induction part as [|c part IH]; intros i Hinc Hi; [cbn in Hi; lia|].
  destruct i as [|i].
  - apply includes_head in Hinc. rewrite drop_0.
    change SEP with [32; 45; 45; 32]%N.
    change (str " --") with [32; 45; 45]%N in Hinc.
    destruct part as [|c2 [|c3 part]]; cbn [app startsWith] in *;
      repeat match goal with
             | |- context [N.eqb ?a ?b] =>
                 is_var b; destruct (N.eqb a b) eqn:?
             end;
      cbn in *; congruence.
  - cbn [app drop]. apply IH; [by apply includes_tail in Hinc|cbn in Hi; lia].
Qed.

Lemma startsWith_prefix p q s : startsWith (p ++ q) s = true -> startsWith p s = true.
Proof.
  revert s. induction p as [|c p IH]; intros s; [reflexivity|].
  destruct s as [|d s]; cbn; [done|].
  intros [-> H]%andb_prop. by rewrite (IH s H).
Qed.

Lemma includes_prefix p q s : includes p s = false -> includes (p ++ q) s = false.
Proof.
  induction s as [|c s IH].
  - cbn. rewrite !orb_false_r. intros H.
    destruct (startsWith (p ++ q) []) eqn:E; [|reflexivity].
    by rewrite (startsWith_prefix p q [] E) in H.
  - cbn [includes]. intros [H1 H2]%orb_false_iff. rewrite (IH H2), orb_false_r.
    destruct (startsWith (p ++ q) (c :: s)) eqn:E; [|reflexivity].
    by rewrite (startsWith_prefix p q _ E) in H1.
Qed.

Lemma stripTxt_txt x : stripTxt (x ++ str ".txt") = x.
Proof.
  unfold stripTxt, endsTxt, endsWith.
  rewrite map_app, rev_app_distr.
  change (map lowerUnit (str ".txt")) with (str ".txt").
  rewrite startsWith_app, length_app.
  change (length (str ".txt")) with 4%nat.
  replace (length x + 4 - 4)%nat with (length x) by lia.
  apply take_app_length.
Qed.

Lemma cleanName_head x :
  cleanName x -> exists c r, x = c :: r /\ isWhiteSpace c = false.
Proof.
  intros (Hne & Htrim & _). pose proof (trim_head x) as H. rewrite Htrim in H.
  destruct x as [|c r]; [done|]. eauto.
Qed.

Lemma cleanName_last x :
  cleanName x -> exists r d, x = r ++ [d] /\ isWhiteSpace d = false.
Proof.
  intros (Hne & Htrim & _). pose proof (trim_last x) as H. rewrite Htrim in H.
  destruct x as [|d r _] using rev_ind; [done|].
  rewrite last_snoc in H. eauto.
Qed.

(** A file name made of clean names splits back into them. *)
Lemma fileNameFor_parts t p s :
  cleanName t -> includes (str " --") p = false -> cleanName s ->
  fileNameFor t p s = t ++ SEP ++ p ++ SEP ++ s
  /\ splitOn SEP (fileNameFor t p s) = [t; p; s].
Proof.
  intros Ht Hp Hs.
  assert (fileNameFor t p s = t ++ SEP ++ p ++ SEP ++ s) as ->.
  { unfold fileNameFor. fold SEP.
    destruct (cleanName_head t Ht) as (c & r & -> & Hc).
    destruct (cleanName_last s Hs) as (r' & d & -> & Hd).
    apply trim_ends; [exact Hc|].
    rewrite !app_assoc, last_snoc. exact Hd. }
  split; [reflexivity|].
  assert (SEP ≠ []) as Hsep by discriminate.
  rewrite (splitOn_part SEP t (p ++ SEP ++ s) Hsep)
    by (intros i Hi; apply SEP_not_before; [apply Ht|exact Hi]).
  pose proof (splitOn_part SEP p s Hsep) as Hp2.
  rewrite Hp2 by (intros i Hi; apply SEP_not_before; [exact Hp|exact Hi]).
  rewrite splitOn_whole; [reflexivity|].
  change SEP with (str " --" ++ str " "). apply includes_prefix, Hs.
Qed.

Lemma strLeb_total a b : strLeb a b = true \/ strLeb b a = true.
Proof.
  revert b. induction a as [|c a IH]; intros [|d b]; cbn; auto.
  destruct (N.ltb_spec c d), (N.ltb_spec d c), (N.eqb_spec c d),
    (N.eqb_spec d c); cbn; try lia; auto.
Qed.

Lemma strLeb_trans a b c :
  strLeb a b = true -> strLeb b c = true -> strLeb a c = true.
Proof.
  revert b c. induction a as [|x a IH]; intros [|y b] [|z c]; cbn; try done.
  destruct (N.ltb_spec x y), (N.ltb_spec y z), (N.ltb_spec x z),
    (N.eqb_spec x y), (N.eqb_spec y z), (N.eqb_spec x z); cbn;
    try lia; try done.
  apply IH.
Qed.

#[global] Instance strLe_total : Total strLe.
Proof. intros a b. apply strLeb_total. Qed.

#[global] Instance strLe_trans : Transitive strLe.
Proof. intros a b c. apply strLeb_trans. Qed.

(** The sessions found for a writer's file. *)
Lemma addSession_namedFor team set it w :
  namedFor it w ->
  cleanName w.1.1 -> includes (str " --") w.1.2 = false -> cleanName w.2 ->
  addSession team set it
  = Ok (if bool_decide (w.1.1 = team) then setAdd w.2 set else set).
Proof.
  destruct w as [[t p] s]. unfold namedFor. cbn [fst snd].
  intros Hit Ht Hp Hs. unfold addSession, nameOf. rewrite Hit. cbn [mbind result_bind].
  assert (truthy (VStr (fileNameFor t p s ++ str ".txt")) = true) as ->.
  { cbn. apply negb_true_iff, bool_decide_eq_false.
    intros H%(f_equal length). rewrite length_app in H.
    change (length (str ".txt")) with 4%nat in H. cbn in H. lia. }
  cbn [mbind result_bind]. rewrite stripTxt_txt.
  rewrite (proj2 (fileNameFor_parts t p s Ht Hp Hs)).
  change ([t; p; s] !! 0%nat) with (Some t).
  change ([t; p; s] !! 2%nat) with (Some s).
  cbn [length Nat.leb default andb]. unfold id.
  destruct Ht as (_ & -> & _). destruct Hs as (_ & -> & _).
  by case_bool_decide.
Qed.

Definition sessionsOf (team : jsstring)
    (ws : list (jsstring * jsstring * jsstring)) (set : list jsstring)
  : list jsstring :=
  fold_left (fun set w => if bool_decide (w.1.1 = team) then setAdd w.2 set
                          else set) ws set.

Lemma forEach_addSession team files ws set :
  Forall2 namedFor files ws ->
  Forall (fun w => cleanName w.1.1 /\ includes (str " --") w.1.2 = false
                   /\ cleanName w.2) ws ->
  forEach (addSession team) set files = Ok (sessionsOf team ws set).
Proof.
  intros HF. revert set. induction HF as [|it w files ws Hit HF IH]; intros set Hc.
  - reflexivity.
  - apply Forall_cons in Hc as [(Ht & Hp & Hs) Hc]. cbn [forEach].
    rewrite (addSession_namedFor team set it w Hit Ht Hp Hs).
    cbn [mbind result_bind]. by rewrite IH.
Qed.

Lemma sessionsOf_spec team ws set :
  NoDup set ->
  NoDup (sessionsOf team ws set)
  /\ forall s, s ∈ sessionsOf team ws set
               <-> s ∈ set \/ exists p, (team, p, s) ∈ ws.
Proof.
  revert set. induction ws as [|[[t p] s'] ws IH]; intros set Hset.
  - split; [done|]. intros s. cbn. split; [auto|].
    intros [?|(p & Hp)]; [done|]. by apply elem_of_nil in Hp.
  - cbn [sessionsOf fold_left fst snd].
    set (set' := if bool_decide (t = team) then setAdd s' set else set).
    assert (NoDup set' /\ forall s, s ∈ set' <-> s ∈ set \/ (t = team /\ s = s'))
      as [Hnd Hin].
    { unfold set', setAdd. case_bool_decide as Ht.
      - case_bool_decide as Hs.
        + split; [done|]. intros s. split; [auto|].
          intros [?|[_ ->]]; done.
        + split.
          * apply NoDup_app. repeat split; [done| |apply NoDup_singleton].
            intros x Hx ->%list_elem_of_singleton. done.
          * intros s. rewrite elem_of_app, list_elem_of_singleton. tauto.
      - split; [done|]. intros s. split; [auto|]. intros [?|[? _]]; done. }
    destruct (IH set' Hnd) as [Hnd' Hin']. split; [exact Hnd'|].
    intros s. rewrite (Hin' s), (Hin s). split.
    + intros [[?|[-> ->]]|(q & Hq)]; [by left| |].
      * right. exists p. left.
      * right. exists q. by right.
    + intros [?|(q & Hq)]; [by left; left|].
      apply elem_of_cons in Hq as [[= -> -> ->]|Hq].
      * left. by right.
      * right. by exists q.
Qed.

(** The sessions offered for deletion are those of the team's files.  For
    a listing of files named by [fileNameFor] from clean team and session
    names, [extractSessionsFromFiles] returns, in the order of [sort()] and
    without repetition, exactly the sessions of the files of the given
    team. *)
Theorem sessions_listed_are_the_teams files ws team :
  Forall2 namedFor files ws ->
  Forall (fun w => cleanName w.1.1 /\ includes (str " --") w.1.2 = false
                   /\ cleanName w.2) ws ->
  exists l,
    extractSessionsFromFiles files team = Ok l
    /\ StronglySorted strLe l
    /\ NoDup l
    /\ forall s, s ∈ l <-> exists p, (team, p, s) ∈ ws.
Proof.
  intros HF Hc. unfold extractSessionsFromFiles.
  rewrite (forEach_addSession team files ws [] HF Hc). cbn [fmap result_fmap].
  destruct (sessionsOf_spec team ws [] (NoDup_nil_2)) as [Hnd Hin].
  eexists. split; [reflexivity|]. unfold sortStrings. repeat apply conj.
  - apply StronglySorted_merge_sort; apply _.
  - by rewrite merge_sort_Permutation.
  - intros s. rewrite merge_sort_Permutation, Hin. split; [|by right].
    intros [H|H]; [by apply elem_of_nil in H|done].
Qed.

(** ** Listing and deleting files *)

(** [function dirRoot(cfg)], and the same expression in [listDirectory]:
    [cfg.DIR ? cfg.DIR.replace(/^\/+|\/+$/g, '') : '']. *)
Definition dirRoot (cfg : Config) : jsstring :=
  if bool_decide (DIR cfg = []) then [] else trimSlashes (DIR cfg).

(** The path [listDirectory] reads:
    [`/repos/${cfg.OWNER}/${cfg.REPO}/contents${encDir}?ref=${ref}`]. *)
Definition listingPath (cfg : Config) : result jsstring :=
  let dir := dirRoot cfg in
  encDir ← (if bool_decide (dir = []) then Ok []
            else enc ← encodeURIComponent dir; Ok (str "/" ++ unescapeSlashes enc));
  ref ← encodeURIComponent (BRANCH cfg);
  Ok (str "/repos/" ++ OWNER cfg ++ str "/" ++ REPO cfg ++ str "/contents"
      ++ encDir ++ str "?ref=" ++ ref).

(** [for await], [for ... of] with an asynchronous body. *)
Fixpoint forEachP {A} (body : A -> prog ()) (l : list A) : prog () :=
  match l with
  | [] => mret ()
  | x :: r => body x;; forEachP body r
  end.

(** [items.filter(f)] with a callback that may throw. *)
Fixpoint filterM {A} (f : A -> result bool) (l : list A) : result (list A) :=
  match l with
  | [] => Ok []
  | x :: r =>
      b ← f x; kept ← filterM f r; Ok (if b : bool then x :: kept else kept)
  end.

Section Listing.

Variable numberText : number -> jsstring.

(** [x && x.type === 'file' && /\.txt$/i.test(x.name)] *)
Definition isTxtFile (x : value) : bool :=
  truthy x && isString (str "file") (prop x (str "type"))
  && endsTxt (ToString numberText (prop x (str "name"))).

(** [Array.isArray(data) ? data : []] *)
Definition itemsOf (data : value) : list value :=
  match data with
  | VArr l => l
  | _ => []
  end.

(** [async function listDirectory(cfg)] *)
Definition listDirectory (cfg : Config) : prog (list value) :=
  path ← lift (listingPath cfg);
  tryCatchP
    (r ← ghGetJsonWithEtag path;
     mret (filter (fun x => isTxtFile x = true) (itemsOf (snd r))))
    (fun _ => mret []).

(** [encodeURIComponent(filePath).replace(/%2F/g,'/')] on [it.path], which
    is turned into a string first. *)
Definition pathOf (it : value) : jsstring :=
  ToString numberText (prop it (str "path")).

(** [async function deleteFile(cfg, filePath, sha, message)].  The body of
    a [DELETE] carries no content: [b_content] is left empty. *)
Definition deleteFile (cfg : Config) (filePath : jsstring) (sha : value)
    (message : jsstring) : prog value :=
  enc ← lift (unescapeSlashes <$> encodeURIComponent filePath);
  let b := {| b_message := message; b_content := [];
              b_branch := BRANCH cfg; b_sha := Some sha |} in
  let path := str "/repos/" ++ OWNER cfg ++ str "/" ++ REPO cfg
              ++ str "/contents/" ++ enc in
  res ← ghFetch path DELETE (Some b) None;
  if negb (r_ok res) then throw (Error (httpMessage res) (Some (r_status res)))
  else lift (r_json res).

(** [(it.name||'').startsWith(cfg.TEAM_NAME + ' -- ')
     && (it.name||'').endsWith(` -- ${session}.txt`)] *)
Definition isSessionFile (cfg : Config) (session : jsstring) (it : value)
  : result bool :=
  nm ← nameOf it;
  Ok (startsWith (TEAM_NAME cfg ++ SEP) nm
      && endsWith (SEP ++ session ++ str ".txt") nm).

(** [`Round Table: delete session ${session} (${cfg.TEAM_NAME})`] *)
Definition deleteMessage (cfg : Config) (session : jsstring) : jsstring :=
  str "Round Table: delete session " ++ session ++ str " (" ++ TEAM_NAME cfg
  ++ str ")".

(** The body of the loop of [deleteBySession]:
    [try { const meta = await ghGetContentsMeta(cfg, it.path);
           if (meta?.sha) await deleteFile(cfg, it.path, meta.sha, ...); }
     catch(e){ recordApiError(e); }] *)
Definition deleteOne (cfg : Config) (session : jsstring) (it : value) : prog () :=
  tryCatchP
    (meta ← ghGetContentsMeta cfg (pathOf it);
     match shaOf meta with
     | Some s => deleteFile cfg (pathOf it) s (deleteMessage cfg session);; mret ()
     | None => mret ()
     end)
    (fun _ => mret ()).

(** [async function deleteBySession(session)] up to its last two
    statements, which refresh the page.  [verified] is what
    [verifyPassForSelectedTeam()] returned and [confirmed] what the user
    answered to [confirm(...)]. *)
Definition deleteBySession (verified confirmed : bool) (cfg : Config)
    (session : jsstring) : prog () :=
  if negb verified then mret ()
  else if bool_decide (session = []) then mret ()
  else if negb confirmed then mret ()
  else
    files ← listDirectory cfg;
    targets ← lift (filterM (isSessionFile cfg session) files);
    forEachP (deleteOne cfg session) targets.

End Listing.

(** Every request a computation sends satisfies [P], whatever the state
    and the answers. *)
Definition emits {A} (m : prog A) (P : request -> Prop) : Prop :=
  forall st answers, Forall P (run (m st) answers).1.

Lemma emits_mret {A} (a : A) P : emits (mret a) P.
Proof. intros st answers. constructor. Qed.

Lemma emits_lift {A} (r : result A) P : emits (lift r) P.
Proof. intros st answers. constructor. Qed.

Lemma emits_throw {A} (e : error) P : emits (throw (A := A) e) P.
Proof. intros st answers. constructor. Qed.

Lemma emits_getState P : emits getState P.
Proof. intros st answers. constructor. Qed.

Lemma emits_modify f P : emits (modify f) P.
Proof. intros st answers. constructor. Qed.

(** The request [ghFetch] sends. *)
Definition fetchRequest (path : jsstring) (m : method) (b : option body)
    (etag : option jsstring) : request :=
  {| q_method := m; q_path := path;
     q_etag := match etag with
               | Some t => if bool_decide (t = []) then None else Some t
               | None => None
               end;
     q_body := b |}.

Lemma emits_ghFetch path m b etag (P : request -> Prop) :
  P (fetchRequest path m b etag) -> emits (ghFetch path m b etag) P.
Proof.
  intros HP st [|a rest]; cbn; repeat constructor; exact HP.
Qed.

Lemma emits_bind {A B} (m : prog A) (f : A -> prog B) P :
  emits m P -> (forall a, emits (f a) P) -> emits (m ≫= f) P.
Proof.
  intros Hm Hf st answers. rewrite run_mbind.
  pose proof (Hm st answers) as H1.
  destruct (run (m st) answers) as [t1 [[st' [a|e]]|]]; cbn in *; try exact H1.
  pose proof (Hf a st' (drop (length t1) answers)) as H2.
  destruct (run (f a st') (drop (length t1) answers)) as [t2 o2]. cbn in *.
  by apply Forall_app.
Qed.

Lemma emits_tryCatchP {A} (m : prog A) (h : error -> prog A) P :
  emits m P -> (forall e, emits (h e) P) -> emits (tryCatchP m h) P.
Proof.
  intros Hm Hh st answers. rewrite run_tryCatchP.
  pose proof (Hm st answers) as H1.
  destruct (run (m st) answers) as [t1 [[st' [a|e]]|]]; cbn in *; try exact H1.
  pose proof (Hh e st' (drop (length t1) answers)) as H2.
  destruct (run (h e st') (drop (length t1) answers)) as [t2 o2]. cbn in *.
  by apply Forall_app.
Qed.

Lemma emits_forEachP {A} (body : A -> prog ()) (l : list A) P :
  (forall x, x ∈ l -> emits (body x) P) -> emits (forEachP body l) P.
Proof.
  induction l as [|x l IH]; intros Hb; cbn [forEachP].
  - apply emits_mret.
  - apply emits_bind; [apply Hb; left|].
    intros _. apply IH. intros y Hy. apply Hb. by right.
Qed.

Lemma emits_weaken {A} (m : prog A) (P Q : request -> Prop) :
  (forall q, P q -> Q q) -> emits m P -> emits m Q.
Proof.
  intros HPQ Hm st answers. eapply Forall_impl; [apply Hm|exact HPQ].
Qed.

Ltac emits_step :=
  first
    [ apply emits_mret | apply emits_lift | apply emits_throw
    | apply emits_getState | apply emits_modify
    | apply emits_bind; [|intros ?]
    | apply emits_tryCatchP; [|intros ?]
    | match goal with |- emits (if ?b then _ else _) _ => destruct b end
    | match goal with
      | |- emits (match ?o with Some _ => _ | None => _ end) _ => destruct o
      end ].

Lemma emits_ghGetJsonWithEtag path :
  emits (ghGetJsonWithEtag path)
    (fun q => q_method q = GET /\ q_path q = path /\ q_body q = None).
Proof.
  unfold ghGetJsonWithEtag.
  repeat first [emits_step | apply emits_ghFetch; by repeat split].
Qed.

Lemma emits_ghGetContentsMeta cfg fp :
  emits (ghGetContentsMeta cfg fp)
    (fun q => q_method q = GET /\ q_body q = None).
Proof.
  unfold ghGetContentsMeta.
  repeat first [emits_step | apply emits_ghFetch; by repeat split].
Qed.

(** How a computation ends, when the answers suffice. *)
Definition ends {A} (m : prog A) (Q : State -> State -> result A -> Prop) : Prop :=
  forall st answers t st' out,
    run (m st) answers = (t, Some (st', out)) -> Q st st' out.

Lemma ends_bind {A B} (m : prog A) (f : A -> prog B)
    (Q1 : State -> State -> result A -> Prop)
    (Q2 : State -> State -> result B -> Prop)
    (Q : State -> State -> result B -> Prop) :
  ends m Q1 -> (forall a, ends (f a) Q2) ->
  (forall st st1 e, Q1 st st1 (Throw e) -> Q st st1 (Throw e)) ->
  (forall st st1 st2 a out, Q1 st st1 (Ok a) -> Q2 st1 st2 out -> Q st st2 out) ->
  ends (m ≫= f) Q.
Proof.
  intros Hm Hf Hthrow Hok st answers t st' out. rewrite run_mbind.
  destruct (run (m st) answers) as [t1 [[st1 [a|e]]|]] eqn:H1.
  - destruct (run (f a st1) (drop (length t1) answers)) as [t2 o2] eqn:H2.
    intros [= _ ->]. eapply Hok; [eapply Hm, H1|eapply Hf, H2].
  - intros [= _ <- <-]. eapply Hthrow, Hm, H1.
  - discriminate.
Qed.

Lemma ends_tryCatchP {A} (m : prog A) (h : error -> prog A)
    (Q1 Q2 Q : State -> State -> result A -> Prop) :
  ends m Q1 -> (forall e, ends (h e) Q2) ->
  (forall st st1 a, Q1 st st1 (Ok a) -> Q st st1 (Ok a)) ->
  (forall st st1 st2 e out, Q1 st st1 (Throw e) -> Q2 st1 st2 out -> Q st st2 out) ->
  ends (tryCatchP m h) Q.
Proof.
  intros Hm Hh Hok Hthrow st answers t st' out. rewrite run_tryCatchP.
  destruct (run (m st) answers) as [t1 [[st1 [a|e]]|]] eqn:H1.
  - intros [= _ <- <-]. eapply Hok, Hm, H1.
  - destruct (run (h e st1) (drop (length t1) answers)) as [t2 o2] eqn:H2.
    intros [= _ ->]. eapply Hthrow; [eapply Hm, H1|eapply Hh, H2].
  - discriminate.
Qed.

Lemma ends_stateless {A} (m : prog A) : stateless m -> ends m (fun st st' _ => st' = st).
Proof. intros Hm st answers t st' out H. by eapply Hm. Qed.

Lemma ends_mret {A} (a : A) : ends (mret a) (fun st st' out => st' = st /\ out = Ok a).
Proof. intros st answers t st' out [= _ <- <-]. by split. Qed.

Lemma emits_lift_bind {A B} (r : result A) (f : A -> prog B) P :
  (forall a, r = Ok a -> emits (f a) P) -> emits (lift r ≫= f) P.
Proof.
  intros Hf st answers. rewrite run_lift_bind.
  destruct r as [a|e]; [by apply Hf|constructor].
Qed.

Lemma filterM_spec {A} (f : A -> result bool) (l kept : list A) :
  filterM f l = Ok kept -> forall x, x ∈ kept -> x ∈ l /\ f x = Ok true.
Proof.
  revert kept. induction l as [|y l IH]; intros kept; cbn [filterM].
  - intros [= <-] x Hx. by apply elem_of_nil in Hx.
  - destruct (f y) as [b|e] eqn:Hy; [|discriminate]. cbn [mbind result_bind].
    destruct (filterM f l) as [kept'|e]; [|discriminate]. cbn [mbind result_bind].
    intros [= <-] x Hx. destruct b.
    + apply elem_of_cons in Hx as [->|Hx]; [split; [left|done]|].
      destruct (IH kept' eq_refl x Hx). split; [by right|done].
    + destruct (IH kept' eq_refl x Hx). split; [by right|done].
Qed.

Lemma shaOf_truthy meta s : shaOf meta = Some s -> truthy s = true.
Proof.
  unfold shaOf. destruct meta as [m|]; [|discriminate].
  destruct (truthy (sha m)) eqn:H; [|discriminate]. by intros [= <-].
Qed.

Section ListingFacts.

Variable numberText : number -> jsstring.

(** A listing that fails reads as an empty directory.  [listDirectory]
    sends one conditional [GET] for the directory and never throws: it
    returns items that are files with a name in [.txt], and when the
    request is rejected or answered with an error status it returns the
    empty list and leaves the runtime state, the cache included, as it
    was. *)
Theorem listing_is_forgiving cfg path st answers t st' out :
  listingPath cfg = Ok path ->
  run (listDirectory numberText cfg st) answers = (t, Some (st', out)) ->
  t = [readRequest path (cache_dir st !! path ≫= de_etag)]
  /\ (exists files,
        out = Ok files
        /\ Forall (fun x => isTxtFile numberText x = true) files)
  /\ (forall a,
        head answers = Some a ->
        match a with
        | Throw _ => True
        | Ok res => r_status res ≠ 304%N /\ r_ok res = false
        end ->
        out = Ok [] /\ st' = st).
Proof.
  intros Hpath. unfold listDirectory. rewrite Hpath, run_lift_bind.
  rewrite run_tryCatchP, run_mbind.
  destruct answers as [|a rest]; [discriminate|].
  rewrite run_ghGetJsonWithEtag. cbn [length drop].
  assert (forall l, Forall (fun x => isTxtFile numberText x = true)
                      (filter (fun x => isTxtFile numberText x = true) l)) as Hfil.
  { intros l. apply Forall_forall. intros x Hx.
    by apply list_elem_of_filter in Hx as [? _]. }
  destruct a as [res|e].
  - destruct (r_status res =? 304)%N eqn:H304.
    + cbn. intros [= <- <- <-]. repeat apply conj; [done|eauto|].
      intros a [= <-] [Hne _]. apply N.eqb_eq in H304. done.
    + destruct (r_ok res) eqn:Hok; cbn [negb].
      * destruct (r_json res) as [data|e]; cbn.
        -- intros [= <- <- <-]. repeat apply conj; [done|eauto|].
           intros a [= <-] [_ ?]. congruence.
        -- intros [= <- <- <-]. repeat apply conj; [done|eauto|].
           intros a [= <-] [_ ?]. congruence.
      * cbn. intros [= <- <- <-]. repeat apply conj; [done|eauto|]. done.
  - cbn. intros [= <- <- <-]. repeat apply conj; [done|eauto|]. done.
Qed.

Lemma emits_listDirectory cfg :
  emits (listDirectory numberText cfg) (fun q => q_method q = GET).
Proof.
  unfold listDirectory. apply emits_bind; [apply emits_lift|]. intros path.
  apply emits_tryCatchP; [|intros ?; apply emits_mret].
  apply emits_bind; [|intros ?; apply emits_mret].
  eapply emits_weaken; [|apply emits_ghGetJsonWithEtag]. by intros q [? _].
Qed.

(** The request of [deleteFile]. *)
Definition deleteRequest (cfg : Config) (enc message : jsstring) (sha : value)
  : request :=
  fetchRequest (str "/repos/" ++ OWNER cfg ++ str "/" ++ REPO cfg
                ++ str "/contents/" ++ enc) DELETE
    (Some {| b_message := message; b_content := []; b_branch := BRANCH cfg;
             b_sha := Some sha |}) None.

Lemma emits_deleteFile cfg fp sha message :
  emits (deleteFile cfg fp sha message)
    (fun q => exists enc,
                unescapeSlashes <$> encodeURIComponent fp = Ok enc
                /\ q = deleteRequest cfg enc message sha).
Proof.
  unfold deleteFile. apply emits_lift_bind. intros enc Henc.
  apply emits_bind.
  - apply emits_ghFetch. by exists enc.
  - intros res. destruct (negb (r_ok res)); [apply emits_throw|apply emits_lift].
Qed.

(** What the loop of [deleteBySession] sends for an item: the look-up of
    its version, and the deletion of its path at a version that was
    found. *)
Definition sentFor (cfg : Config) (session : jsstring) (it : value)
    (q : request) : Prop :=
  (q_method q = GET /\ q_body q = None)
  \/ exists enc s,
       unescapeSlashes <$> encodeURIComponent (pathOf numberText it) = Ok enc
       /\ truthy s = true
       /\ q = deleteRequest cfg enc (deleteMessage cfg session) s.

Lemma emits_deleteOne cfg session it :
  emits (deleteOne numberText cfg session it) (sentFor cfg session it).
Proof.
  unfold deleteOne. apply emits_tryCatchP; [|intros ?; apply emits_mret].
  apply emits_bind.
  - eapply emits_weaken; [|apply emits_ghGetContentsMeta]. intros q ?. by left.
  - intros meta. destruct (shaOf meta) as [s|] eqn:Hs; [|apply emits_mret].
    apply emits_bind; [|intros ?; apply emits_mret].
    eapply emits_weaken; [|apply emits_deleteFile].
    intros q (enc & Henc & ->). right. exists enc, s.
    repeat split; [done|by eapply shaOf_truthy].
Qed.

(** Bulk deletion touches the files of the session only.  Whatever the
    store answers, [deleteBySession] sends nothing but [GET] and [DELETE]
    requests, and every [DELETE] it sends was authorised (the passphrase
    verified, a session picked, the question confirmed) and deletes, at a
    version just looked up, the path of an item of the listing whose name
    starts with the team and ends with the session. *)
Theorem bulk_delete_touches_session_files verified confirmed cfg session st
    answers q :
  q ∈ (run (deleteBySession numberText verified confirmed cfg session st)
         answers).1 ->
  (q_method q = GET \/ q_method q = DELETE)
  /\ (q_method q = DELETE ->
      verified = true /\ confirmed = true /\ session ≠ []
      /\ exists t1 st1 files it nm enc s,
           run (listDirectory numberText cfg st) answers
           = (t1, Some (st1, Ok files))
           /\ it ∈ files
           /\ nameOf it = Ok nm
           /\ startsWith (TEAM_NAME cfg ++ SEP) nm = true
           /\ endsWith (SEP ++ session ++ str ".txt") nm = true
           /\ unescapeSlashes <$> encodeURIComponent (pathOf numberText it)
              = Ok enc
           /\ truthy s = true
           /\ q = deleteRequest cfg enc (deleteMessage cfg session) s).
Proof.
  unfold deleteBySession.
  destruct verified; cbn [negb]; [|by intros ?%elem_of_nil].
  case_bool_decide as Hsession; [by intros ?%elem_of_nil|].
  destruct confirmed; cbn [negb]; [|by intros ?%elem_of_nil].
  rewrite run_mbind.
  pose proof (emits_listDirectory cfg st answers) as Hlist.
  destruct (run (listDirectory numberText cfg st) answers)
    as [t1 [[st1 [files|e]]|]] eqn:Hrun; cbn [fst] in *.
  - pose proof (emits_lift_bind (filterM (isSessionFile cfg session) files)
                  (forEachP (deleteOne numberText cfg session))
                  (fun q => exists it,
                              it ∈ files
                              /\ isSessionFile cfg session it = Ok true
                              /\ sentFor cfg session it q)) as Hloop.
    specialize (Hloop
      ltac:(intros targets Ht; apply emits_forEachP; intros it Hit;
            destruct (filterM_spec _ _ _ Ht it Hit) as [Hin Hf];
            eapply emits_weaken; [|apply emits_deleteOne];
            intros q' Hq'; by exists it)).
    specialize (Hloop st1 (drop (length t1) answers)).
    destruct (run _ (drop (length t1) answers)) as [t2 o2]. cbn [fst] in *.
    intros [Hq|Hq]%elem_of_app.
    + rewrite Forall_forall in Hlist. specialize (Hlist q Hq).
      split; [by left|]. congruence.
    + rewrite Forall_forall in Hloop.
      destruct (Hloop q Hq) as (it & Hin & Hf & [[Hget _]|(enc & s & Henc & Hs & ->)]).
      * split; [by left|]. congruence.
      * split; [by right|]. intros _. repeat split; try done.
        unfold isSessionFile in Hf.
        destruct (nameOf it) as [nm|] eqn:Hnm; [|discriminate].
        cbn in Hf. injection Hf as Hf. apply andb_prop in Hf as [H1 H2].
        by exists t1, st1, files, it, nm, enc, s.
  - intros Hq. rewrite Forall_forall in Hlist. specialize (Hlist q Hq).
    split; [by left|]. congruence.
  - intros Hq. rewrite Forall_forall in Hlist. specialize (Hlist q Hq).
    split; [by left|]. congruence.
Qed.

End ListingFacts.

Section DeleteLoop.

Variable numberText : number -> jsstring.

Lemma contentsPathRef_enc cfg fp p :
  contentsPathRef cfg fp = Ok p -> exists enc, encodeURIComponent fp = Ok enc.
Proof.
  unfold contentsPathRef, contentsPath.
  destruct (encodeURIComponent fp) as [enc|e]; [eauto|discriminate].
Qed.

Lemma run_ghFetch_bind {B} path m b etag (f : response -> prog B) st answers :
  run ((ghFetch path m b etag ≫= f) st) answers
  = match answers with
    | [] => ([fetchRequest path m b etag], None)
    | Ok res :: rest =>
        let '(t, o) := run (f res st) rest in (fetchRequest path m b etag :: t, o)
    | Throw e :: rest => ([fetchRequest path m b etag], Some (st, Throw e))
    end.
Proof.
  unfold mbind, prog_bind, ghFetch, fetchRequest.
  destruct answers as [|[res|e] rest]; cbn; try reflexivity.
Qed.

(** One turn of the loop: the look-up, then at most one request that is
    not a [GET]; if the answers suffice, it ends normally in the same
    state, whatever they were. *)
Lemma run_deleteOne cfg session it p st answers :
  contentsPathRef cfg (pathOf numberText it) = Ok p ->
  exists ds,
    (run (deleteOne numberText cfg session it st) answers).1 = metaRequest p :: ds
    /\ Forall (fun q => isGet q = false) ds
    /\ forall st' out,
         (run (deleteOne numberText cfg session it st) answers).2
         = Some (st', out) ->
         st' = st /\ out = Ok ().
Proof.
  intros Hp. destruct (contentsPathRef_enc _ _ _ Hp) as (enc & Henc).
  unfold deleteOne. rewrite run_tryCatchP.
  assert (forall (ds : list request) (o : option (State * result ())),
            Forall (fun q => isGet q = false) ds ->
            (o = None \/ o = Some (st, Ok ())) ->
            exists ds',
              (metaRequest p :: ds, o).1 = metaRequest p :: ds'
              /\ Forall (fun q => isGet q = false) ds'
              /\ forall st' out, (metaRequest p :: ds, o).2 = Some (st', out) ->
                                 st' = st /\ out = Ok ()) as Hfin.
  { intros ds o Hds Ho. exists ds. split; [reflexivity|]. split; [exact Hds|].
    intros st' out. cbn [snd]. destruct Ho as [-> | ->]; [discriminate|].
    intros [= <- <-]. by split. }
  destruct answers as [|a rest].
  - destruct (oneCall_ghGetContentsMeta cfg _ p Hp st) as (k' & Hcall & _).
    rewrite run_mbind, Hcall. cbn.
    apply (Hfin [] None); [constructor|by left].
  - rewrite (run_bind_oneCall _ _ _ _ st a rest
               (oneCall_ghGetContentsMeta cfg _ p Hp)).
    destruct (metaOf a) as [meta|e]; cbn [length drop].
    + destruct (shaOf meta) as [s|].
      * unfold deleteFile. rewrite Henc. cbn [fmap result_fmap].
        rewrite run_mbind, run_lift_bind, run_ghFetch_bind.
        destruct rest as [|[res|e] rest]; cbn.
        -- apply (Hfin [_] None); [by repeat constructor|by left].
        -- destruct (negb (r_ok res)); cbn.
           ++ apply (Hfin [_]); [by repeat constructor|by right].
           ++ destruct (r_json res); cbn;
                (apply (Hfin [_]); [by repeat constructor|by right]).
        -- apply (Hfin [_]); [by repeat constructor|by right].
      * cbn. apply (Hfin []); [constructor|by right].
    + cbn. apply (Hfin []); [constructor|by right].
Qed.

Lemma filter_isGet_nonGet (ds : list request) :
  Forall (fun q => isGet q = false) ds -> List.filter isGet ds = [].
Proof.
  induction 1 as [|q ds Hq _ IH]; [reflexivity|]. cbn. by rewrite Hq.
Qed.

Lemma filter_app_list {A} (f : A -> bool) (a b : list A) :
  List.filter f (a ++ b) = List.filter f a ++ List.filter f b.
Proof. apply List.filter_app. Qed.

Lemma run_deleteLoop cfg session targets paths st answers t st' out :
  Forall2 (fun it p => contentsPathRef cfg (pathOf numberText it) = Ok p)
    targets paths ->
  run (forEachP (deleteOne numberText cfg session) targets st) answers
  = (t, Some (st', out)) ->
  st' = st /\ out = Ok () /\ List.filter isGet t = map metaRequest paths.
Proof.
  intros HF. revert answers t.
  induction HF as [|it p targets paths Hp HF IH]; intros answers t; cbn [forEachP].
  - intros [= <- <- <-]. by repeat split.
  - rewrite run_mbind.
    destruct (run_deleteOne cfg session it p st answers Hp) as (ds & Ht & Hds & Hend).
    destruct (run (deleteOne numberText cfg session it st) answers)
      as [t1 [[st1 [u|e]]|]]; cbn [fst snd] in *.
    + destruct (Hend st1 (Ok u) eq_refl) as [-> _].
      destruct (run _ (drop (length t1) answers)) as [t2 o2] eqn:H2.
      intros [= <- ->]. destruct (IH _ _ H2) as (-> & -> & Hget).
      split; [reflexivity|]. split; [reflexivity|].
      rewrite Ht. cbn [app List.filter isGet metaRequest q_method map].
      by rewrite filter_app_list, (filter_isGet_nonGet ds Hds), Hget.
    + by destruct (Hend st1 (Throw e) eq_refl).
    + discriminate.
Qed.

(** A failure does not stop the bulk deletion.  Once the directory is
    listed, whatever the store answers to the look-ups and the deletions
    (errors, rejected requests, files gone in the meantime), a run that
    gets all its answers ends normally, changes nothing more in the
    runtime state, and has looked up every file of the session, in the
    order of the listing. *)
Theorem bulk_delete_tries_every_file cfg session st answers t1 st1 files
    targets paths t st' out :
  session ≠ [] ->
  run (listDirectory numberText cfg st) answers = (t1, Some (st1, Ok files)) ->
  filterM (isSessionFile cfg session) files = Ok targets ->
  Forall2 (fun it p => contentsPathRef cfg (pathOf numberText it) = Ok p)
    targets paths ->
  run (deleteBySession numberText true true cfg session st) answers
  = (t, Some (st', out)) ->
  out = Ok () /\ st' = st1
  /\ List.filter isGet (drop (length t1) t) = map metaRequest paths.
Proof.
  intros Hsession Hlist Hfilter Hpaths. unfold deleteBySession. cbn [negb].
  rewrite bool_decide_eq_false_2 by exact Hsession.
  rewrite run_mbind, Hlist, run_lift_bind, Hfilter.
  destruct (run _ (drop (length t1) answers)) as [t2 o2] eqn:Hloop.
  intros [= <- ->].
  destruct (run_deleteLoop cfg session targets paths st1 _ t2 st' out Hpaths Hloop)
    as (-> & -> & Hget).
  split; [reflexivity|]. split; [reflexivity|].
  by rewrite drop_app_length.
Qed.

End DeleteLoop.

(** An item of a directory listing, and the answer that lists items. *)
Definition fileItem (nm path : jsstring) : value :=
  VObj {[ str "name" := VStr nm; str "path" := VStr path;
          str "type" := VStr (str "file") ]}.

Definition listingAnswer (items : list value) : result response :=
  Ok {| r_status := 200; r_statusText := str "OK"; r_etag := Some (str "W/9");
        r_text := []; r_json := Ok (VArr items) |}.

(** Two files of one session: Ann's for the team [GNT SLT], Bob's for the
    team [Ops]. *)
Definition annItem : value :=
  fileItem (str "GNT SLT -- Ann -- 2026-01-01.txt")
    (str "roundtable/GNT SLT -- Ann -- 2026-01-01.txt").

Definition bobItem : value :=
  fileItem (str "Ops -- Bob -- 2026-01-01.txt")
    (str "roundtable/Ops -- Bob -- 2026-01-01.txt").

Definition noNumbers (n : number) : jsstring := [].

Lemma sessions_listed_are_the_teams_witness :
  Forall2 namedFor [annItem; bobItem]
    [(str "GNT SLT", str "Ann", str "2026-01-01");
     (str "Ops", str "Bob", str "2026-01-01")]
  /\ extractSessionsFromFiles [annItem; bobItem] (str "Ops")
     = Ok [str "2026-01-01"].
Proof.
  assert (Forall2 namedFor [annItem; bobItem]
            [(str "GNT SLT", str "Ann", str "2026-01-01");
             (str "Ops", str "Bob", str "2026-01-01")]) as H1.
  { repeat constructor; vm_compute; reflexivity. }
  assert (Forall (fun w : jsstring * jsstring * jsstring =>
                    cleanName w.1.1 /\ includes (str " --") w.1.2 = false
                    /\ cleanName w.2)
            [(str "GNT SLT", str "Ann", str "2026-01-01");
             (str "Ops", str "Bob", str "2026-01-01")]) as H2.
  { repeat constructor; try discriminate; vm_compute; reflexivity. }
  split; [exact H1|].
  destruct (sessions_listed_are_the_teams _ _ (str "Ops") H1 H2) as (l & Hl & _).
  rewrite Hl. f_equal. vm_compute in Hl. by injection Hl as <-.
Defined.

Lemma listing_is_forgiving_witness :
  listingPath CONFIG_DEFAULTS
  = Ok (str "/repos/sanders1973/RoundTable/contents/roundtable?ref=main")
  /\ exists t st',
       run (listDirectory noNumbers CONFIG_DEFAULTS initialState)
         [answer 403 (str "rate limit exceeded")]
       = (t, Some (st', Ok [])).
Proof.
  assert (listingPath CONFIG_DEFAULTS
          = Ok (str "/repos/sanders1973/RoundTable/contents/roundtable?ref=main"))
    as H1 by (vm_compute; reflexivity).
  split; [exact H1|].
  destruct (run (listDirectory noNumbers CONFIG_DEFAULTS initialState)
              [answer 403 (str "rate limit exceeded")])
    as [t [[st' out]|]] eqn:Hrun; [|vm_compute in Hrun; discriminate Hrun].
  destruct (listing_is_forgiving noNumbers CONFIG_DEFAULTS _ initialState _ t st'
              out H1 Hrun) as (_ & _ & Hfail).
  destruct (Hfail _ eq_refl) as [-> _]; [by split|].
  by exists t, st'.
Defined.

Definition deleteRun : list request :=
  (run (deleteBySession noNumbers true true CONFIG_DEFAULTS (str "2026-01-01")
          initialState)
     [listingAnswer [annItem; bobItem]; found (str "v1");
      answer 500 (str "Internal Server Error")]).1.

Lemma bulk_delete_touches_session_files_witness :
  last deleteRun
  = Some (deleteRequest CONFIG_DEFAULTS
            (str "roundtable/GNT%20SLT%20--%20Ann%20--%202026-01-01.txt")
            (deleteMessage CONFIG_DEFAULTS (str "2026-01-01")) (VStr (str "v1")))
  /\ length deleteRun = 3%nat
  /\ Forall (fun q => q_method q = GET \/ q_method q = DELETE) deleteRun.
Proof.
  split; [vm_compute; reflexivity|]. split; [vm_compute; reflexivity|].
  apply Forall_forall. intros q Hq.
  exact (proj1 (bulk_delete_touches_session_files noNumbers true true
                  CONFIG_DEFAULTS (str "2026-01-01") initialState _ q Hq)).
Defined.

Lemma bulk_delete_tries_every_file_witness :
  str "2026-01-01" ≠ []
  /\ snd <$> (run (deleteBySession noNumbers true true CONFIG_DEFAULTS
                     (str "2026-01-01") initialState)
                [listingAnswer [annItem; bobItem]; found (str "v1");
                 answer 500 (str "Internal Server Error")]).2
     = Some (Ok ()).
Proof.
  assert (str "2026-01-01" ≠ []) as H1 by discriminate.
  split; [exact H1|].
  set (dir := str "/repos/sanders1973/RoundTable/contents/roundtable?ref=main").
  set (st1 := setCacheDir
                {[ dir := {| de_etag := Some (str "W/9");
                             de_data := VArr [annItem; bobItem] |} ]}
                initialState).
  set (answers := [listingAnswer [annItem; bobItem]; found (str "v1");
                   answer 500 (str "Internal Server Error")]).
  assert (run (listDirectory noNumbers CONFIG_DEFAULTS initialState) answers
          = ([readRequest dir None], Some (st1, Ok [annItem; bobItem]))) as Hlist
    by reflexivity.
  destruct (run (deleteBySession noNumbers true true CONFIG_DEFAULTS
                   (str "2026-01-01") initialState) answers)
    as [t [[st' out]|]] eqn:Hrun; [|discriminate Hrun].
  destruct (bulk_delete_tries_every_file noNumbers CONFIG_DEFAULTS
              (str "2026-01-01") initialState answers _ st1 [annItem; bobItem]
              [annItem]
              [str "/repos/sanders1973/RoundTable/contents/roundtable/GNT%20SLT%20--%20Ann%20--%202026-01-01.txt?ref=main"]
              t st' out H1 Hlist) as (-> & _); [reflexivity| |exact Hrun|reflexivity].
  repeat constructor.
Defined.

(** ** The CSV export *)

Definition COMMA : N := 44.

(** [const esc] of [buildCsv], on the string [String(v ?? ...)] of a cell:
    the cell between two double quotes, every double quote in it written
    twice. *)
Definition esc (v : jsstring) : jsstring :=
  [DQUOTE] ++ replaceUnit DQUOTE [DQUOTE; DQUOTE] v ++ [DQUOTE].
Arguments esc v : simpl never.

Section Csv.

Variable numberText : number -> jsstring.

(** The string of a rating, which is a number or [null]: [null] gives the
    empty string. *)
Definition ratingText (v : option number) : jsstring :=
  match v with
  | Some n => numberText n
  | None => []
  end.

(** [[r.team, r.session, r.name, r.feeling, r.productivity, r.updated_at,
    r.update]] as the strings [esc] is given. *)
Definition cells (r : StatusRecord) : list jsstring :=
  [team r; session r; name r; ratingText (feeling r);
   ratingText (productivity r); updated_at r; update r].

Definition csvHead : list jsstring :=
  [str "Team"; str "Session"; str "Name"; str "Feeling"; str "Productivity";
   str "UpdatedAt"; str "Update"].

(** [function buildCsv(rows)] *)
Definition buildCsv (rows : list StatusRecord) : jsstring :=
  join [COMMA] (map esc csvHead) ++ [LF]
  ++ join [LF] (map (fun r => join [COMMA] (map esc (cells r))) rows).

End Csv.

(** A quoted cell is read back from the front of a text, when what follows
    it does not start with a quote. *)
Lemma esc_inj_app a b r1 r2 :
  head r1 ≠ Some DQUOTE -> head r2 ≠ Some DQUOTE ->
  esc a ++ r1 = esc b ++ r2 -> a = b /\ r1 = r2.
Proof.
  intros H1 H2. unfold esc. cbn [app]. intros [= H]. revert b H.
  induction a as [|c a IH]; intros [|d b]; unfold replaceUnit; cbn [flat_map app].
  - intros [= ->]. by split.
  - destruct (N.eqb_spec d DQUOTE) as [->|Hd]; cbn [app].
    + intros [= ->]. by destruct H1.
    + intros [= <-]. done.
  - destruct (N.eqb_spec c DQUOTE) as [->|Hc]; cbn [app].
    + intros [= <-]. by destruct H2.
    + intros [= ->]. done.
  - destruct (N.eqb_spec c DQUOTE) as [->|Hc],
             (N.eqb_spec d DQUOTE) as [->|Hd]; cbn [app].
    + intros [= H]. destruct (IH b H) as [-> ->]. by split.
    + intros [= <-]. done.
    + intros [= ->]. done.
    + intros [= -> H]. destruct (IH b H) as [-> ->]. by split.
Qed.

Lemma esc_head v : head (esc v) = Some DQUOTE.
Proof. reflexivity. Qed.

Section CsvFacts.

Variable numberText : number -> jsstring.

Definition csvLine (r : StatusRecord) : jsstring :=
  join [COMMA] (map esc (cells numberText r)).

Lemma esc_comma_inj a b x y :
  esc a ++ [COMMA] ++ x = esc b ++ [COMMA] ++ y -> a = b /\ x = y.
Proof.
  intros [-> H]%esc_inj_app; [|discriminate..].
  split; [reflexivity|]. by apply app_inv_head in H.
Qed.

Lemma csvLine_inj_app r r' x y :
  head x ≠ Some DQUOTE -> head y ≠ Some DQUOTE ->
  csvLine r ++ x = csvLine r' ++ y ->
  cells numberText r = cells numberText r' /\ x = y.
Proof.
  intros Hx Hy. unfold csvLine, cells. cbn [map join].
  rewrite <- !app_assoc.
  do 6 (intros [-> H]%esc_comma_inj; revert H).
  intros [-> ->]%esc_inj_app; [by split|exact Hx|exact Hy].
Qed.

Lemma csvLine_head r : head (csvLine r) = Some DQUOTE.
Proof. reflexivity. Qed.

Lemma join_lines_cons (l : jsstring) ls :
  join [LF] (l :: ls) = l ++ match ls with [] => [] | _ => LF :: join [LF] ls end.
Proof. destruct ls; cbn [join]; [by rewrite app_nil_r|reflexivity]. Qed.

Lemma csv_body_inj rows rows' :
  join [LF] (map csvLine rows) = join [LF] (map csvLine rows') ->
  map (cells numberText) rows = map (cells numberText) rows'.
Proof.
  revert rows'. induction rows as [|r rows IH]; intros [|r' rows'].
  - done.
  - cbn [map]. rewrite join_lines_cons. intros H%(f_equal head).
    by rewrite head_app, csvLine_head in H.
  - cbn [map]. rewrite join_lines_cons. intros H%(f_equal head).
    by rewrite head_app, csvLine_head in H.
  - cbn [map]. rewrite !join_lines_cons.
    intros [-> H]%csvLine_inj_app.
    + f_equal. apply IH. destruct rows as [|r2 rows], rows' as [|r2' rows'];
        cbn [map] in *; try discriminate H; [reflexivity|by injection H].
    + by destruct (map csvLine rows).
    + by destruct (map csvLine rows').
Qed.

(** The CSV export loses nothing: two lists of records with the same CSV
    text have the same cells, row by row, whatever quotes, commas and line
    breaks the cells hold. *)
Theorem csv_export_is_lossless rows rows' :
  buildCsv numberText rows = buildCsv numberText rows' ->
  map (cells numberText) rows = map (cells numberText) rows'.
Proof.
  unfold buildCsv. intros H%app_inv_head%app_inv_head. by apply csv_body_inj.
Qed.

End CsvFacts.

Lemma csv_export_is_lossless_witness :
  buildCsv noNumbers (map (setReactions (Some noReactions)) sampleRoster)
  = buildCsv noNumbers sampleRoster
  /\ map (cells noNumbers) (map (setReactions (Some noReactions)) sampleRoster)
     = map (cells noNumbers) sampleRoster.
Proof.
  assert (buildCsv noNumbers (map (setReactions (Some noReactions)) sampleRoster)
          = buildCsv noNumbers sampleRoster) as H1 by reflexivity.
  split; [exact H1|].
  exact (csv_export_is_lossless noNumbers _ _ H1).
Defined.

(** ** Update texts on the cards *)

(** [[^\s]] *)
Definition nonSpace (c : N) : bool := negb (isWhiteSpace c).

(** The longest run of code units that are not white space at the front of
    a text, and what follows it. *)
Fixpoint takeRun (s : jsstring) : jsstring :=
  match s with
  | c :: r => if nonSpace c then c :: takeRun r else []
  | [] => []
  end.

Definition startsNonSpace (s : jsstring) : bool :=
  match s with
  | c :: _ => nonSpace c
  | [] => false
  end.

(** [/(https?:\/\/[^\s]+)/] matches at the front of [s]. *)
Definition urlStart (s : jsstring) : bool :=
  startsWith (str "http://") s && startsNonSpace (drop 7 s)
  || startsWith (str "https://") s && startsNonSpace (drop 8 s).

(** The replacement of [linkify] for the match [url]: an anchor with
    [href], [target] and [rel], around the match itself. *)
Definition anchor (url : jsstring) : jsstring :=
  str "<a href=" ++ [DQUOTE] ++ url ++ [DQUOTE]
  ++ str " target=" ++ [DQUOTE] ++ str "_blank" ++ [DQUOTE]
  ++ str " rel=" ++ [DQUOTE] ++ str "noopener" ++ [DQUOTE]
  ++ str ">" ++ url ++ str "</a>".

(** [t.replace(/(https?:\/\/[^\s]+)/g, ...)]: the matches are found from
    the left, one after the other, each as long as it can be.  [skip]
    counts the code units of a match still to pass over. *)
Fixpoint linkifyGo (skip : nat) (s : jsstring) : jsstring :=
  match s with
  | [] => []
  | c :: r =>
      match skip with
      | S k => linkifyGo k r
      | O =>
          if urlStart s
          then anchor (takeRun s) ++ linkifyGo (length (takeRun s) - 1) r
          else c :: linkifyGo 0 r
      end
  end.

(** [function linkify(t)] *)
Definition linkify (t : jsstring) : jsstring := linkifyGo 0 t.

(** [function formatMultiline(text)] *)
Definition formatMultiline (text : jsstring) : jsstring :=
  concat (map (fun line =>
                 let l := linkify (escapeHtml line) in
                 str "<div>"
                 ++ (if bool_decide (l = []) then str "&nbsp;" else l)
                 ++ str "</div>")
            (splitLines text)).

(** The pieces of markup [formatMultiline] is to write. *)
Inductive htmlToken :=
  | Text (b : jsstring)
  | Link (url : jsstring)
  | DivOpen
  | DivClose
  | Blank.

Definition render (tok : htmlToken) : jsstring :=
  match tok with
  | Text b => b
  | Link url => anchor url
  | DivOpen => str "<div>"
  | DivClose => str "</div>"
  | Blank => str "&nbsp;"
  end.

(** A text token is an entity or one code unit that is no markup; the
    address of a link starts with [http] and holds no white space, quote
    or angle bracket. *)
Definition safeToken (tok : htmlToken) : Prop :=
  match tok with
  | Text b => escapedPiece b
  | Link url =>
      startsWith (str "http") url = true
      /\ Forall (fun c => isWhiteSpace c = false /\ c ≠ LT /\ c ≠ GT
                          /\ c ≠ DQUOTE /\ c ≠ SQUOTE) url
  | _ => True
  end.

Lemma linkifyGo_skip a rest :
  linkifyGo (length a) (a ++ rest) = linkifyGo 0 rest.
Proof.
  induction a as [|c a IH]; [reflexivity|].
  destruct rest; cbn [app length linkifyGo]; exact IH.
Qed.

Lemma takeRun_drop s : takeRun s ++ drop (length (takeRun s)) s = s.
Proof.
  induction s as [|c s IH]; [reflexivity|]. cbn [takeRun].
  destruct (nonSpace c); [|reflexivity]. cbn. by rewrite IH.
Qed.

Lemma urlStart_head c r : urlStart (c :: r) = true -> c = 104%N.
Proof.
  unfold urlStart.
  change (str "http://") with ([104] ++ str "ttp://")%N.
  change (str "https://") with ([104] ++ str "ttps://")%N.
  cbn [app startsWith]. destruct (N.eqb_spec 104 c) as [<-|]; [done|].
  cbn. discriminate.
Qed.

Lemma urlStart_nonSpace c r : urlStart (c :: r) = true -> nonSpace c = true.
Proof. by intros ->%urlStart_head. Qed.

(** A match is replaced by its anchor, and the search goes on behind it. *)
Lemma linkify_match s :
  urlStart s = true ->
  linkify s = anchor (takeRun s) ++ linkify (drop (length (takeRun s)) s).
Proof.
  intros Hs. unfold linkify. destruct s as [|c r]; [discriminate|].
  cbn [linkifyGo]. rewrite Hs. f_equal.
  pose proof (takeRun_drop (c :: r)) as Hd. cbn [takeRun] in *.
  rewrite (urlStart_nonSpace c r Hs) in *. cbn [length drop app] in *.
  replace (S (length (takeRun r)) - 1)%nat with (length (takeRun r)) by lia.
  injection Hd as Hd. rewrite <- Hd at 2. apply linkifyGo_skip.
Qed.

Lemma linkify_no_match c r :
  urlStart (c :: r) = false -> linkify (c :: r) = c :: linkify r.
Proof. intros Hs. unfold linkify. cbn [linkifyGo]. by rewrite Hs. Qed.

Lemma linkify_not_h c r : c ≠ 104%N -> linkify (c :: r) = c :: linkify r.
Proof.
  intros Hc. apply linkify_no_match.
  destruct (urlStart (c :: r)) eqn:E; [|reflexivity].
  by apply urlStart_head in E.
Qed.

(** No match starts inside an entity. *)
Lemma linkify_entity b rest :
  b ∈ entities -> linkify (b ++ rest) = b ++ linkify rest.
Proof.
  unfold entities. intros Hb.
  repeat (apply elem_of_cons in Hb as [->|Hb];
          [vm_compute (str _); cbn [app];
           repeat (rewrite linkify_not_h by discriminate); reflexivity|]).
  by apply elem_of_nil in Hb.
Qed.

Lemma takeRun_app a rest :
  forallb nonSpace a = true -> takeRun (a ++ rest) = a ++ takeRun rest.
Proof.
  induction a as [|c a IH]; [reflexivity|]. cbn [forallb app takeRun].
  intros [-> Ha]%andb_prop. by rewrite IH.
Qed.

Lemma entity_nonSpace b : b ∈ entities -> forallb nonSpace b = true.
Proof.
  unfold entities. intros Hb.
  repeat (apply elem_of_cons in Hb as [->|Hb]; [vm_compute; reflexivity|]).
  by apply elem_of_nil in Hb.
Qed.

(** The run at the front of escaped text is made of whole pieces. *)
Lemma takeRun_pieces ps :
  Forall escapedPiece ps ->
  exists p1 p2,
    ps = p1 ++ p2 /\ takeRun (concat ps) = concat p1
    /\ Forall escapedPiece p1 /\ Forall escapedPiece p2
    /\ forallb nonSpace (concat p1) = true.
Proof.
  induction 1 as [|b ps Hb Hps (p1 & p2 & -> & Hrun & H1 & H2 & Hns)].
  - exists [], []. by repeat split.
  - cbn [concat].
    destruct (forallb nonSpace b) eqn:Hbn.
    + exists (b :: p1), p2. rewrite (takeRun_app b _ Hbn), Hrun.
      repeat split; [by constructor|done|].
      cbn [concat]. by rewrite forallb_app, Hbn, Hns.
    + exists [], (b :: p1 ++ p2). repeat split; [|constructor|by constructor].
      destruct Hb as [Hb|(c & -> & _)].
      * by rewrite (entity_nonSpace b Hb) in Hbn.
      * cbn in Hbn. rewrite andb_true_r in Hbn. cbn [app takeRun concat].
        by rewrite Hbn.
Qed.

Lemma pieces_safe ps :
  Forall escapedPiece ps ->
  Forall (fun c => c ≠ LT /\ c ≠ GT /\ c ≠ DQUOTE /\ c ≠ SQUOTE) (concat ps).
Proof.
  induction 1 as [|b ps Hb _ IH]; [constructor|].
  cbn [concat]. apply Forall_app. split; [by apply escapedPiece_safe|exact IH].
Qed.

Lemma takeRun_startsWith p s :
  forallb nonSpace p = true -> startsWith p s = true ->
  startsWith p (takeRun s) = true.
Proof.
  revert s. induction p as [|c p IH]; intros s; [reflexivity|].
  destruct s as [|d s]; [discriminate|]. cbn [forallb startsWith takeRun].
  intros [Hc Hp]%andb_prop [Hcd Hs]%andb_prop.
  apply N.eqb_eq in Hcd as <-. rewrite Hc. cbn [startsWith].
  by rewrite N.eqb_refl, (IH s Hp Hs).
Qed.

Lemma urlStart_http s : urlStart s = true -> startsWith (str "http") (takeRun s) = true.
Proof.
  intros Hs. apply takeRun_startsWith; [reflexivity|].
  unfold urlStart in Hs.
  apply orb_prop in Hs as [[Hs _]%andb_prop|[Hs _]%andb_prop].
  - change (str "http://") with (str "http" ++ str "://") in Hs.
    by apply startsWith_prefix in Hs.
  - change (str "https://") with (str "http" ++ str "s://") in Hs.
    by apply startsWith_prefix in Hs.
Qed.

(** Making links in escaped text gives text tokens and links. *)
Lemma linkify_pieces n ps :
  (length ps <= n)%nat ->
  Forall escapedPiece ps ->
  exists toks,
    linkify (concat ps) = concat (map render toks) /\ Forall safeToken toks.
Proof.
  revert ps. induction n as [|n IH]; intros ps Hn Hps.
  - destruct ps; [|cbn in Hn; lia]. exists []. by split.
  - destruct ps as [|b ps]; [exists []; by split|].
    apply Forall_cons in Hps as [Hb Hps]. cbn [concat].
    destruct (urlStart (b ++ concat ps)) eqn:Hurl.
    + destruct (takeRun_pieces (b :: ps) ltac:(by constructor))
        as (p1 & p2 & Heq & Hrun & H1 & H2 & Hns).
      cbn [concat] in Hrun.
      assert (p1 ≠ []) as Hp1.
      { intros ->. cbn in Hrun.
        destruct (b ++ concat ps) as [|c r] eqn:E; [discriminate|].
        cbn [takeRun] in Hrun. by rewrite (urlStart_nonSpace c r Hurl) in Hrun. }
      destruct (IH p2) as (toks & Hlink & Hsafe); [|exact H2|].
      { apply (f_equal length) in Heq. rewrite length_app in Heq. cbn in *.
        destruct p1; [done|]. cbn in Heq. lia. }
      exists (Link (concat p1) :: toks). split.
      * rewrite (linkify_match _ Hurl), Hrun. cbn [map concat render]. f_equal.
        rewrite <- Hlink. f_equal.
        change (b ++ concat ps) with (concat (b :: ps)).
        by rewrite Heq, concat_app, drop_app_length.
      * apply Forall_cons. split; [|exact Hsafe]. split.
        -- rewrite <- Hrun. by apply urlStart_http.
        -- pose proof (pieces_safe p1 H1) as Hs.
           rewrite forallb_forall in Hns. rewrite Forall_forall in Hs |- *.
           intros c Hc. split; [|by apply Hs].
           apply negb_true_iff, Hns, list_elem_of_In, Hc.
    + destruct (IH ps) as (toks & Hlink & Hsafe); [cbn in Hn; lia|exact Hps|].
      exists (Text b :: toks). split; [|by apply Forall_cons].
      cbn [map concat render]. rewrite <- Hlink.
      destruct Hb as [Hb|(c & -> & _)]; [by apply linkify_entity|].
      by apply linkify_no_match.
Qed.

(** Update texts cannot bring markup into the page.  Whatever the text,
    [formatMultiline] writes a sequence of [<div>] and [</div>] tags,
    [&nbsp;], entities, single code units other than the five characters
    [escapeHtml] replaces, and anchors whose address starts with [http] and holds no white space,
    quote or angle bracket. *)
Theorem formatMultiline_is_safe text :
  exists toks,
    formatMultiline text = concat (map render toks) /\ Forall safeToken toks.
Proof.
  unfold formatMultiline.
  induction (splitLines text) as [|line lines (toks & Hrest & Hsafe)].
  - exists []. by split.
  - destruct (linkify_pieces (length line) (map escapeUnit line))
      as (ltoks & Hline & Hlsafe).
    + by rewrite length_map.
    + apply Forall_forall. intros b (c & -> & _)%list_elem_of_fmap.
      apply escapeUnit_piece.
    + rewrite <- flat_map_concat_map, <- escapeHtml_one_pass in Hline.
      cbn [map concat]. rewrite Hrest. cbv zeta.
      case_bool_decide as Hempty.
      * exists (DivOpen :: Blank :: DivClose :: toks). split.
        -- cbn [map concat render]. by rewrite <- !app_assoc.
        -- by repeat (apply Forall_cons; split; [exact I|]).
      * exists (DivOpen :: ltoks ++ DivClose :: toks). split.
        -- cbn [map concat render]. rewrite map_app, concat_app.
           cbn [map concat render]. rewrite Hline. by rewrite <- !app_assoc.
        -- apply Forall_cons. split; [exact I|]. apply Forall_app.
           split; [exact Hlsafe|]. by apply Forall_cons.
Qed.

(** ** From a write to the next read *)

Lemma emits_put cfg enc content message sha :
  emits (put cfg enc content message sha)
    (fun q => exists c, toBase64 content = Ok c
                        /\ q = putRequest cfg enc message c sha).
Proof.
  unfold put. apply emits_lift_bind. intros c Hc.
  apply emits_bind.
  - apply emits_ghFetch. by exists c.
  - intros res. destruct (_ || _); [apply emits_lift|apply emits_throw].
Qed.

Lemma emits_writeFileOverwriteStrict cfg fp content message :
  emits (writeFileOverwriteStrict cfg fp content message)
    (fun q => isPut q = true ->
              exists c, toBase64 content = Ok c
                        /\ b_content <$> q_body q = Some c).
Proof.
  assert (forall enc sha,
            emits (put cfg enc content message sha)
              (fun q => isPut q = true ->
                        exists c, toBase64 content = Ok c
                                  /\ b_content <$> q_body q = Some c)) as Hput.
  { intros enc sha. eapply emits_weaken; [|apply emits_put].
    intros q (c & Hc & ->) _. by exists c. }
  assert (forall fp',
            emits (ghGetContentsMeta cfg fp')
              (fun q => isPut q = true ->
                        exists c, toBase64 content = Ok c
                                  /\ b_content <$> q_body q = Some c)) as Hget.
  { intros fp'. eapply emits_weaken; [|apply emits_ghGetContentsMeta].
    intros q [Hm _]. unfold isPut. by rewrite Hm. }
  unfold writeFileOverwriteStrict.
  repeat first [apply Hput | apply Hget | emits_step].
Qed.

(** What is written is what is read.  Every [PUT] that
    [writeFileOverwriteStrict] sends for a well-formed text carries it in
    base64; and a later [readFileContent] that the store answers with that
    content, with line feeds put into it or not, returns the text as it
    was written. *)
Theorem written_text_reads_back cfg fp content message st answers q :
  wellFormed content = true ->
  q ∈ (run (writeFileOverwriteStrict cfg fp content message st) answers).1 ->
  isPut q = true ->
  exists c,
    b_content <$> q_body q = Some c
    /\ fromBase64 c = content
    /\ forall cfg' fp' path st0 res json c' s rest,
         contentsPathRef cfg' fp' = Ok path ->
         r_status res ≠ 304%N -> r_ok res = true -> r_json res = Ok json ->
         prop json (str "content") = VStr c' -> removeLF c' = c ->
         isString (str "base64") (prop json (str "encoding")) = true ->
         getProp json (str "sha") = Ok s ->
         snd <$> (run (readFileContent cfg' fp' st0) (Ok res :: rest)).2
         = Some (Ok content).
Proof.
  intros Hwf Hq Hput.
  pose proof (emits_writeFileOverwriteStrict cfg fp content message st answers)
    as Hall.
  rewrite Forall_forall in Hall. destruct (Hall q Hq Hput) as (c & Hc & Hbody).
  destruct (fromBase64_toBase64 content Hwf) as (c0 & Hc0 & Hdec & _).
  assert (c0 = c) as -> by congruence.
  exists c. split; [exact Hbody|]. split; [exact Hdec|].
  intros cfg' fp' path st0 res json c' s rest Hpath H304 Hok Hjson Hcontent
    Hlf Henc Hsha.
  rewrite (run_readFileContent cfg' fp' path st0 (Ok res) rest Hpath).
  apply N.eqb_neq in H304. rewrite H304, Hok, Hjson. cbn [negb].
  assert (contentText json = Ok content) as ->.
  { unfold contentText.
    destruct json; try (cbn in Hcontent; discriminate Hcontent).
    rewrite Hcontent, Henc, andb_true_r. cbn [truthy].
    case_bool_decide as He; cbn [negb].
    - subst c'. cbn in Hlf. subst c. by rewrite <- Hdec.
    - by rewrite Hlf, Hdec. }
  by rewrite Hsha.
Qed.

Lemma written_text_reads_back_witness :
  wellFormed annBody = true
  /\ exists c,
       b_content <$> q_body
         (putRequest CONFIG_DEFAULTS
            (str "roundtable/GNT%20SLT%20--%20Ann%20--%202026-01-01.txt")
            (str "save") (str "VEVBTT14ClJFQUNUSU9OU19CNjQ9b2xkCk5BTUU9eQ==") None)
       = Some c
       /\ fromBase64 c = annBody.
Proof.
  assert (wellFormed annBody = true) as H1 by (vm_compute; reflexivity).
  split; [exact H1|].
  destruct (written_text_reads_back CONFIG_DEFAULTS annFile annBody (str "save")
              initialState [answer 404 (str "Not Found")]
              (putRequest CONFIG_DEFAULTS
                 (str "roundtable/GNT%20SLT%20--%20Ann%20--%202026-01-01.txt")
                 (str "save") (str "VEVBTT14ClJFQUNUSU9OU19CNjQ9b2xkCk5BTUU9eQ==")
                 None) H1) as (c & Hc & Hdec & _).
  - vm_compute. apply list_elem_of_further, list_elem_of_here.
  - reflexivity.
  - by exists c.
Defined.

(** ** The pace of the polling loop *)

(** The backoff is zero or between its floor and its ceiling. *)
Definition backoffInRange (st : State) : Prop :=
  (backoffMs st = 0 \/ 5000 <= backoffMs st <= 60000)%Z.

Lemma backoffInRange_refreshBoard_end cfg o st :
  backoffInRange st -> backoffInRange (refreshBoard_end cfg o st).
Proof.
  unfold backoffInRange. intros H. rewrite backoffMs_refreshBoard_end.
  destruct o as [parsed| |e]; [by left|by left|].
  destruct (rateLimited (message e)); [|exact H].
  right. by apply nextBackoff_bounds.
Qed.

(** The loop keeps its pace.  From a backoff in range, and so from the
    start of the script, after any run of cycles, however they end, the
    backoff is zero or between 5000 and 60000 ms, and the next poll is set
    no sooner than 2000 ms and no later than the effective interval plus
    60000 ms after the cycle. *)
Theorem polling_keeps_its_pace cfg os st :
  backoffInRange st ->
  backoffInRange (cycles cfg os st)
  /\ (os ≠ [] ->
      exists wait,
        nextPollTimeout (cycles cfg os st) = Some wait
        /\ (2000 <= pollBase cfg <= wait)%Z
        /\ (wait <= pollBase cfg + 60000)%Z).
Proof.
  intros Hst. unfold cycles.
  induction os as [|o os IH] using rev_ind; [by split|].
  rewrite fold_left_app. cbn [fold_left]. destruct IH as [IH _].
  pose proof (backoffInRange_refreshBoard_end cfg o _ IH) as Hb.
  split; [exact Hb|]. intros _.
  rewrite nextPollTimeout_refreshBoard_end. eexists. split; [reflexivity|].
  unfold backoffInRange in Hb. unfold pollBase in *. lia.
Qed.

Lemma polling_keeps_its_pace_witness :
  backoffInRange initialState
  /\ backoffInRange
       (cycles CONFIG_DEFAULTS
          [Failed (Error (str "403 Forbidden: rate limit") None); Locked]
          initialState).
Proof.
  assert (backoffInRange initialState) as H1 by (by left).
  split; [exact H1|].
  exact (proj1 (polling_keeps_its_pace CONFIG_DEFAULTS _ initialState H1)).
Defined.

(** ** Lines the parser passes over *)

(** The keys [parseContentVars] knows. *)
Definition knownKeys : list jsstring :=
  [str "TEAM"; str "NAME"; str "SESSION"; str "FEELING"; str "PRODUCTIVITY";
   str "UPDATED_AT"; str "UPDATE_B64"; str "UPDATE"; str "REACTIONS_B64"].

(** A line that is blank, a comment, without [=], or, for a line in ASCII,
    with a key that is none of the known ones. *)
Definition noiseLine (raw : jsstring) : Prop :=
  trim raw = []
  \/ startsWith [HASH] (trim raw) = true
  \/ indexOf EQUALS (trim raw) = None
  \/ (Forall (fun c => (c < 128)%N) raw
      /\ exists key val, keyValue raw = Some (key, val) /\ key ∉ knownKeys).

Lemma splitLines_app a b :
  last a ≠ Some CR -> splitLines (a ++ LF :: b) = splitLines a ++ splitLines b.
Proof.
  remember (length a) as n eqn:Hn. revert a Hn.
  induction n as [n IH] using lt_wf_ind. intros a Hn Hlast.
  destruct a as [|c a]; [reflexivity|]. cbn [app splitLines].
  destruct (N.eqb_spec c LF) as [->|Hc].
  - cbn [app]. f_equal. apply (IH (length a)); [cbn in Hn; lia|reflexivity|].
    intros H. apply Hlast. destruct a; [done|exact H].
  - destruct a as [|d a].
    + cbn [app]. destruct (N.eqb_spec c CR) as [->|_]; [by destruct Hlast|].
      cbn [andb]. cbn [splitLines]. by destruct (splitLines b).
    + cbn [app].
      destruct ((c =? CR)%N && (d =? LF)%N) eqn:Hcr.
      * cbn [app]. f_equal. apply (IH (length a)); [cbn in Hn; lia|reflexivity|].
        intros H. apply Hlast. destruct a; [done|exact H].
      * change (d :: a ++ LF :: b) with ((d :: a) ++ LF :: b).
        rewrite (IH (length (d :: a))); [|cbn in Hn |- *; lia|reflexivity|exact Hlast].
        destruct (splitLines (d :: a)) as [|l ls] eqn:E; [|reflexivity].
        exfalso. revert E. cbn [splitLines].
        destruct (d =? LF)%N; [discriminate|].
        destruct a as [|e a]; [by destruct (splitLines [])|].
        destruct ((d =? CR)%N && (e =? LF)%N); [discriminate|].
        by destruct (splitLines (e :: a)).
Qed.

Section Noise.

Variable JSON_parse : jsstring -> result value.

Lemma parseLine_noise out raw :
  noiseLine raw -> parseLine JSON_parse out raw = Ok out.
Proof.
  unfold parseLine, keyValue.
  intros [Hblank|[Hhash|[Heq|(_ & key & val & Hkv & Hkey)]]].
  - rewrite Hblank. reflexivity.
  - rewrite Hhash, orb_true_r. reflexivity.
  - destruct (_ || _); [reflexivity|]. by rewrite Heq.
  - unfold keyValue in Hkv. rewrite Hkv. unfold assign, knownKeys in *.
    repeat (apply not_elem_of_cons in Hkey as [Hne Hkey];
            unfold jsstring_eqb at 1;
            rewrite (bool_decide_eq_false_2 _ Hne); clear Hne).
    reflexivity.
Qed.

Lemma parseLines_app out before after :
  parseLines JSON_parse out (before ++ after)
  = out' ← parseLines JSON_parse out before; parseLines JSON_parse out' after.
Proof.
  revert out. induction before as [|l before IH]; intros out; [reflexivity|].
  cbn [app parseLines]. destruct (parseLine JSON_parse out l) as [out'|e];
    cbn [mbind result_bind]; [apply IH|reflexivity].
Qed.

(** Lines that say nothing are passed over.  A blank line, a comment line,
    a line without [=], or an ASCII line with an unknown key, put between
    two lines of a body, changes nothing in what [parseContentVars]
    returns. *)
Theorem noise_lines_are_ignored before raw after :
  noiseLine raw ->
  noLF raw = true -> last raw ≠ Some CR -> last before ≠ Some CR ->
  parseContentVars JSON_parse (before ++ LF :: raw ++ LF :: after)
  = parseContentVars JSON_parse (before ++ LF :: after).
Proof.
  intros Hnoise Hlf Hcr Hbefore. unfold parseContentVars.
  rewrite !(splitLines_app before) by exact Hbefore.
  rewrite (splitLines_line raw after Hlf Hcr).
  rewrite !parseLines_app. cbn [parseLines].
  destruct (parseLines JSON_parse emptyRecord (splitLines before)) as [out|e];
    cbn [mbind result_bind]; [|reflexivity].
  by rewrite (parseLine_noise out raw Hnoise).
Qed.

End Noise.

Lemma noise_lines_are_ignored_witness :
  noiseLine (str "COLOUR=blue")
  /\ parseContentVars noJSON
       (str "TEAM=x" ++ LF :: str "COLOUR=blue" ++ LF :: str "NAME=y")
     = parseContentVars noJSON (str "TEAM=x" ++ LF :: str "NAME=y").
Proof.
  assert (noiseLine (str "COLOUR=blue")) as H1.
  { do 3 right. split.
    - apply Forall_forall. intros c Hc.
      apply (bool_decide_unpack _). revert c Hc. apply Forall_forall.
      by vm_compute; repeat constructor.
    - eexists _, _. split; [vm_compute; reflexivity|].
      apply (bool_decide_unpack _). vm_compute. exact I. }
  split; [exact H1|].
  apply (noise_lines_are_ignored noJSON (str "TEAM=x") (str "COLOUR=blue")
           (str "NAME=y") H1); [reflexivity|discriminate|discriminate].
Defined.

(** ** The team registry *)

Definition SLASH : N := 47.
Definition BACKSLASH : N := 92.
Definition HYPHEN : N := 45.

(** [.replace(/\\+/g,'/')]: every run of backslashes becomes one slash,
    written where the run ends. *)
Fixpoint collapseBackslashes (s : jsstring) : jsstring :=
  match s with
  | [] => []
  | c :: r =>
      if (c =? BACKSLASH)%N then
        match r with
        | d :: _ => if (d =? BACKSLASH)%N then collapseBackslashes r
                    else SLASH :: collapseBackslashes r
        | [] => [SLASH]
        end
      else c :: collapseBackslashes r
  end.

(** [.replace(/\/\/+$/,'')]: two or more slashes at the end are removed,
    all of them. *)
Definition dropFinalSlashes (s : jsstring) : jsstring :=
  let kept := rev (dropSlashes (rev s)) in
  if (2 <=? length s - length kept)%nat then kept else s.

(** [function safeJoin(...parts)] *)
Definition safeJoin (parts : list jsstring) : jsstring :=
  dropFinalSlashes
    (collapseBackslashes
       (join [SLASH] (filter (fun p => p ≠ []) parts))).

(** [function registryDir(cfg)] *)
Definition registryDir (cfg : Config) : jsstring :=
  if bool_decide (dirRoot cfg = []) then str "_teams"
  else dirRoot cfg ++ str "/_teams".

(** [`${t.replace(/[\\/]/g,'-')}.json`] *)
Definition teamFile (t : jsstring) : jsstring :=
  map (fun c => if ((c =? BACKSLASH) || (c =? SLASH))%N then HYPHEN else c) t
  ++ str ".json".

(** The path [initTeamCreate] writes the registry entry of team [t] to:
    [safeJoin(registryDir(cfg), ...)]. *)
Definition registryPath (cfg : Config) (t : jsstring) : jsstring :=
  safeJoin [registryDir cfg; teamFile t].

Definition plainUnit (c : N) : Prop := c ≠ SLASH /\ c ≠ BACKSLASH.

Lemma teamFile_plain t : Forall plainUnit (teamFile t).
Proof.
  unfold teamFile. apply Forall_app. split.
  - apply Forall_forall. intros c (d & -> & _)%list_elem_of_fmap.
    destruct (N.eqb_spec d BACKSLASH), (N.eqb_spec d SLASH); by split.
  - repeat constructor; discriminate.
Qed.

Lemma collapse_plain s :
  Forall (fun c => c ≠ BACKSLASH) s -> collapseBackslashes s = s.
Proof.
  induction 1 as [|c s Hc _ IH]; [reflexivity|]. cbn [collapseBackslashes].
  apply N.eqb_neq in Hc. by rewrite Hc, IH.
Qed.

Lemma collapse_app_slash a b :
  collapseBackslashes (a ++ SLASH :: b)
  = collapseBackslashes a ++ SLASH :: collapseBackslashes b.
Proof.
  induction a as [|c a IH]; [reflexivity|].
  cbn [app collapseBackslashes]. destruct (c =? BACKSLASH)%N.
  - destruct a as [|d a]; [reflexivity|]. cbn [app] in *.
    destruct (d =? BACKSLASH)%N; [exact IH|by rewrite IH].
  - by rewrite IH.
Qed.

Lemma dropFinalSlashes_plain s c :
  c ≠ SLASH -> dropFinalSlashes (s ++ [c]) = s ++ [c].
Proof.
  intros Hc. unfold dropFinalSlashes. rewrite rev_app_distr. cbn [rev app dropSlashes].
  apply N.eqb_neq in Hc. unfold SLASH in Hc. rewrite Hc.
  cbn [rev]. rewrite rev_involutive, Nat.sub_diag. reflexivity.
Qed.

(** A team's registry entry stays in the registry.  Whatever the name of
    the team, the path [initTeamCreate] writes to is the registry
    directory, a slash, and a file name in [.json] without slash or
    backslash; when the configured directory holds no backslash, that
    directory is the one [registryDir] names. *)
Theorem registry_entry_stays_in_registry cfg t :
  registryPath cfg t
  = collapseBackslashes (registryDir cfg) ++ [SLASH] ++ teamFile t
  /\ Forall plainUnit (teamFile t)
  /\ endsWith (str ".json") (teamFile t) = true
  /\ (Forall (fun c => c ≠ BACKSLASH) (DIR cfg) ->
      collapseBackslashes (registryDir cfg) = registryDir cfg).
Proof.
  repeat apply conj.
  - unfold registryPath, safeJoin.
    assert (registryDir cfg ≠ []) as Hrd.
    { unfold registryDir. case_bool_decide as Hroot; [discriminate|].
      intros [_ Hl]%app_eq_nil. discriminate Hl. }
    assert (teamFile t ≠ []) as Htf.
    { unfold teamFile. intros [_ Hl]%app_eq_nil. discriminate Hl. }
    rewrite !filter_cons, decide_True, decide_True by done.
    rewrite filter_nil. cbn [join].
    change ([SLASH] ++ teamFile t) with (SLASH :: teamFile t).
    rewrite collapse_app_slash.
    rewrite (collapse_plain (teamFile t)).
    + unfold teamFile at 1 2.
      change (str ".json") with (str ".jso" ++ [110%N]).
      rewrite !app_assoc.
      change (SLASH :: ?x) with ([SLASH] ++ x).
      rewrite (app_assoc _ [SLASH]), !app_assoc.
      by apply dropFinalSlashes_plain.
    + eapply Forall_impl; [apply teamFile_plain|]. by intros c [_ ?].
  - apply teamFile_plain.
  - unfold teamFile, endsWith. rewrite rev_app_distr. apply startsWith_app.
  - intros Hdir. apply collapse_plain. unfold registryDir, dirRoot.
    assert (Forall (fun c => c ≠ BACKSLASH) (trimSlashes (DIR cfg))) as Htrim.
    { unfold trimSlashes. rewrite Forall_forall in Hdir |- *.
      intros c Hc%list_elem_of_In%in_rev%list_elem_of_In.
      assert (forall s x, x ∈ dropSlashes s -> x ∈ s) as Hsub.
      { induction s as [|d s IHs]; intros x Hx; [done|]. cbn in Hx.
        destruct (d =? 47)%N; [right; by apply IHs|exact Hx]. }
      apply Hsub in Hc. apply list_elem_of_In, in_rev, list_elem_of_In in Hc.
      apply Hdir. by apply Hsub. }
    repeat case_bool_decide; try (repeat constructor; discriminate).
    apply Forall_app. split; [exact Htrim|repeat constructor; discriminate].
Qed.
(** ** Which files a bulk deletion takes *)

(** A name that file names carry unchanged and that cannot be taken for a
    separator: not empty, no white space at either end, no double
    hyphen. *)
Definition plainName (x : jsstring) : Prop :=
  x ≠ [] /\ trim x = x /\ includes (str "--") x = false.

Lemma startsWith_spec p s : startsWith p s = true <-> exists r, s = p ++ r.
Proof.
  revert s. induction p as [|c p IH]; intros s.
  - split; [by exists s|done].
  - destruct s as [|d s]; cbn [startsWith].
    + split; [done|by intros (r & ?)].
    + rewrite andb_true_iff, N.eqb_eq, IH. split.
      * intros [-> (r & ->)]. by exists r.
      * intros (r & [= -> ->]). eauto.
Qed.

Lemma includes_spec p s : includes p s = true <-> exists l r, s = l ++ p ++ r.
Proof.
  induction s as [|c s IH].
  - cbn [includes]. rewrite orb_false_r, startsWith_spec. split.
    + intros (r & H). by exists [], r.
    + intros (l & r & H). destruct l; [|done]. by exists r.
  - cbn [includes]. rewrite orb_true_iff, startsWith_spec, IH. split.
    + intros [(r & ->)|(l & r & ->)]; [by exists [], r|by exists (c :: l), r].
    + intros (l & r & H). destruct l as [|d l]; [left; by exists r|].
      right. injection H as -> ->. by exists l, r.
Qed.

Lemma startsWith_cancel p a b : startsWith (p ++ a) (p ++ b) = startsWith a b.
Proof. induction p as [|c p IH]; [reflexivity|]. cbn. by rewrite N.eqb_refl. Qed.

(** A name without double hyphen holds no separator, read from either
    end. *)
Lemma noHyphens_sep x :
  includes (str "--") x = false ->
  includes (str " --") x = false /\ includes (str " --") (rev x) = false.
Proof.
  intros H. split; apply not_true_is_false; intros (l & r & E)%includes_spec;
    apply not_true_iff_false in H; apply H, includes_spec.
  - exists (l ++ str " "), r. rewrite E, <- !app_assoc. reflexivity.
  - apply (f_equal (@rev N)) in E. rewrite rev_involutive in E.
    exists (rev r), (str " " ++ rev l).
    rewrite E, !rev_app_distr, <- !app_assoc. reflexivity.
Qed.

(** Two names without [ --], each followed by the separator: when one
    with its separator starts the other, they are the same name. *)
Lemma sep_prefix_eq a b r :
  includes (str " --") a = false -> includes (str " --") b = false ->
  startsWith (a ++ SEP) (b ++ SEP ++ r) = true -> a = b.
Proof.
  revert b. induction a as [|c a IH]; intros b Ha Hb H.
  - destruct b as [|d b]; [done|].
    pose proof (SEP_not_before (d :: b) r 0 Hb ltac:(cbn; lia)) as H0.
    cbn [drop app] in H0, H. by rewrite H0 in H.
  - destruct b as [|d b].
    + exfalso. apply includes_head in Ha. revert H Ha.
      change SEP with [32; 45; 45; 32]%N. change (str " --") with [32; 45; 45]%N.
      destruct a as [|c2 [|c3 a]]; cbn;
        repeat (let E := fresh in
                destruct (_ =? _)%N eqn:E; cbn; try done;
                apply N.eqb_eq in E; subst; cbn).
      intros _ ?. done.
    + cbn [app startsWith] in H. apply andb_prop in H as [->%N.eqb_eq H].
      f_equal. apply IH; [by eapply includes_tail|by eapply includes_tail|done].
Qed.

Lemma fileNameFor_plain t p s :
  plainName t -> plainName s ->
  fileNameFor t p s = t ++ SEP ++ p ++ SEP ++ s.
Proof.
  intros (Ht & Htrim & _) (Hs & Hstrim & _).
  pose proof (trim_head t) as Hc. rewrite Htrim in Hc.
  pose proof (trim_last s) as Hd. rewrite Hstrim in Hd.
  unfold fileNameFor. fold SEP.
  destruct t as [|c t]; [done|].
  destruct s as [|d s _] using rev_ind; [done|].
  rewrite last_snoc in Hd.
  apply trim_ends; [exact Hc|].
  rewrite !app_assoc, last_snoc. exact Hd.
Qed.

(** The test of [deleteBySession] is exact: for a file named by
    [fileNameFor] and [filePathFor] from a plain team name and a plain
    session name, whoever the writer, and a configured team and a session
    without double hyphen, the file is taken if and only if it is a file
    of that team and of that session. *)
Theorem session_filter_is_exact cfg sess it team person session :
  includes (str "--") (TEAM_NAME cfg) = false ->
  includes (str "--") sess = false ->
  plainName team -> plainName session ->
  namedFor it (team, person, session) ->
  isSessionFile cfg sess it
  = Ok (bool_decide (team = TEAM_NAME cfg /\ session = sess)).
Proof.
  intros HT HS Ht Hs Hit. unfold namedFor in Hit. cbn [fst snd] in Hit.
  unfold isSessionFile, nameOf. rewrite Hit. cbn [mbind result_bind].
  assert (truthy (VStr (fileNameFor team person session ++ str ".txt")) = true)
    as ->.
  { cbn. apply negb_true_iff, bool_decide_eq_false.
    intros H%(f_equal length). rewrite length_app in H.
    change (length (str ".txt")) with 4%nat in H. cbn in H. lia. }
  cbn [mbind result_bind]. f_equal.
  rewrite (fileNameFor_plain team person session Ht Hs).
  destruct (noHyphens_sep _ HT) as [HT1 _].
  destruct (noHyphens_sep _ HS) as [_ HS2].
  destruct Ht as (_ & _ & Ht). destruct (noHyphens_sep _ Ht) as [Ht1 _].
  destruct Hs as (_ & _ & Hs). destruct (noHyphens_sep _ Hs) as [_ Hs2].
  assert (Hpre : startsWith (TEAM_NAME cfg ++ SEP)
                   ((team ++ SEP ++ person ++ SEP ++ session) ++ str ".txt")
                 = true -> TEAM_NAME cfg = team).
  { rewrite <- !app_assoc. by apply sep_prefix_eq. }
  assert (Hsuf : endsWith (SEP ++ sess ++ str ".txt")
                   ((team ++ SEP ++ person ++ SEP ++ session) ++ str ".txt")
                 = true -> sess = session).
  { unfold endsWith. rewrite !rev_app_distr, <- !app_assoc, startsWith_cancel.
    change (rev SEP) with SEP. intros H.
    pose proof (sep_prefix_eq _ _ _ HS2 Hs2 H) as E.
    apply (f_equal (@rev N)) in E. by rewrite !rev_involutive in E. }
  case_bool_decide as Heq.
  - destruct Heq as [-> ->]. apply andb_true_iff. split.
    + rewrite <- !app_assoc, (app_assoc (TEAM_NAME cfg) SEP).
      apply startsWith_app.
    + unfold endsWith. rewrite !rev_app_distr, <- !app_assoc.
      rewrite !startsWith_cancel. apply startsWith_app.
  - apply not_true_is_false. intros [H1 H2]%andb_prop.
    apply Heq. by rewrite (Hpre H1), (Hsuf H2).
Qed.

Lemma session_filter_is_exact_witness :
  (plainName (str "Ops") /\ plainName (str "2026-01-01")
   /\ namedFor bobItem (str "Ops", str "Bob", str "2026-01-01"))
  /\ isSessionFile CONFIG_DEFAULTS (str "2026-01-01") bobItem = Ok false.
Proof.
  assert (plainName (str "Ops")) as Ht.
  { apply conj; [intros H; vm_compute in H; discriminate H|].
    apply conj; vm_compute; reflexivity. }
  assert (plainName (str "2026-01-01")) as Hs.
  { apply conj; [intros H; vm_compute in H; discriminate H|].
    apply conj; vm_compute; reflexivity. }
  assert (namedFor bobItem (str "Ops", str "Bob", str "2026-01-01")) as Hit
    by (vm_compute; reflexivity).
  apply conj; [exact (conj Ht (conj Hs Hit))|].
  rewrite (session_filter_is_exact CONFIG_DEFAULTS (str "2026-01-01") bobItem
             (str "Ops") (str "Bob") (str "2026-01-01"));
    [|vm_compute; reflexivity|vm_compute; reflexivity|exact Ht|exact Hs|exact Hit].
  reflexivity.
Defined.
(** ** The tabs of the board *)

(** [function applySpokenFilter(list)]; [sfilter] is [state.sfilter],
    [None] when it is not set, and [cards] the argument. *)
Definition applySpokenFilter (sfilter : option jsstring) (st : State)
    (cards : list StatusRecord) : list StatusRecord :=
  let f := match sfilter with
           | Some f => if bool_decide (f = []) then str "all" else f
           | None => str "all"
           end in
  if bool_decide (f = str "all") then cards
  else
    let s := currentSpeaker st in
    if bool_decide (f = str "ready")
    then filter (fun u => name u ∉ spoken s) cards
    else if bool_decide (f = str "spoken")
         then filter (fun u => name u ∈ spoken s) cards
         else cards.

(** [(s.speakingNow || (s.spoken||[]).length || (s.readyOrder||[]).length)]
    as a condition. *)
Definition hasSpeakerState (s : SpeakerState) : bool :=
  match nameOrNull (speakingNow s) with
  | Some _ => true
  | None => negb (length (spoken s) =? 0)%nat
            || negb (length (readyOrder s) =? 0)%nat
  end.

(** The cards [renderUpdates] draws, in their order, from the updates
    [matched] that passed [matchFilter]:
    [const filtered = applySpokenFilter(...);
     const list = hasSpeakerState ? applySpeakerOrdering(filtered)
                                  : filtered.slice();] *)
Definition boardList (sfilter : option jsstring) (st : State)
    (matched : list StatusRecord) : list StatusRecord :=
  let filtered := applySpokenFilter sfilter st matched in
  if hasSpeakerState (currentSpeaker st) then applySpeakerOrdering st filtered
  else filtered.

(** The names [applySpeakerOrdering] puts first, from the records still
    to speak. *)
Definition orderedNames (s : SpeakerState) (ready : list StatusRecord)
  : list jsstring :=
  let readySet := map name ready in
  let savedOrder := filter (fun n => n ∈ readySet) (readyOrder s) in
  let leftover := map name (filter (fun u => name u ∉ savedOrder) ready) in
  let speaking := match nameOrNull (speakingNow s) with
                  | Some n => if bool_decide (n ∈ readySet) then Some n else None
                  | None => None
                  end in
  match speaking with Some n => [n] | None => [] end
  ++ filter (fun n => Some n ≠ speaking) (savedOrder ++ leftover).

Lemma applySpeakerOrdering_parts st U :
  applySpeakerOrdering st U
  = omap (byName U)
      (orderedNames (currentSpeaker st)
         (filter (fun u => name u ∉ spoken (currentSpeaker st)) U))
    ++ omap (byName U) (spoken (currentSpeaker st)).
Proof. reflexivity. Qed.

Lemma orderedNames_ready s R n : n ∈ orderedNames s R -> n ∈ map name R.
Proof.
  unfold orderedNames. intros [H|H]%elem_of_app.
  - destruct (nameOrNull (speakingNow s)) as [m|]; [|by apply elem_of_nil in H].
    case_bool_decide as Hm; [|by apply elem_of_nil in H].
    by apply list_elem_of_singleton in H as ->.
  - apply list_elem_of_filter in H as [_ H].
    apply elem_of_app in H as [H|H].
    + by apply list_elem_of_filter in H as [? _].
    + apply list_elem_of_fmap in H as (u & -> & Hu).
      apply list_elem_of_filter in Hu as [_ Hu].
      apply list_elem_of_fmap. eauto.
Qed.

Lemma orderedNames_nil s : orderedNames s [] = [].
Proof.
  unfold orderedNames. cbn [map].
  assert (filter (fun n : jsstring => n ∈ @nil jsstring) (readyOrder s) = [])
    as ->.
  { induction (readyOrder s) as [|n l IH]; [reflexivity|].
    rewrite filter_cons, decide_False by apply not_elem_of_nil. exact IH. }
  destruct (nameOrNull (speakingNow s)) as [m|]; [|reflexivity].
  rewrite bool_decide_eq_false_2 by apply not_elem_of_nil. reflexivity.
Qed.

(** Looking a name up among the records kept by a test on names. *)
Lemma byName_filter (Q : jsstring -> Prop) `{!forall n, Decision (Q n)}
    (U : list StatusRecord) n :
  byName (filter (fun u => Q (name u)) U) n
  = if decide (Q n) then byName U n else None.
Proof.
  unfold byName.
  assert (filter (fun u => name u = n) (filter (fun u => Q (name u)) U)
          = if decide (Q n) then filter (fun u => name u = n) U else []) as ->.
  { induction U as [|u U IH]; [by destruct (decide (Q n))|].
    rewrite (filter_cons (fun u => Q (name u))), (filter_cons (fun u => name u = n)).
    destruct (decide (Q (name u))) as [Hq|Hq].
    - rewrite filter_cons, IH.
      destruct (decide (name u = n)) as [<-|_]; [|done].
      by rewrite !decide_True.
    - rewrite IH. destruct (decide (name u = n)) as [<-|_]; [|done].
      by rewrite !decide_False. }
  by destruct (decide (Q n)).
Qed.

Lemma byName_ready (l : list jsstring) (U : list StatusRecord) n :
  byName (filter (fun u => name u ∉ l) U) n
  = if decide (n ∉ l) then byName U n else None.
Proof. exact (byName_filter (fun n => n ∉ l) U n). Qed.

Lemma byName_spoken (l : list jsstring) (U : list StatusRecord) n :
  byName (filter (fun u => name u ∈ l) U) n
  = if decide (n ∈ l) then byName U n else None.
Proof. exact (byName_filter (fun n => n ∈ l) U n). Qed.

Lemma omap_ext_in {A B} (f g : A -> option B) (l : list A) :
  (forall x, x ∈ l -> f x = g x) -> omap f l = omap g l.
Proof.
  induction l as [|x l IH]; intros H; [reflexivity|].
  cbn [omap list_omap]. rewrite (H x) by apply list_elem_of_here.
  rewrite IH; [reflexivity|]. intros y Hy. apply H. by apply list_elem_of_further.
Qed.

Lemma omap_none {A B} (f : A -> option B) (l : list A) :
  (forall x, x ∈ l -> f x = None) -> omap f l = [].
Proof.
  induction l as [|x l IH]; intros H; [reflexivity|].
  cbn [omap list_omap]. rewrite (H x) by apply list_elem_of_here.
  apply IH. intros y Hy. apply H. by apply list_elem_of_further.
Qed.

Lemma filter_idemp {A} (P : A -> Prop) `{!forall x, Decision (P x)} (l : list A) :
  filter P (filter P l) = filter P l.
Proof.
  induction l as [|x l IH]; [reflexivity|]. rewrite filter_cons.
  destruct (decide (P x)) as [Hp|Hp]; [|exact IH].
  by rewrite filter_cons, decide_True, IH.
Qed.

Lemma filter_disjoint {A} (P Q : A -> Prop) `{!forall x, Decision (P x)}
    `{!forall x, Decision (Q x)} (l : list A) :
  (forall x, P x -> Q x -> False) -> filter P (filter Q l) = [].
Proof.
  intros Hpq. induction l as [|x l IH]; [reflexivity|]. rewrite filter_cons.
  destruct (decide (Q x)) as [Hq|Hq]; [|exact IH].
  rewrite filter_cons, decide_False; [exact IH|]. intros Hp. eauto.
Qed.

(** The ordering of the cards still to speak, and of those that spoke. *)
Lemma ordering_of_ready st U :
  let s := currentSpeaker st in
  applySpeakerOrdering st (filter (fun u => name u ∉ spoken s) U)
  = omap (byName U)
      (orderedNames s (filter (fun u => name u ∉ spoken s) U)).
Proof.
  intros s. rewrite applySpeakerOrdering_parts. fold s.
  rewrite filter_idemp.
  rewrite (omap_none _ (spoken s)), app_nil_r.
  - apply omap_ext_in. intros n Hn.
    rewrite byName_ready, decide_True; [reflexivity|].
    apply orderedNames_ready, list_elem_of_fmap in Hn as (u & -> & Hu).
    by apply list_elem_of_filter in Hu as [? _].
  - intros n Hn. rewrite byName_ready.
    by rewrite decide_False by (intros Hf; by apply Hf).
Qed.

Lemma ordering_of_spoken st U :
  let s := currentSpeaker st in
  applySpeakerOrdering st (filter (fun u => name u ∈ spoken s) U)
  = omap (byName U) (spoken s).
Proof.
  intros s. rewrite applySpeakerOrdering_parts. fold s.
  rewrite (filter_disjoint (fun u => name u ∉ spoken s)) by (intros x H1 H2; by apply H1).
  rewrite orderedNames_nil. cbn [omap list_omap app].
  apply omap_ext_in. intros n Hn.
  by rewrite byName_spoken, decide_True.
Qed.

Lemma filter_all {A} (P : A -> Prop) `{!forall x, Decision (P x)} (l : list A) :
  (forall x, P x) -> filter P l = l.
Proof.
  intros Hp. induction l as [|x l IH]; [reflexivity|].
  by rewrite filter_cons, decide_True, IH.
Qed.

Lemma filter_none {A} (P : A -> Prop) `{!forall x, Decision (P x)} (l : list A) :
  (forall x, ~ P x) -> filter P l = [].
Proof.
  intros Hp. induction l as [|x l IH]; [reflexivity|].
  by rewrite filter_cons, decide_False, IH.
Qed.

(** The tabs split the board.  Whatever the queue and the updates, the
    cards of the tab [All] are those of the tab [Ready] followed by those
    of the tab [Spoken], in the same order; no card of [Ready] is of a
    writer who spoke, every card of [Spoken] is; and a tab that is not set,
    or has any other name, shows what [All] shows. *)
Theorem board_tabs_split st matched :
  let s := currentSpeaker st in
  let tab f := boardList (Some f) st matched in
  tab (str "all") = tab (str "ready") ++ tab (str "spoken")
  /\ Forall (fun u => name u ∉ spoken s) (tab (str "ready"))
  /\ Forall (fun u => name u ∈ spoken s) (tab (str "spoken"))
  /\ (forall f, f ≠ Some (str "ready") -> f ≠ Some (str "spoken") ->
                boardList f st matched = tab (str "all")).
Proof.
  intros s tab.
  assert (Hall : tab (str "all")
                 = if hasSpeakerState s then applySpeakerOrdering st matched
                   else matched) by reflexivity.
  assert (Hready : tab (str "ready")
                   = if hasSpeakerState s
                     then applySpeakerOrdering st
                            (filter (fun u => name u ∉ spoken s) matched)
                     else filter (fun u => name u ∉ spoken s) matched)
    by reflexivity.
  assert (Hspoken : tab (str "spoken")
                    = if hasSpeakerState s
                      then applySpeakerOrdering st
                             (filter (fun u => name u ∈ spoken s) matched)
                      else filter (fun u => name u ∈ spoken s) matched)
    by reflexivity.
  split; [|split; [|split]].
  - rewrite Hall, Hready, Hspoken. destruct (hasSpeakerState s) eqn:Hs.
    + subst s. rewrite ordering_of_ready, ordering_of_spoken.
      apply applySpeakerOrdering_parts.
    + unfold hasSpeakerState in Hs.
      destruct (nameOrNull (speakingNow s)); [discriminate|].
      apply orb_false_iff in Hs as [Hs _].
      apply negb_false_iff, Nat.eqb_eq, nil_length_inv in Hs. rewrite Hs.
      rewrite filter_all by (intros x; apply not_elem_of_nil).
      rewrite filter_none by (intros x; apply not_elem_of_nil).
      by rewrite app_nil_r.
  - rewrite Hready. destruct (hasSpeakerState s).
    + subst s. rewrite ordering_of_ready. apply Forall_forall. intros u Hu.
      apply list_elem_of_omap in Hu as (n & Hn & Hb).
      apply byName_elem_of in Hb as [_ ->].
      apply orderedNames_ready, list_elem_of_fmap in Hn as (v & -> & Hv).
      by apply list_elem_of_filter in Hv as [? _].
    + apply Forall_forall. intros u Hu.
      by apply list_elem_of_filter in Hu as [? _].
  - rewrite Hspoken. destruct (hasSpeakerState s).
    + subst s. rewrite ordering_of_spoken. apply Forall_forall. intros u Hu.
      apply list_elem_of_omap in Hu as (n & Hn & Hb).
      by apply byName_elem_of in Hb as [_ ->].
    + apply Forall_forall. intros u Hu.
      by apply list_elem_of_filter in Hu as [? _].
  - intros f Hr Hsp. rewrite Hall. unfold boardList, applySpokenFilter. fold s.
    destruct f as [f|]; [|reflexivity].
    destruct (bool_decide (f = [])); [reflexivity|].
    case_bool_decide; [reflexivity|].
    rewrite bool_decide_eq_false_2 by (intros ->; by apply Hr).
    rewrite bool_decide_eq_false_2 by (intros ->; by apply Hsp).
    reflexivity.
Qed.
(** ** One file for each writer *)

(** Writers do not share a file.  With team and session names that are
    clean and writers' names without [ --], the path [filePathFor] gives
    tells the team, the writer and the session: two updates with the same
    path are of the same writer, for the same team and session. *)
Theorem writers_files_are_distinct cfg t p s t' p' s' :
  cleanName t -> includes (str " --") p = false -> cleanName s ->
  cleanName t' -> includes (str " --") p' = false -> cleanName s' ->
  filePathFor t p s cfg = filePathFor t' p' s' cfg ->
  t = t' /\ p = p' /\ s = s'.
Proof.
  intros Ht Hp Hs Ht' Hp' Hs'. unfold filePathFor.
  intros H%app_inv_head%app_inv_tail.
  pose proof (proj2 (fileNameFor_parts t p s Ht Hp Hs)) as E.
  rewrite H, (proj2 (fileNameFor_parts t' p' s' Ht' Hp' Hs')) in E.
  by injection E as <- <- <-.
Qed.

Lemma writers_files_are_distinct_witness :
  filePathFor (str "Ops") (str "Bob") (str "2026-01-01") CONFIG_DEFAULTS
  = filePathFor (str "Ops") ([66] ++ str "ob")%N (str "2026-01-01")
      CONFIG_DEFAULTS
  /\ str "Bob" = ([66] ++ str "ob")%N.
Proof.
  assert (Hc : forall x, x ≠ [] -> trim x = x ->
                         includes (str " --") x = false -> cleanName x)
    by (intros x H1 H2 H3; exact (conj H1 (conj H2 H3))).
  assert (cleanName (str "Ops")) as Ht
    by (apply Hc; [intros H; vm_compute in H; discriminate H
                  |vm_compute; reflexivity|vm_compute; reflexivity]).
  assert (cleanName (str "2026-01-01")) as Hs
    by (apply Hc; [intros H; vm_compute in H; discriminate H
                  |vm_compute; reflexivity|vm_compute; reflexivity]).
  assert (filePathFor (str "Ops") (str "Bob") (str "2026-01-01") CONFIG_DEFAULTS
          = filePathFor (str "Ops") ([66] ++ str "ob")%N (str "2026-01-01")
              CONFIG_DEFAULTS) as H by reflexivity.
  apply conj; [exact H|].
  exact (proj1 (proj2 (writers_files_are_distinct CONFIG_DEFAULTS
                         (str "Ops") (str "Bob") (str "2026-01-01")
                         (str "Ops") ([66] ++ str "ob")%N (str "2026-01-01")
                         Ht eq_refl Hs Ht eq_refl Hs H))).
Defined.
(** ** The paths sent to the store *)

(** The code units of an encoded file path: those [encodeURIComponent]
    leaves as they are, the percent sign of an escape, and the slash that
    [.replace(/%2F/g,'/')] puts back. *)
Definition pathUnit (c : N) : bool :=
  isUnreserved c || (c =? 37)%N || (c =? 47)%N.

(** What [encodeURIComponent(...).replace(/%2F/g,'/')] makes of one
    octet. *)
Definition pctSlash (b : N) : jsstring :=
  if (b =? 47)%N then [47%N] else pctEncode b.

(** Reading an encoded path back, octet by octet. *)
Definition hexValue (c : N) : N := if (c <? 58)%N then (c - 48)%N else (c - 55)%N.

Fixpoint pctDecode (s : jsstring) : list N :=
  match s with
  | [] => []
  | c :: r =>
      match r with
      | h1 :: h2 :: r' =>
          if (c =? 37)%N then (hexValue h1 * 16 + hexValue h2)%N :: pctDecode r'
          else c :: pctDecode r
      | _ => c :: pctDecode r
      end
  end.

Lemma unescapeSlashes_cons c r :
  c ≠ 37%N -> unescapeSlashes (c :: r) = c :: unescapeSlashes r.
Proof.
  intros Hc%N.eqb_neq. destruct r as [|d [|e r']]; cbn [unescapeSlashes];
    try reflexivity.
  by rewrite Hc.
Qed.

Lemma unescapeSlashes_pct h1 h2 r :
  unescapeSlashes (37%N :: h1 :: h2 :: r)
  = if ((h1 =? 50) && (h2 =? 70))%N then 47%N :: unescapeSlashes r
    else 37%N :: unescapeSlashes (h1 :: h2 :: r).
Proof. reflexivity. Qed.

Lemma pctDecode_pct h1 h2 r :
  pctDecode (37%N :: h1 :: h2 :: r)
  = (hexValue h1 * 16 + hexValue h2)%N :: pctDecode r.
Proof. reflexivity. Qed.

Lemma pctDecode_cons c r : c ≠ 37%N -> pctDecode (c :: r) = c :: pctDecode r.
Proof.
  intros Hc%N.eqb_neq. destruct r as [|d [|e r']]; cbn [pctDecode];
    try reflexivity.
  by rewrite Hc.
Qed.

Lemma hexDigit_bounds n :
  (n < 16)%N ->
  hexDigit n ≠ 37%N /\ hexValue (hexDigit n) = n
  /\ isUnreserved (hexDigit n) = true.
Proof.
  intros Hn. destruct n as [|p]; [by apply conj; [|apply conj]|].
  do 4 (try destruct p as [p|p|]); try lia;
    (apply conj; [discriminate|apply conj; reflexivity]).
Qed.

Lemma pctSlash_units b :
  (b < 256)%N -> Forall (fun c => pathUnit c = true) (pctSlash b).
Proof.
  intros Hb. unfold pctSlash, pctEncode.
  destruct (N.eqb_spec b 47) as [E|_].
  { apply Forall_cons_2; [reflexivity|apply Forall_nil_2]. }
  destruct (isUnreserved b) eqn:Hu.
  - apply Forall_cons_2; [|apply Forall_nil_2]. unfold pathUnit. by rewrite Hu.
  - destruct (hexDigit_bounds (b / 16)) as (_ & _ & H1); [lia|].
    destruct (hexDigit_bounds (b mod 16)) as (_ & _ & H2); [lia|].
    apply Forall_cons_2; [reflexivity|].
    apply Forall_cons_2; [unfold pathUnit; by rewrite H1|].
    apply Forall_cons_2; [unfold pathUnit; by rewrite H2|]. apply Forall_nil_2.
Qed.

(** Putting the slashes back, on an encoded path. *)
Lemma unescapeSlashes_encoded bytes :
  Forall (fun b => b < 256)%N bytes ->
  unescapeSlashes (concat (map pctEncode bytes)) = concat (map pctSlash bytes).
Proof.
  induction 1 as [|b bytes Hb _ IH]; [reflexivity|].
  cbn [map concat]. unfold pctSlash at 1.
  change (pctEncode b)
    with (if isUnreserved b then [b]
          else [37; hexDigit (b / 16); hexDigit (b mod 16)]%N).
  destruct (hexDigit_bounds (b / 16)) as (H1 & _ & _); [lia|].
  destruct (hexDigit_bounds (b mod 16)) as (H2 & _ & _); [lia|].
  destruct (isUnreserved b) eqn:Hu.
  - assert (b ≠ 37 /\ b ≠ 47)%N as [H37 H47]
        by (split; intros ->; discriminate Hu).
    apply N.eqb_neq in H47. rewrite H47. cbn [app].
    by rewrite (unescapeSlashes_cons b _ H37), IH.
  - cbn [app]. rewrite unescapeSlashes_pct.
    destruct (N.eqb_spec b 47) as [->|Hne].
    + change (hexDigit (47 / 16)) with 50%N.
      change (hexDigit (47 mod 16)) with 70%N. cbn [N.eqb Pos.eqb andb app].
      by rewrite IH.
    + assert ((hexDigit (b / 16) =? 50) && (hexDigit (b mod 16) =? 70) = false)%N
        as ->.
      { apply andb_false_iff.
        destruct (N.eqb_spec (hexDigit (b / 16)) 50) as [E1|]; [|by left].
        destruct (N.eqb_spec (hexDigit (b mod 16)) 70) as [E2|]; [|by right].
        exfalso. apply Hne.
        destruct (hexDigit_bounds (b / 16)) as (_ & V1 & _); [lia|].
        destruct (hexDigit_bounds (b mod 16)) as (_ & V2 & _); [lia|].
        rewrite E1 in V1. rewrite E2 in V2.
        change (hexValue 50) with 2%N in V1.
        change (hexValue 70) with 15%N in V2. lia. }
      rewrite (unescapeSlashes_cons _ _ H1), (unescapeSlashes_cons _ _ H2).
      by rewrite IH.
Qed.

(** An encoded path determines its octets. *)
Lemma pctDecode_encoded bytes :
  Forall (fun b => b < 256)%N bytes ->
  pctDecode (concat (map pctSlash bytes)) = bytes.
Proof.
  induction 1 as [|b bytes Hb _ IH]; [reflexivity|].
  cbn [map concat]. unfold pctSlash at 1.
  change (pctEncode b)
    with (if isUnreserved b then [b]
          else [37; hexDigit (b / 16); hexDigit (b mod 16)]%N).
  destruct (N.eqb_spec b 47) as [->|Hne].
  - cbn [app]. by rewrite pctDecode_cons, IH.
  - destruct (isUnreserved b) eqn:Hu.
    + assert (b ≠ 37)%N as H37 by (intros ->; discriminate Hu).
      cbn [app]. by rewrite (pctDecode_cons b _ H37), IH.
    + cbn [app]. rewrite pctDecode_pct, IH. f_equal.
      destruct (hexDigit_bounds (b / 16)) as (_ & -> & _); [lia|].
      destruct (hexDigit_bounds (b mod 16)) as (_ & -> & _); [lia|].
      lia.
Qed.

(** The encoded part of a path of the contents API. *)
Lemma contentsPath_encoded cfg fp :
  wellFormed fp = true ->
  exists bytes,
    utf8Encode fp = Ok bytes
    /\ Forall (fun b => b < 256)%N bytes
    /\ utf8Decode bytes = Ok fp
    /\ contentsPath cfg fp
       = Ok (str "/repos/" ++ OWNER cfg ++ str "/" ++ REPO cfg
             ++ str "/contents/" ++ concat (map pctSlash bytes)).
Proof.
  intros Hwf. destruct (utf8_roundtrip fp Hwf) as (bytes & Henc & Hlt & Hdec).
  exists bytes. repeat apply conj; try done.
  unfold contentsPath, encodeURIComponent. rewrite Henc. cbn [mbind result_bind].
  by rewrite (unescapeSlashes_encoded bytes Hlt).
Qed.

(** Nothing in a file name reaches the store unescaped.  For a well-formed
    path of a file, the path of the contents API is the address of the
    repository followed by the encoded path, in which there are only
    letters, digits, the marks [- _ . ! ~ * ' ( )], percent signs and
    slashes: no question mark, hash, ampersand, space or control
    character of a name can change the request. *)
Theorem store_paths_are_escaped cfg fp :
  wellFormed fp = true ->
  exists enc,
    contentsPath cfg fp
    = Ok (str "/repos/" ++ OWNER cfg ++ str "/" ++ REPO cfg
          ++ str "/contents/" ++ enc)
    /\ Forall (fun c => pathUnit c = true) enc.
Proof.
  intros Hwf.
  destruct (contentsPath_encoded cfg fp Hwf) as (bytes & _ & Hlt & _ & Hp).
  exists (concat (map pctSlash bytes)). split; [exact Hp|].
  apply Forall_concat, Forall_fmap. eapply Forall_impl; [exact Hlt|].
  intros b Hb. by apply pctSlash_units.
Qed.

(** Two files never share a path of the store, and so never an entry of
    the cache, which is kept by path: well-formed file paths with the
    same path of the contents API are the same. *)
Theorem store_paths_tell_files_apart cfg a b p :
  wellFormed a = true -> wellFormed b = true ->
  contentsPathRef cfg a = Ok p -> contentsPathRef cfg b = Ok p -> a = b.
Proof.
  intros Ha Hb.
  destruct (contentsPath_encoded cfg a Ha) as (xs & _ & Hxs & Hda & Hpa).
  destruct (contentsPath_encoded cfg b Hb) as (ys & _ & Hys & Hdb & Hpb).
  unfold contentsPathRef. rewrite Hpa, Hpb. cbn [mbind result_bind].
  destruct (encodeURIComponent (BRANCH cfg)) as [ref|e]; [|discriminate].
  cbn [mbind result_bind]. intros E1 E2.
  assert (Hok : forall x y : jsstring, Ok x = Ok y -> x = y)
    by (intros x y Hxy; by injection Hxy).
  pose proof (Hok _ _ (eq_trans E1 (eq_sym E2))) as E. clear E1 E2.
  rewrite <- !app_assoc in E.
  do 5 apply app_inv_head in E. apply app_inv_tail in E.
  apply (f_equal pctDecode) in E.
  rewrite (pctDecode_encoded xs Hxs), (pctDecode_encoded ys Hys) in E.
  subst ys. rewrite Hda in Hdb. by injection Hdb.
Qed.

Lemma store_paths_are_escaped_witness :
  wellFormed (str "round table/Ops -- Bob?#.txt") = true
  /\ exists enc,
       contentsPath CONFIG_DEFAULTS (str "round table/Ops -- Bob?#.txt")
       = Ok (str "/repos/" ++ OWNER CONFIG_DEFAULTS ++ str "/"
             ++ REPO CONFIG_DEFAULTS ++ str "/contents/" ++ enc)
       /\ Forall (fun c => pathUnit c = true) enc.
Proof.
  assert (wellFormed (str "round table/Ops -- Bob?#.txt") = true) as Hwf
    by reflexivity.
  exact (conj Hwf (store_paths_are_escaped CONFIG_DEFAULTS _ Hwf)).
Defined.

Lemma store_paths_tell_files_apart_witness :
  contentsPathRef CONFIG_DEFAULTS (str "roundtable/Ops -- Bob.txt")
  = contentsPathRef CONFIG_DEFAULTS ([114] ++ str "oundtable/Ops -- Bob.txt")%N
  /\ str "roundtable/Ops -- Bob.txt"
     = ([114] ++ str "oundtable/Ops -- Bob.txt")%N.
Proof.
  destruct (contentsPathRef CONFIG_DEFAULTS (str "roundtable/Ops -- Bob.txt"))
    as [p|e] eqn:Ha; [|vm_compute in Ha; discriminate Ha].
  assert (contentsPathRef CONFIG_DEFAULTS
            ([114] ++ str "oundtable/Ops -- Bob.txt")%N = Ok p) as Hb
    by exact Ha.
  rewrite Hb. apply conj; [reflexivity|].
  exact (store_paths_tell_files_apart CONFIG_DEFAULTS
           (str "roundtable/Ops -- Bob.txt")
           ([114] ++ str "oundtable/Ops -- Bob.txt")%N p
           eq_refl eq_refl Ha Hb).
Defined.
(** ** A key given twice *)

(** The keys whose value is stored as it is read, and the field each one
    fills: [UPDATE] and [UPDATE_B64] fill the same field. *)
Definition fieldOf (key : jsstring) : option nat :=
  if jsstring_eqb key (str "TEAM") then Some 0%nat
  else if jsstring_eqb key (str "NAME") then Some 1%nat
  else if jsstring_eqb key (str "SESSION") then Some 2%nat
  else if jsstring_eqb key (str "FEELING") then Some 3%nat
  else if jsstring_eqb key (str "PRODUCTIVITY") then Some 4%nat
  else if jsstring_eqb key (str "UPDATED_AT") then Some 5%nat
  else if jsstring_eqb key (str "UPDATE_B64") then Some 6%nat
  else if jsstring_eqb key (str "UPDATE") then Some 6%nat
  else None.

Section Overrides.

Variable JSON_parse : jsstring -> result value.

Lemma assign_overrides k1 v1 k2 v2 out :
  is_Some (fieldOf k1) -> fieldOf k1 = fieldOf k2 ->
  (out1 ← assign JSON_parse k1 v1 out; assign JSON_parse k2 v2 out1)
  = assign JSON_parse k2 v2 out.
Proof.
  unfold fieldOf, assign. intros [n Hn]. rewrite Hn. revert Hn.
  repeat (destruct (jsstring_eqb k1 _); [intros [= <-]|]);
    try discriminate;
    repeat (destruct (jsstring_eqb k2 _); [intros [= ]|]);
    try discriminate;
    by destruct out.
Qed.

(** The later line wins.  When two lines that follow one another give a
    value to the same field, with the same key or one with [UPDATE] and
    the other with [UPDATE_B64], [parseContentVars] returns what it returns
    without the first of them. *)
Theorem later_line_overrides before l1 l2 after k1 v1 k2 v2 :
  keyValue l1 = Some (k1, v1) -> keyValue l2 = Some (k2, v2) ->
  is_Some (fieldOf k1) -> fieldOf k1 = fieldOf k2 ->
  noLF l1 = true -> last l1 ≠ Some CR ->
  noLF l2 = true -> last l2 ≠ Some CR ->
  last before ≠ Some CR ->
  parseContentVars JSON_parse
    (before ++ LF :: l1 ++ LF :: l2 ++ LF :: after)
  = parseContentVars JSON_parse (before ++ LF :: l2 ++ LF :: after).
Proof.
  intros Hk1 Hk2 Hf Hsame Hlf1 Hcr1 Hlf2 Hcr2 Hbefore. unfold parseContentVars.
  rewrite !(splitLines_app before) by exact Hbefore.
  rewrite (splitLines_line l1 _ Hlf1 Hcr1), (splitLines_line l2 _ Hlf2 Hcr2).
  rewrite !parseLines_app. cbn [parseLines].
  destruct (parseLines JSON_parse emptyRecord (splitLines before)) as [out|e];
    cbn [mbind result_bind]; [|reflexivity].
  unfold parseLine. rewrite Hk1, Hk2.
  pose proof (assign_overrides k1 v1 k2 v2 out Hf Hsame) as H.
  destruct (assign JSON_parse k1 v1 out) as [out1|e1] eqn:E1;
    cbn [mbind result_bind] in *; [by rewrite H|].
  by rewrite <- H.
Qed.

End Overrides.

Lemma later_line_overrides_witness :
  keyValue (str "update=first") = Some (str "UPDATE", str "first")
  /\ keyValue (str "UPDATE_B64=c2Vjb25k") = Some (str "UPDATE_B64", str "c2Vjb25k")
  /\ parseContentVars noJSON
       (str "TEAM=x" ++ LF :: str "update=first" ++ LF
          :: str "UPDATE_B64=c2Vjb25k" ++ LF :: str "NAME=y")
     = parseContentVars noJSON
         (str "TEAM=x" ++ LF :: str "UPDATE_B64=c2Vjb25k" ++ LF :: str "NAME=y").
Proof.
  assert (keyValue (str "update=first") = Some (str "UPDATE", str "first"))
    as H1 by (vm_compute; reflexivity).
  assert (keyValue (str "UPDATE_B64=c2Vjb25k")
          = Some (str "UPDATE_B64", str "c2Vjb25k"))
    as H2 by (vm_compute; reflexivity).
  apply conj; [exact H1|]. apply conj; [exact H2|].
  apply (later_line_overrides noJSON (str "TEAM=x") _ _ (str "NAME=y") _ _ _ _
           H1 H2); [by eexists|reflexivity|reflexivity|discriminate
                    |reflexivity|discriminate|discriminate].
Defined.
